(** * PanPan image generator server: response resolution and batch execution

    A shallow embedding of [panpan-image-generator-mcp-server.js]:
    the request construction of [generateImage] / [editImage] /
    [generateImageGlm], the multi-strategy extraction of an image from a
    provider response, and the bounded-concurrency batch executors
    [generateImageBatch] / [generateImageGlmBatch].

    Conventions.
    - A JavaScript string is a [string] holding its UTF-8 bytes.  The
      character classes of the regular expressions of the source are
      implemented on that encoding (see [JsString]).
    - Values produced by [JSON.parse] are the inductive [value]; the
      modelled code only ever tests a number for zero, so numbers are
      carried as integers.
    - The runtime ([JSON.parse], [Buffer.from], string conversion) and the
      outside world (HTTP, file system, clock) are records of oracles,
      [Engine] and [World]; the server code is written over them.  A
      collaborator answers as a function of the request it is given.
    - [concurrency] is an integer; [Array.from] truncates a fractional
      length and takes a negative one for zero. *)

From stdpp Require Import gmap strings list pretty.
From Stdlib Require Import Ascii ZArith Lia Permutation.

Local Open Scope Z_scope.

(** ** JavaScript string primitives used by the server *)

Module JsString.

Definition code (c : ascii) : N := N_of_ascii c.

Definition chr (n : N) : ascii := ascii_of_N n.

Definition LF : ascii := chr 10.

(** Tab, line feed, vertical tab, form feed, carriage return, space. *)
Definition ascii_space (c : ascii) : bool :=
  let n := code c in
  ((N.leb 9 n && N.leb n 13) || N.eqb n 32)%bool.

(** The encodings of the white-space characters beyond ASCII: U+00A0 in
    two bytes; U+1680, U+2000..U+200A, U+2028, U+2029, U+202F, U+205F,
    U+3000 and U+FEFF in three. *)
Definition space2 (c d : ascii) : bool :=
  (N.eqb (code c) 194 && N.eqb (code d) 160)%bool.

Definition space3 (c d e : ascii) : bool :=
  let c := code c in let d := code d in let e := code e in
  ((N.eqb c 225 && N.eqb d 154 && N.eqb e 128)
   || (N.eqb c 226 && N.eqb d 128 &&
       ((N.leb 128 e && N.leb e 138) || N.eqb e 168 || N.eqb e 169
        || N.eqb e 175))
   || (N.eqb c 226 && N.eqb d 129 && N.eqb e 159)
   || (N.eqb c 227 && N.eqb d 128 && N.eqb e 128)
   || (N.eqb c 239 && N.eqb d 187 && N.eqb e 191))%bool.

(** Number of bytes of the white-space character (the class [\s], which is
    also what [trim] strips) standing at the head of [s]; [0%nat] if the head
    is no white space. *)
Definition ws_len (s : string) : nat :=
  match s with
  | EmptyString => 0
  | String c r =>
    if ascii_space c then 1
    else match r with
    | EmptyString => 0
    | String d r' =>
      if space2 c d then 2
      else match r' with
      | EmptyString => 0
      | String e _ => if space3 c d e then 3 else 0
      end
    end
  end%nat.

(** The same test on a reversed string (its head is the last byte). *)
Definition ws_len_rev (s : string) : nat :=
  match s with
  | EmptyString => 0
  | String e r =>
    if ascii_space e then 1
    else match r with
    | EmptyString => 0
    | String d r' =>
      if space2 d e then 2
      else match r' with
      | EmptyString => 0
      | String c _ => if space3 c d e then 3 else 0
      end
    end
  end%nat.

Fixpoint strip (wl : string -> nat) (s : string) : string :=
  match s with
  | EmptyString => EmptyString
  | String _ r =>
    match wl s with
    | O => s
    | 1%nat => strip wl r
    | 2%nat => match r with String _ r2 => strip wl r2 | _ => s end
    | _ => match r with String _ (String _ r3) => strip wl r3 | _ => s end
    end
  end.

Definition trimStart (s : string) : string := strip ws_len s.

Definition trimEnd (s : string) : string :=
  String.rev (strip ws_len_rev (String.rev s)).

(** [String.prototype.trim]. *)
Definition trim (s : string) : string := trimEnd (trimStart s).

(** [s.startsWith(p)]. *)
Fixpoint startsWith (p s : string) : bool :=
  match p, s with
  | EmptyString, _ => true
  | String a p', String b s' => if decide (a = b) then startsWith p' s' else false
  | String _ _, EmptyString => false
  end.

Fixpoint drop (n : nat) (s : string) : string :=
  match n, s with
  | O, _ => s
  | S n', String _ s' => drop n' s'
  | S _, EmptyString => EmptyString
  end.

(** [hay.includes(needle)]: case-sensitive substring test. *)
Fixpoint includes (needle hay : string) : bool :=
  startsWith needle hay ||
  match hay with
  | EmptyString => false
  | String _ r => includes needle r
  end.

(** [s.split('\n')]. *)
Fixpoint split_lines (s : string) : list string :=
  match s with
  | EmptyString => [EmptyString]
  | String c r =>
    if decide (c = LF) then EmptyString :: split_lines r
    else match split_lines r with
         | l :: ls => String c l :: ls
         | [] => [String c EmptyString]
         end
  end.

(** [s.replace(pat, '')] with a string pattern: only the first occurrence
    is removed. *)
Fixpoint remove_first (pat s : string) : string :=
  if startsWith pat s then drop (String.length pat) s
  else match s with
       | EmptyString => EmptyString
       | String c r => String c (remove_first pat r)
       end.

(** Lower-casing of the ASCII letters; under the [i] flag (without [u]) a
    pattern letter matches exactly its two ASCII cases. *)
Definition lower (c : ascii) : ascii :=
  let n := code c in
  if (N.leb 65 n && N.leb n 90)%bool then chr (n + 32) else c.

Fixpoint startsWith_ci (p s : string) : bool :=
  match p, s with
  | EmptyString, _ => true
  | String a p', String b s' =>
    if decide (lower a = lower b) then startsWith_ci p' s' else false
  | String _ _, EmptyString => false
  end.

Fixpoint take (n : nat) (s : string) : string :=
  match n, s with
  | O, _ => EmptyString
  | S n', String c s' => String c (take n' s')
  | S _, EmptyString => EmptyString
  end.

End JsString.

(** ** The three regular expressions of the resolver

    Each matcher follows the backtracking order of the JavaScript engine:
    leftmost start first, greedy quantifiers giving back one character at a
    time, alternatives tried left to right. *)

Module Regex.
Import JsString.

Definition char_is (c : ascii) (s : string) : bool :=
  match s with
  | String d EmptyString => if decide (c = d) then true else false
  | _ => false
  end.

(** [(jpg|jpeg|png|gif|webp)], in the order of the source. *)
Definition extensions : list string := ["jpg"; "jpeg"; "png"; "gif"; "webp"].

Fixpoint first_ext (es : list string) (s : string) : option nat :=
  match es with
  | [] => None
  | e :: es' =>
    if startsWith_ci e s then Some (String.length e) else first_ext es' s
  end.

(** [\.(jpg|jpeg|png|gif|webp)] at the head of [s]: length of the match. *)
Definition ext_at (s : string) : option nat :=
  match s with
  | String c r =>
    if char_is c "." then
      match first_ext extensions r with
      | Some n => Some (S n)
      | None => None
      end
    else None
  | EmptyString => None
  end.

(** A character outside the class [[^\s\)]] stands at the head of [s]. *)
Definition url_stop (s : string) : bool :=
  match s with
  | EmptyString => true
  | String c _ => (negb (Nat.eqb (ws_len s) 0) || char_is c ")")%bool
  end.

(** [[^\s\)]+\.(jpg|jpeg|png|gif|webp)] at the head of [s]: the class run is
    greedy, so the longest run that is followed by an extension is taken. *)
Fixpoint run_ext (s : string) : option nat :=
  match s with
  | EmptyString => None
  | String _ r =>
    if url_stop s then None
    else match run_ext r with
         | Some n => Some (S n)
         | None =>
           match ext_at r with
           | Some n => Some (S n)
           | None => None
           end
         end
  end.

Definition url_after_scheme (whole : string) (k : nat) (r : string)
  : option string :=
  if startsWith "://" r then
    match run_ext (drop 3 r) with
    | Some n => Some (take (k + 3 + n) whole)
    | None => None
    end
  else None.

(** The whole pattern anchored at the head of [s]; the optional [s] of
    [https?] is tried present first. *)
Definition url_at (s : string) : option string :=
  if startsWith_ci "http" s then
    let r := drop 4 s in
    match (if startsWith_ci "s" r then url_after_scheme s 5 (drop 1 r)
           else None) with
    | Some m => Some m
    | None => url_after_scheme s 4 r
    end
  else None.

(** [text.match(/https?:\/\/[^\s\)]+\.(jpg|jpeg|png|gif|webp)/i)]:
    the matched text [m[0]], or [None] for [null]. *)
Fixpoint match_url (s : string) : option string :=
  match url_at s with
  | Some m => Some m
  | None =>
    match s with
    | EmptyString => None
    | String _ r => match_url r
    end
  end.

Definition b64char (c : ascii) : bool :=
  let n := code c in
  ((N.leb 65 n && N.leb n 90) || (N.leb 97 n && N.leb n 122)
   || (N.leb 48 n && N.leb n 57) || N.eqb n 43 || N.eqb n 47 || N.eqb n 61)%bool.

Fixpoint span (p : ascii -> bool) (s : string) : string :=
  match s with
  | EmptyString => EmptyString
  | String c r => if p c then String c (span p r) else EmptyString
  end.

(** The suffix of [s] that starts at its first [;]. *)
Fixpoint from_semicolon (s : string) : option string :=
  match s with
  | EmptyString => None
  | String c r => if char_is c ";" then Some s else from_semicolon r
  end.

(** [data:image\/[^;]+;base64,] at the head of [s]: what follows it.  The
    run [[^;]+] must be followed by a [;], so it ends at the first one. *)
Definition dataurl_head (s : string) : option string :=
  if startsWith "data:image/" s then
    match drop 11 s with
    | EmptyString => None
    | String c _ as r =>
      if char_is c ";" then None
      else match from_semicolon r with
           | Some t => if startsWith ";base64," t then Some (drop 8 t) else None
           | None => None
           end
    end
  else None.

Definition dataurl_at (s : string) : option string :=
  match dataurl_head s with
  | Some r =>
    match span b64char r with
    | EmptyString => None
    | p => Some p
    end
  | None => None
  end.

(** [text.match(/data:image\/[^;]+;base64,([A-Za-z0-9+/=]+)/)]: the first
    capture group [m[1]], or [None] for [null]. *)
Fixpoint match_dataurl (s : string) : option string :=
  match dataurl_at s with
  | Some p => Some p
  | None =>
    match s with
    | EmptyString => None
    | String _ r => match_dataurl r
    end
  end.

(** A line terminator (LF, CR, U+2028, U+2029), which [.] does not match,
    occurs in [s]. *)
Fixpoint has_line_terminator (s : string) : bool :=
  match s with
  | EmptyString => false
  | String c r =>
    (N.eqb (code c) 10 || N.eqb (code c) 13
     || match r with
        | String d (String e _) =>
          N.eqb (code c) 226 && N.eqb (code d) 128
          && (N.eqb (code e) 168 || N.eqb (code e) 169)
        | _ => false
        end
     || has_line_terminator r)%bool
  end.

(** [url.match(/^data:image\/[^;]+;base64,(.+)$/)]: the capture group, or
    [None] for [null]. *)
Definition match_dataurl_whole (s : string) : option string :=
  match dataurl_head s with
  | Some EmptyString => None
  | Some r => if has_line_terminator r then None else Some r
  | None => None
  end.

End Regex.

(** ** Values, truthiness and property access *)

(** What [JSON.parse] builds, and [undefined].  An object lists its
    properties in order, one binding per name. *)
#[warnings="-register-all"]
Inductive value : Type :=
| VUndef
| VNull
| VBool (b : bool)
| VNum (n : Z)
| VStr (s : string)
| VArr (items : list value)
| VObj (fields : list (string * value)).

(** [ToBoolean]. *)
Definition truthy (v : value) : bool :=
  match v with
  | VUndef | VNull => false
  | VBool b => b
  | VNum n => negb (Z.eqb n 0)
  | VStr s => negb (if decide (s = EmptyString) then true else false)
  | VArr _ | VObj _ => true
  end.

Definition nullish (v : value) : bool :=
  match v with
  | VUndef | VNull => true
  | _ => false
  end.

Fixpoint lookup_field (k : string) (fs : list (string * value)) : value :=
  match fs with
  | [] => VUndef
  | (k', v) :: fs' => if decide (k = k') then v else lookup_field k fs'
  end.

(** [v.k] for the property names the server reads ([choices], [message],
    [content], [images], [type], [image_url], [url], [inline_data], [data],
    [text], [delta], [mime_type], [prompt], [saveToFilePath]); none of them
    is inherited from a prototype.  [None] is the [TypeError] of reading a
    property of [null] or [undefined]. *)
Definition get (v : value) (k : string) : option value :=
  match v with
  | VUndef | VNull => None
  | VObj fs => Some (lookup_field k fs)
  | _ => Some VUndef
  end.

(** [v[0]]; on a string it is the one-character string at index 0. *)
Definition get0 (v : value) : option value :=
  match v with
  | VUndef | VNull => None
  | VObj fs => Some (lookup_field "0" fs)
  | VArr (x :: _) => Some x
  | VStr (String c _) => Some (VStr (String c EmptyString))
  | _ => Some VUndef
  end.

(** [v === 'lit']. *)
Definition is_str (lit : string) (v : value) : bool :=
  match v with
  | VStr s => if decide (s = lit) then true else false
  | _ => false
  end.

(** ** Exceptions, events and the effect monad *)

(** A thrown value: [name] and [message] of the error object. *)
Record exn := { ename : string; emessage : string }.

(** [new Error(msg)]. *)
Definition Error (msg : string) : exn := {| ename := "Error"; emessage := msg |}.

(** [String(error)], i.e. [Error.prototype.toString]. *)
Definition String_of_exn (e : exn) : string :=
  if decide (ename e = EmptyString) then emessage e
  else if decide (emessage e = EmptyString) then ename e
  else ename e +:+ ": " +:+ emessage e.

Definition bytes := list Byte.byte.

Record ImageConfig := {
  aspect_ratio : option string;
  image_size : option string
}.

Inductive contentPart :=
| TextPart (text : value)
| ImageUrlPart (url : string).

Inductive messageContent :=
| ContentText (text : value)
| ContentParts (parts : list contentPart).

Record chatMessage := { role : string; content : messageContent }.

(** The body posted to the chat-completions endpoint; [image_config] is
    [None] when the property is not set. *)
Record chatBody := {
  cb_model : string;
  cb_messages : list chatMessage;
  cb_modalities : list string;
  cb_stream : bool;
  cb_max_tokens : Z;
  cb_image_config : option ImageConfig
}.

(** The body posted to the GLM image endpoint. *)
Record glmBody := {
  gb_model : string;
  gb_prompt : value;
  gb_size : value;
  gb_watermark_enabled : bool
}.

Inductive RequestBody :=
| ChatBody (b : chatBody)
| GlmBody (b : glmBody).

Inductive event :=
| EvPost (url : string) (authorization : string) (body : RequestBody)
| EvGet (url : value)
| EvReadFile (path : value)
| EvAccess (path : string)
| EvMkdir (path : string)
| EvWriteFile (path : value) (data : bytes).

Definition is_network (e : event) : bool :=
  match e with
  | EvPost _ _ _ | EvGet _ => true
  | _ => false
  end.

Inductive outcome (A : Type) :=
| Ok (a : A)
| Throw (e : exn).
Arguments Ok {A} a.
Arguments Throw {A} e.

(** A computation: the events it performed, and how it ended. *)
Definition M (A : Type) : Type := list event * outcome A.

Definition ret {A} (a : A) : M A := ([], Ok a).
Definition throw {A} (e : exn) : M A := ([], Throw e).
Definition emit (e : event) : M unit := ([e], Ok tt).
Definition lift {A} (o : outcome A) : M A := ([], o).

Definition bind {A B} (m : M A) (f : A -> M B) : M B :=
  match m with
  | (t, Ok a) => let '(t', r) := f a in (t ++ t', r)
  | (t, Throw e) => (t, Throw e)
  end.

(** [try { m } catch (e) { h e }]. *)
Definition try_catch {A} (m : M A) (h : exn -> M A) : M A :=
  match m with
  | (t, Ok a) => (t, Ok a)
  | (t, Throw e) => let '(t', r) := h e in (t ++ t', r)
  end.

#[global] Instance M_ret : MRet M := @ret.
#[global] Instance M_bind : MBind M := fun A B f m => bind m f.

(** ** The runtime and the outside world *)

(** What the JavaScript runtime and the standard library do for the
    server. *)
Record Engine := {
  (** [JSON.parse]; [None] when it throws a [SyntaxError]. *)
  JSON_parse : string -> option value;
  (** The [SyntaxError] thrown by [response.json()] on that body. *)
  SyntaxError_of : string -> exn;
  (** The [TypeError] of reading the named property of [null] or
      [undefined]. *)
  TypeError_read : string -> exn;
  (** [ToString] of a value that is not a string (it throws on an object
      whose conversion methods are not callable). *)
  ToString : value -> outcome string;
  (** [Buffer.from(v, 'base64')]. *)
  Buffer_from_base64 : value -> outcome bytes;
  (** [buffer.toString('base64')]. *)
  Buffer_to_base64 : bytes -> string
}.

(** An HTTP response as the server reads it: [ok], [status], the body as
    text and as a buffer. *)
Record Response := {
  ok : bool;
  status : N;
  text : string;
  buffer : bytes
}.

(** The collaborators reached through [await]: [fetch], [fs] and the
    generated default file name (timestamp and sanitised prompt). *)
Record World := {
  fetch_post : string -> string -> RequestBody -> outcome Response;
  fetch_get : value -> outcome Response;
  fs_readFile : value -> outcome bytes;
  fs_access : string -> bool;
  fs_mkdir : string -> outcome unit;
  fs_writeFile : value -> bytes -> outcome unit;
  (** [path.join(dir, `${kind}_${safePrompt}_${timestamp}.${ext}`)]; it
      throws when the prompt has no [substring] method. *)
  default_path : string -> string -> value -> string -> outcome string
}.

(** [API_CONFIG]. *)
Record Config := {
  apiKey : string;
  modelNanoBanana : string;
  modelSeedream : string;
  modelGlmImage : string;
  zhipuApiKey : string;
  zhipuApiBase : string;
  chatApiUrl : string;
  outputDir : string;
  projectDir : string
}.

(** ** The state of one resolution: [imageUrl], [fullContent],
    [imageBase64] *)

Record rstate := {
  imageUrl : option string;
  fullContent : string;
  imageBase64 : value
}.

Definition set_imageUrl (u : string) (st : rstate) : rstate :=
  {| imageUrl := Some u; fullContent := fullContent st;
     imageBase64 := imageBase64 st |}.

Definition set_fullContent (s : string) (st : rstate) : rstate :=
  {| imageUrl := imageUrl st; fullContent := s;
     imageBase64 := imageBase64 st |}.

Definition set_imageBase64 (v : value) (st : rstate) : rstate :=
  {| imageUrl := imageUrl st; fullContent := fullContent st;
     imageBase64 := v |}.

(** [let imageUrl = null; let fullContent = ''; let imageBase64 = null;] *)
Definition rstate0 : rstate :=
  {| imageUrl := None; fullContent := EmptyString; imageBase64 := VNull |}.

(** Code inside a [try] block that works on the three variables: the
    variables keep what was assigned before a throw ([None]). *)
Definition T (A : Type) : Type := rstate -> rstate * option A.

#[global] Instance T_ret : MRet T := fun A a st => (st, Some a).
#[global] Instance T_bind : MBind T := fun A B f m st =>
  match m st with
  | (st', Some a) => f a st'
  | (st', None) => (st', None)
  end.

Definition raise {A} : T A := fun st => (st, None).

Definition of_option {A} (o : option A) : T A :=
  match o with
  | Some a => mret a
  | None => raise
  end.

Definition modify (f : rstate -> rstate) : T unit := fun st => (f st, Some tt).

Definition read : T rstate := fun st => (st, Some st).

Definition skip : T unit := mret tt.

(** [for (const x of l) { f x }]. *)
Fixpoint for_of {A} (f : A -> T unit) (l : list A) : T unit :=
  match l with
  | [] => skip
  | x :: l' => _ ← f x; for_of f l'
  end.

(** [try { m } catch (e) { continue; }]. *)
Definition swallow (m : T unit) : T unit :=
  fun st => (fst (m st), Some tt).

Section Server.

Variable E : Engine.
Variable W : World.
Variable API_CONFIG : Config.

Import JsString.

(** [ToString] as used by [+=] and by template literals. *)
Definition to_string (v : value) : outcome string :=
  match v with
  | VStr s => Ok s
  | _ => ToString E v
  end.

Definition to_string_T (v : value) : T string :=
  match to_string v with
  | Ok s => mret s
  | Throw _ => raise
  end.

(** [fullContent += v]. *)
Definition append_content (s : string) : T unit :=
  modify (fun st => set_fullContent (fullContent st +:+ s) st).

(** The log line evaluated after an inline image is taken.  Only whether
    it throws matters: [`${v.length}`]. *)
Definition log_length (d : value) : T unit :=
  match d with
  | VUndef | VNull => raise
  | VObj fs => _ ← to_string_T (lookup_field "length" fs); skip
  | _ => skip
  end.

(** How each copy of the loop over content parts logs a found image. *)
Inductive part_logging :=
| LogMimeAndLength   (* [generateImage], JSON response *)
| LogLength          (* [generateImage], stream frames *)
| LogNothing.        (* [editImage] *)

Definition log_part (lg : part_logging) (inline_data d : value) : T unit :=
  match lg with
  | LogMimeAndLength =>
    mime ← of_option (get inline_data "mime_type");
    _ ← to_string_T mime;
    log_length d
  | LogLength => log_length d
  | LogNothing => skip
  end.

(** The body of [for (const part of content)]:
    a text part is appended to [fullContent], an image part with
    [inline_data] overwrites [imageBase64]. *)
Definition content_part (lg : part_logging) (part : value) : T unit :=
  ty ← of_option (get part "type");
  if is_str "text" ty then
    t ← of_option (get part "text");
    if truthy t then s ← to_string_T t; append_content s
    else append_content EmptyString
  else if is_str "image" ty then
    inline_data ← of_option (get part "inline_data");
    if truthy inline_data then
      d ← of_option (get inline_data "data");
      _ ← modify (set_imageBase64 d);
      log_part lg inline_data d
    else skip
  else skip.

(** The body of [for (const img of message.images)]: an entry of type
    [image_url] whose URL matches the anchored data-URL pattern overwrites
    [imageBase64]; there is no [break]. *)
Definition image_entry (img : value) : T unit :=
  ty ← of_option (get img "type");
  if is_str "image_url" ty then
    image_url ← of_option (get img "image_url");
    if truthy image_url then
      dataUrl ← of_option (get image_url "url");
      if truthy dataUrl then
        match dataUrl with
        | VStr s =>
          match Regex.match_dataurl_whole s with
          | Some payload => modify (set_imageBase64 (VStr payload))
          | None => skip
          end
        | _ => raise   (* [dataUrl.match] is not a function *)
        end
      else skip
    else skip
  else skip.

(** The [try] block of [generateImage] (lines 111-145) and of [editImage]
    (lines 488-519) after [JSON.parse]; the two differ in the log line. *)
Definition structured (lg : part_logging) (jsonData : value) : T unit :=
  choices ← of_option (get jsonData "choices");
  if negb (truthy choices) then skip else
  choice0 ← of_option (get0 choices);
  if negb (truthy choice0) then skip else
  message ← of_option (get choice0 "message");
  if negb (truthy message) then skip else
  messageContent ← of_option (get message "content");
  images ← of_option (get message "images");
  _ ← match images with
      | VArr imgs => for_of image_entry imgs
      | _ => skip
      end;
  st ← read;
  match messageContent with
  | VArr parts =>
    if negb (truthy (imageBase64 st)) then for_of (content_part lg) parts
    else skip
  | VStr s => modify (set_fullContent s)
  | _ => skip
  end.

(** The two content shapes of a stream frame (lines 166-180, 183-197). *)
Definition frame_content (content : value) : T unit :=
  match content with
  | VArr parts => for_of (content_part LogLength) parts
  | VStr s => append_content s
  | _ => skip
  end.

(** What is done with a parsed frame (lines 162-198). *)
Definition frame_body (data : value) : T unit :=
  choices ← of_option (get data "choices");
  if negb (truthy choices) then skip else
  choice ← of_option (get0 choices);
  if negb (truthy choice) then skip else
  delta ← of_option (get choice "delta");
  _ ← (if truthy delta then
         content ← of_option (get delta "content");
         if truthy content then frame_content content else skip
       else skip);
  message ← of_option (get choice "message");
  if truthy message then
    content ← of_option (get message "content");
    if truthy content then frame_content content else skip
  else skip.

(** The body of the [try] inside [for (const line of lines)]. *)
Definition stream_line (line : string) : T unit :=
  if startsWith "data:" (trim line) then
    let jsonStr := remove_first "data: " line in
    if decide (trim jsonStr = "[DONE]") then skip else
    data ← of_option (JSON_parse E jsonStr);
    frame_body data
  else skip.

(** [responseText.split('\n').filter(line => line.trim())]. *)
Definition stream_lines (responseText : string) : list string :=
  filter (fun line => trim line ≠ EmptyString) (split_lines responseText).

(** The [catch] block of [generateImage] (lines 146-205). *)
Definition stream_fallback (responseText : string) : T unit :=
  for_of (fun line => swallow (stream_line line)) (stream_lines responseText).

(** Lines 110-205 of [generateImage]. *)
Definition parse_generate (responseText : string) : rstate :=
  let attempt : T unit :=
    jsonData ← of_option (JSON_parse E responseText);
    structured LogMimeAndLength jsonData in
  match attempt rstate0 with
  | (st, Some _) => st
  | (st, None) => fst (stream_fallback responseText st)
  end.

(** Lines 487-522 of [editImage]: the [catch] block only logs. *)
Definition parse_edit (responseText : string) : rstate :=
  let attempt : T unit :=
    jsonData ← of_option (JSON_parse E responseText);
    structured LogNothing jsonData in
  fst (attempt rstate0).

(** The two pattern searches over [fullContent] (lines 212-222 and
    526-534): both are run, one after the other. *)
Definition scan_text (st : rstate) : rstate :=
  let st1 :=
    match Regex.match_url (fullContent st) with
    | Some u => set_imageUrl u st
    | None => st
    end in
  match Regex.match_dataurl (fullContent st) with
  | Some payload => set_imageBase64 (VStr payload) st1
  | None => st1
  end.

Definition no_image_yet (st : rstate) : bool :=
  match imageUrl st with
  | None => negb (truthy (imageBase64 st))
  | Some _ => false
  end.

(** [if (!imageUrl && !imageBase64) { ... }]. *)
Definition text_scan_generate (st : rstate) : rstate :=
  if no_image_yet st then scan_text st else st.

(** [if (!imageUrl && !imageBase64 && fullContent) { ... }]. *)
Definition text_scan_edit (st : rstate) : rstate :=
  if (no_image_yet st && truthy (VStr (fullContent st)))%bool
  then scan_text st else st.

(** What is known about the image when the response has been examined. *)
Definition extract_generate (responseText : string) : rstate :=
  text_scan_generate (parse_generate responseText).

Definition extract_edit (responseText : string) : rstate :=
  text_scan_edit (parse_edit responseText).

(** ** Requests *)

(** [model.includes('gemini') || model.includes('nano-banana')]. *)
Definition is_gemini_model (model : string) : bool :=
  (includes "gemini" model || includes "nano-banana" model)%bool.

(** [imageConfig || { image_size: '1K' }]. *)
Definition image_config_or_default (imageConfig : option ImageConfig)
  : ImageConfig :=
  match imageConfig with
  | Some c => c
  | None => {| aspect_ratio := None; image_size := Some "1K" |}
  end.

Definition chat_request (model : string) (content : messageContent)
    (imageConfig : option ImageConfig) : chatBody :=
  {| cb_model := model;
     cb_messages := [ {| role := "user"; content := content |} ];
     cb_modalities := ["image"; "text"];
     cb_stream := false;
     cb_max_tokens := 4000;
     cb_image_config :=
       if is_gemini_model model
       then Some (image_config_or_default imageConfig)
       else None |}.

(** [requestBody] of [generateImage] (lines 70-86). *)
Definition generate_request (prompt : value) (model : string)
    (imageConfig : option ImageConfig) : chatBody :=
  chat_request model (ContentText prompt) imageConfig.

(** [requestBody] of [editImage] (lines 436-463). *)
Definition edit_request (editPrompt : value) (base64Image : string)
    (model : string) (imageConfig : option ImageConfig) : chatBody :=
  chat_request model
    (ContentParts [TextPart editPrompt;
                   ImageUrlPart ("data:image/jpeg;base64," +:+ base64Image)])
    imageConfig.

(** The body of [generateImageGlm] (lines 291-296). *)
Definition glm_request (prompt size : value) : glmBody :=
  {| gb_model := modelGlmImage API_CONFIG;
     gb_prompt := prompt;
     gb_size := size;
     gb_watermark_enabled := false |}.

(** ** The single-job functions *)

Definition to_string_M (v : value) : M string := lift (to_string v).

Definition post (url auth : string) (body : RequestBody) : M Response :=
  _ ← emit (EvPost url auth body); lift (fetch_post W url auth body).

(** [fetch(imageUrl)] followed by the status check and [.buffer()]. *)
Definition download (url : value) : M bytes :=
  _ ← emit (EvGet url);
  imageResponse ← lift (fetch_get W url);
  if negb (ok imageResponse)
  then throw (Error ("下载图像失败: " +:+ pretty (status imageResponse)))
  else mret (buffer imageResponse).

(** [try { await fs.access(dir) } catch { await fs.mkdir(dir, ...) }]. *)
Definition ensure_dir (dir : string) : M unit :=
  _ ← emit (EvAccess dir);
  if fs_access W dir then mret tt
  else _ ← emit (EvMkdir dir); lift (fs_mkdir W dir).

Definition writeFile (path : value) (data : bytes) : M unit :=
  _ ← emit (EvWriteFile path data); lift (fs_writeFile W path data).

Definition msg_no_image : string :=
  "未在响应中找到图像URL或base64数据，可能需要调整提示词".

Definition msg_no_image_edit : string :=
  "未在编辑响应中找到图像URL或base64数据，可能需要调整编辑提示词".

(** Lines 225-241 and 537-552: base64 data first, else the URL, else the
    error. *)
Definition materialize (no_image : string) (st : rstate) : M bytes :=
  if truthy (imageBase64 st) then lift (Buffer_from_base64 E (imageBase64 st))
  else match imageUrl st with
       | Some u => download (VStr u)
       | None => throw (Error no_image)
       end.

Definition bearer (key : string) : string := "Bearer " +:+ key.

(** [API_CONFIG.projectDir || API_CONFIG.outputDir]. *)
Definition targetDir : string :=
  if decide (projectDir API_CONFIG = EmptyString) then outputDir API_CONFIG
  else projectDir API_CONFIG.

Definition success_result (message : string) (filePath : value)
    (rest : list (string * value)) : value :=
  VObj ([("success", VBool true); ("message", VStr message);
         ("filePath", filePath)] ++ rest).

Definition failure_result (error : string) (rest : list (string * value))
  : value :=
  VObj ([("success", VBool false); ("error", VStr error)] ++ rest).

(** [generateImage(prompt, saveToFilePath, model, imageConfig)]
    (lines 65-278). *)
Definition generateImage (prompt saveToFilePath : value) (model : string)
    (imageConfig : option ImageConfig) : M value :=
  try_catch
    (let requestBody := generate_request prompt model imageConfig in
     response ← post (chatApiUrl API_CONFIG) (bearer (apiKey API_CONFIG))
                     (ChatBody requestBody);
     if negb (ok response) then
       throw (Error ("API 请求失败: " +:+ pretty (status response) +:+ " - "
                     +:+ text response))
     else
     let responseText := text response in
     let st := extract_generate responseText in
     imageBuffer ← materialize msg_no_image st;
     saveToFilePath ←
       (if truthy saveToFilePath then mret saveToFilePath
        else
          _ ← ensure_dir targetDir;
          let ext :=
            if (truthy (imageBase64 st)
                && includes "image/jpeg" responseText)%bool
            then "jpg" else "png" in
          p ← lift (default_path W targetDir "generated" prompt ext);
          mret (VStr p));
     _ ← writeFile saveToFilePath imageBuffer;
     shown ← to_string_M saveToFilePath;
     mret (success_result ("图像生成成功并保存到: " +:+ shown) saveToFilePath
             [("prompt", prompt)]))
    (fun error =>
       mret (failure_result (emessage error) [("prompt", prompt)])).

(** [editImage(imagePath, editPrompt, saveToFilePath, model, imageConfig)]
    (lines 427-583). *)
Definition editImage (imagePath editPrompt saveToFilePath : value)
    (model : string) (imageConfig : option ImageConfig) : M value :=
  try_catch
    (_ ← emit (EvReadFile imagePath);
     imageBuffer ← lift (fs_readFile W imagePath);
     let base64Image := Buffer_to_base64 E imageBuffer in
     let requestBody := edit_request editPrompt base64Image model imageConfig in
     response ← post (chatApiUrl API_CONFIG) (bearer (apiKey API_CONFIG))
                     (ChatBody requestBody);
     if negb (ok response) then
       throw (Error ("API 请求失败: " +:+ pretty (status response) +:+ " - "
                     +:+ text response))
     else
     let st := extract_edit (text response) in
     editedImageBuffer ← materialize msg_no_image_edit st;
     saveToFilePath ←
       (if truthy saveToFilePath then mret saveToFilePath
        else
          _ ← ensure_dir (outputDir API_CONFIG);
          p ← lift (default_path W (outputDir API_CONFIG) "edited"
                      editPrompt "png");
          mret (VStr p));
     _ ← writeFile saveToFilePath editedImageBuffer;
     shown ← to_string_M saveToFilePath;
     mret (success_result ("图像编辑成功并保存到: " +:+ shown) saveToFilePath
             [("originalPath", imagePath); ("editPrompt", editPrompt)]))
    (fun error =>
       mret (failure_result (emessage error)
               [("originalPath", imagePath); ("editPrompt", editPrompt)])).

Definition msg_glm_no_url : string := "智谱 API 返回格式异常，未找到图像 URL".

(** [data.data[0].url] guarded by
    [!data.data || !data.data[0] || !data.data[0].url] (lines 308-312). *)
Definition glm_image_url (data : value) : M value :=
  match get data "data" with
  | None => throw (TypeError_read E "data")
  | Some items =>
    if negb (truthy items) then throw (Error msg_glm_no_url) else
    match get0 items with
    | None => throw (TypeError_read E "0")
    | Some first =>
      if negb (truthy first) then throw (Error msg_glm_no_url) else
      match get first "url" with
      | None => throw (TypeError_read E "url")
      | Some url =>
        if negb (truthy url) then throw (Error msg_glm_no_url) else mret url
      end
    end
  end.

(** [generateImageGlm(prompt, saveToFilePath, size)] (lines 281-356). *)
Definition generateImageGlm (prompt saveToFilePath size : value) : M value :=
  try_catch
    (_ ← to_string_M prompt;                       (* the first log line *)
     response ← post (zhipuApiBase API_CONFIG +:+ "/images/generations")
                     (bearer (zhipuApiKey API_CONFIG))
                     (GlmBody (glm_request prompt size));
     if negb (ok response) then
       throw (Error ("智谱 API 请求失败: " +:+ pretty (status response)
                     +:+ " - " +:+ text response))
     else
     data ← match JSON_parse E (text response) with
            | Some v => mret v
            | None => throw (SyntaxError_of E (text response))
            end;
     imageUrl ← glm_image_url data;
     _ ← to_string_M imageUrl;                     (* the log line *)
     imageBuffer ← download imageUrl;
     saveToFilePath ←
       (if truthy saveToFilePath then mret saveToFilePath
        else
          _ ← ensure_dir targetDir;
          p ← lift (default_path W targetDir "glm" prompt "png");
          mret (VStr p));
     _ ← writeFile saveToFilePath imageBuffer;
     shown ← to_string_M saveToFilePath;
     mret (success_result ("图像生成成功并保存到: " +:+ shown) saveToFilePath
             [("prompt", prompt); ("model", VStr "glm-image")]))
    (fun error =>
       mret (failure_result (emessage error)
               [("prompt", prompt); ("model", VStr "glm-image")])).

End Server.

(** ** The batch executor

    Arrays live in a store, so that [batchRequests], [queue] and [results]
    are references and [slice] is an allocation.  A worker runs without
    interruption from one [await] to the next; the only [await] of the loop
    is the call of the single-job function, and the order in which the
    pending calls complete is given by a schedule. *)

Definition loc := positive.

Abbreviation store := (gmap loc (list value)).

Definition array_at (h : store) (l : loc) : list value := default [] (h !! l).

(** [a.push(v)]. *)
Definition push (l : loc) (v : value) (h : store) : store :=
  <[l := array_at h l ++ [v]]> h.

(** One worker of the pool. *)
Inductive wstate :=
| Awaiting (prompt saveToFilePath : value)  (* suspended in [await] *)
| Finished                                  (* [while (queue.length)] ended *)
| Rejected (e : exn).                       (* the destructuring threw *)

Definition is_awaiting (w : wstate) : bool :=
  match w with
  | Awaiting _ _ => true
  | _ => false
  end.

Definition msg_missing_prompt : string := "缺少 prompt".

Definition msg_missing_requests : string :=
  "缺少批量请求列表，需提供 [{ prompt, saveToFilePath? }, ...]".

(** [{ success: false, error: '缺少 prompt', prompt }]. *)
Definition missing_prompt_result (prompt : value) : value :=
  failure_result msg_missing_prompt [("prompt", prompt)].

(** [error.message || String(error)]. *)
Definition message_or_string (e : exn) : string :=
  if decide (emessage e = EmptyString) then String_of_exn e else emessage e.

Section Executor.

(** The engine, for the [TypeError] of a failed destructuring. *)
Variable E : Engine.

(** The call under [await], e.g.
    [generateImage(prompt, saveToFilePath, model, imageConfig)]. *)
Variable single : value -> value -> M value.

(** The fields that follow [prompt] in the record pushed by the [catch]
    block: none in [generateImageBatch], [model] in
    [generateImageGlmBatch]. *)
Variable catch_rest : list (string * value).

Variables queue results : loc.

(** What a call under [await] leaves behind: the pushed record and the
    events of the call. *)
Definition settle (prompt saveToFilePath : value) : value * list event :=
  match single prompt saveToFilePath with
  | (t, Ok result) => (result, t)
  | (t, Throw error) =>
    (failure_result (message_or_string error) (("prompt", prompt) :: catch_rest),
     t)
  end.

(** The worker from the head of [while (queue.length)] to its next
    [await]; [q] is the content of [queue] on entry. *)
Fixpoint run_worker (q : list value) (h : store) : wstate * store :=
  match q with
  | [] => (Finished, h)
  | job :: rest =>
    let h := <[queue := rest]> h in                  (* [queue.shift()] *)
    match get job "prompt", get job "saveToFilePath" with
    | Some prompt, Some saveToFilePath =>
      if negb (truthy prompt)
      then run_worker rest (push results (missing_prompt_result prompt) h)
      else (Awaiting prompt saveToFilePath, h)
    | _, _ => (Rejected (TypeError_read E "prompt"), h)
    end
  end.

Definition enter_loop (h : store) : wstate * store :=
  run_worker (array_at h queue) h.

(** [Array.from({ length: k }, async () => { ... })]: the workers are
    started one after the other. *)
Fixpoint spawn (k : nat) (h : store) : list wstate * store :=
  match k with
  | O => ([], h)
  | S k' =>
    let '(w, h) := enter_loop h in
    let '(ws, h) := spawn k' h in
    (w :: ws, h)
  end.

(** The awaited call of worker [i] completes: the record is pushed and the
    worker goes round its loop. *)
Definition resume (i : nat) (ws : list wstate) (h : store) (tr : list event)
  : list wstate * store * list event :=
  match ws !! i with
  | Some (Awaiting prompt saveToFilePath) =>
    let '(result, t) := settle prompt saveToFilePath in
    let '(w, h) := enter_loop (push results result h) in
    (<[i := w]> ws, h, tr ++ t)
  | _ => (ws, h, tr)
  end.

Fixpoint first_awaiting (ws : list wstate) : option nat :=
  match ws with
  | [] => None
  | w :: ws' => if is_awaiting w then Some O else S <$> first_awaiting ws'
  end.

(** The worker whose call completes next: the one the schedule names if it
    is pending, else the first pending one. *)
Definition next_completion (sched : list nat) (ws : list wstate) : option nat :=
  match sched with
  | i :: _ =>
    match ws !! i with
    | Some (Awaiting _ _) => Some i
    | _ => first_awaiting ws
    end
  | [] => first_awaiting ws
  end.

Fixpoint event_loop (fuel : nat) (sched : list nat) (ws : list wstate)
    (h : store) (tr : list event) : list wstate * store * list event :=
  match fuel with
  | O => (ws, h, tr)
  | S fuel' =>
    match next_completion sched ws with
    | None => (ws, h, tr)
    | Some i =>
      let '(ws, h, tr) := resume i ws h tr in
      event_loop fuel' (tail sched) ws h tr
    end
  end.

Fixpoint first_rejection (ws : list wstate) : option exn :=
  match ws with
  | [] => None
  | Rejected e :: _ => Some e
  | _ :: ws' => first_rejection ws'
  end.

End Executor.

(** The result of a batch call: the store and the events when every worker
    has settled, and what the caller gets. *)
Record batch_run := {
  final_store : store;
  events : list event;
  returned : outcome (list value)
}.

(** The common text of [generateImageBatch] (lines 393-423) and
    [generateImageGlmBatch] (lines 359-389).  [batchRequests] holds no
    array in the store when the argument is not an array. *)
Definition run_batch (E : Engine) (single : value -> value -> M value)
    (catch_rest : list (string * value))
    (h : store) (batchRequests : loc) (concurrency : Z) (sched : list nat)
  : batch_run :=
  match h !! batchRequests with
  | None | Some [] =>
    {| final_store := h; events := [];
       returned := Throw (Error msg_missing_requests) |}
  | Some jobs =>
    let results : loc := fresh (dom h) in            (* [const results = []] *)
    let h := <[results := []]> h in
    let queue : loc := fresh (dom h) in    (* [batchRequests.slice()] *)
    let h := <[queue := jobs]> h in
    (* [Math.min(concurrency, queue.length)]; a negative length counts as 0 *)
    let k := Z.to_nat (Z.min concurrency (Z.of_nat (length jobs))) in
    let '(ws, h) := spawn E queue results k h in
    let '(ws, h, tr) :=
      event_loop E single catch_rest queue results (length jobs) sched ws h [] in
    {| final_store := h; events := tr;
       returned :=                         (* [await Promise.all(workers)] *)
         match first_rejection ws with
         | Some e => Throw e
         | None => Ok (array_at h results)
         end |}
  end.

Section Batches.

Variable E : Engine.
Variable W : World.
Variable API_CONFIG : Config.

(** [generateImageBatch(batchRequests, concurrency, model, imageConfig)]. *)
Definition generateImageBatch (h : store) (batchRequests : loc)
    (concurrency : Z) (model : string) (imageConfig : option ImageConfig)
    (sched : list nat) : batch_run :=
  run_batch E
    (fun prompt saveToFilePath =>
       generateImage E W API_CONFIG prompt saveToFilePath model imageConfig)
    [] h batchRequests concurrency sched.

(** [generateImageGlmBatch(batchRequests, concurrency, size)]. *)
Definition generateImageGlmBatch (h : store) (batchRequests : loc)
    (concurrency : Z) (size : value) (sched : list nat) : batch_run :=
  run_batch E
    (fun prompt saveToFilePath =>
       generateImageGlm E W API_CONFIG prompt saveToFilePath size)
    [("model", VStr "glm-image")] h batchRequests concurrency sched.

End Batches.

(** ** What a batch owes for each job *)

Section Ledger.

Variable single : value -> value -> M value.
Variable catch_rest : list (string * value).

Local Abbreviation settle := (settle single catch_rest).

(** The record a batch pushes for one job, and the events it causes:
    a job without prompt gets the immediate failure and causes nothing. *)
Definition job_result (job : value) : list value :=
  match get job "prompt", get job "saveToFilePath" with
  | Some prompt, Some saveToFilePath =>
    if truthy prompt then [fst (settle prompt saveToFilePath)]
    else [missing_prompt_result prompt]
  | _, _ => []
  end.

Definition job_events (job : value) : list event :=
  match get job "prompt", get job "saveToFilePath" with
  | Some prompt, Some saveToFilePath =>
    if truthy prompt then snd (settle prompt saveToFilePath) else []
  | _, _ => []
  end.

Definition batch_results (jobs : list value) : list value :=
  jobs ≫= job_result.

Definition batch_events (jobs : list value) : list event :=
  jobs ≫= job_events.

(** The records and events still to come from the calls under [await]. *)
Definition pending_result (w : wstate) : list value :=
  match w with
  | Awaiting p s => [fst (settle p s)]
  | _ => []
  end.

Definition pending_events (w : wstate) : list event :=
  match w with
  | Awaiting p s => snd (settle p s)
  | _ => []
  end.

Definition is_rejected (w : wstate) : bool :=
  match w with
  | Rejected _ => true
  | _ => false
  end.

Definition is_finished (w : wstate) : bool :=
  match w with
  | Finished => true
  | _ => false
  end.

Definition is_nullish (v : value) : Prop := nullish v = true.

Definition pool_results (ws : list wstate) : list value :=
  ws ≫= pending_result.

Definition pool_events (ws : list wstate) : list event :=
  ws ≫= pending_events.

Variables queue results : loc.

(** Every record of the batch is in exactly one place: already pushed,
    owed by a pending call, or owed for a queued job.  Likewise for the
    events. *)
Definition ledger_results (ws : list wstate) (h : store) : list value :=
  array_at h results ++ pool_results ws ++ batch_results (array_at h queue).

Definition ledger_events (ws : list wstate) (h : store) (tr : list event)
  : list event :=
  tr ++ pool_events ws ++ batch_events (array_at h queue).

(** Jobs not yet settled. *)
Definition outstanding (ws : list wstate) (h : store) : nat :=
  (length (pool_results ws) + length (array_at h queue))%nat.

(** The invariant of a batch over the jobs [jobs], started in the store
    [h0]. *)
Definition batch_inv (h0 : store) (jobs : list value)
    (ws : list wstate) (h : store) (tr : list event) : Prop :=
  ledger_results ws h ≡ₚ batch_results jobs /\
  ledger_events ws h tr ≡ₚ batch_events jobs /\
  (Exists (fun w => is_finished w = true) ws -> array_at h queue = []) /\
  (Exists (fun w => is_rejected w = true) ws -> Exists is_nullish jobs) /\
  (forall j, j ∈ array_at h queue -> j ∈ jobs) /\
  (forall l, l ≠ queue -> l ≠ results -> h !! l = h0 !! l).

End Ledger.

(** ** Notions used to state the properties *)

(** [needle] occurs in [hay], character for character. *)
Definition occurs_in (needle hay : string) : Prop :=
  exists before after, hay = before +:+ needle +:+ after.

(** The reading of the specification: the identifier matches a family
    token when the token occurs in it with letter case ignored. *)
Fixpoint lowercase (s : string) : string :=
  match s with
  | EmptyString => EmptyString
  | String c r => String (JsString.lower c) (lowercase r)
  end.

Definition spec_matches_family (model : string) : bool :=
  (JsString.includes "gemini" (lowercase model)
   || JsString.includes "nano-banana" (lowercase model))%bool.

(** The property names of a record, in order. *)
Definition keys (v : value) : list string :=
  match v with
  | VObj fs => fs.*1
  | _ => []
  end.

Definition field (k : string) (v : value) : value :=
  match v with
  | VObj fs => lookup_field k fs
  | _ => VUndef
  end.

(** [jsonData.choices[0].message] when each step of the guard of the
    source holds. *)
Definition message_of (jsonData : value) : option value :=
  choices ← get jsonData "choices";
  if negb (truthy choices) then None else
  choice0 ← get0 choices;
  if negb (truthy choice0) then None else
  message ← get choice0 "message";
  if truthy message then Some message else None.

(** The URL of an entry of [message.images] that the source examines. *)
Definition entry_url (img : value) : option value :=
  ty ← get img "type";
  if is_str "image_url" ty then
    image_url ← get img "image_url";
    if truthy image_url then
      url ← get image_url "url";
      if truthy url then Some url else None
    else None
  else None.

(** The payload of an entry holding a valid base64 data-URL. *)
Definition entry_payload (img : value) : option string :=
  match entry_url img with
  | Some (VStr s) => Regex.match_dataurl_whole s
  | _ => None
  end.

(** An entry the loop can examine without a [TypeError]: it is not
    [null], and the URL it examines, if any, is a string. *)
Definition entry_well_formed (img : value) : Prop :=
  nullish img = false /\
  forall url, entry_url img = Some url -> exists s, url = VStr s.

(** [data.data[0].url] of a GLM response, if the path exists. *)
Definition data0_url (data : value) : option value :=
  items ← get data "data";
  first ← get0 items;
  get first "url".

Definition has_data0_url (data : value) : bool :=
  match data0_url data with
  | Some url => truthy url
  | None => false
  end.

(** The frames of an event stream, in the words of the specification:
    the newline-delimited records that are prefixed as data frames, minus
    the termination sentinels, each parsed on its own (a record that does
    not parse yields nothing). *)
Definition is_data_record (line : string) : bool :=
  JsString.startsWith "data:" (JsString.trim line).

Definition record_payload (line : string) : string :=
  JsString.remove_first "data: " line.

Definition is_sentinel (payload : string) : bool :=
  if decide (JsString.trim payload = "[DONE]") then true else false.

Definition spec_frames (E : Engine) (text : string) : list value :=
  omap (JSON_parse E)
    (filter (fun p => is_sentinel p = false)
       (record_payload <$>
          filter (fun l => is_data_record l = true)
            (JsString.split_lines text))).

(** What one frame does to the state; a [TypeError] inside it ends the
    frame. *)
Definition apply_frame (E : Engine) (st : rstate) (frame : value) : rstate :=
  fst (frame_body E frame st).

(** [choices[0].delta.content] of a frame. *)
Definition delta_content (frame : value) : option value :=
  choices ← get frame "choices";
  choice ← get0 choices;
  delta ← get choice "delta";
  get delta "content".

(** An image part [{ type: 'image', inline_data: { data } }]. *)
Definition inline_image_part (data : string) : value :=
  VObj [("type", VStr "image");
        ("inline_data", VObj [("mime_type", VStr "image/png");
                              ("data", VStr data)])].

(** Every normal end of the computation satisfies [P]. *)
Definition returns_only {A} (P : A -> Prop) (m : M A) : Prop :=
  forall t a, m = (t, Ok a) -> P a.

Definition success_shape (rest : list string) (r : value) : Prop :=
  keys r = ["success"; "message"; "filePath"] ++ rest /\
  field "success" r = VBool true.

Definition failure_shape (rest : list string) (r : value) : Prop :=
  keys r = ["success"; "error"] ++ rest /\
  field "success" r = VBool false.


(** A text part [{ type: 'text', text }]. *)
Definition text_part (s : string) : value :=
  VObj [("type", VStr "text"); ("text", VStr s)].

(** A stream frame whose only choice carries [parts] as the content of its
    delta. *)
Definition delta_frame (parts : list value) : value :=
  VObj [("choices", VArr [VObj [("delta", VObj [("content", VArr parts)])]])].

Definition concat_text (l : list string) : string :=
  foldr String.append EmptyString l.

(** ** A concrete runtime and world for the examples *)

Module Sample.

(** [JSON.stringify] of a value without [undefined] and without characters
    that need escaping. *)
Definition quote (s : string) : string :=
  String (JsString.chr 34) (s +:+ String (JsString.chr 34) EmptyString).

Fixpoint join (sep : string) (l : list string) : string :=
  match l with
  | [] => EmptyString
  | [s] => s
  | s :: l' => s +:+ sep +:+ join sep l'
  end.

Fixpoint stringify (v : value) : string :=
  match v with
  | VUndef | VNull => "null"
  | VBool true => "true"
  | VBool false => "false"
  | VNum n => pretty n
  | VStr s => quote s
  | VArr l => "[" +:+ join "," (stringify <$> l) +:+ "]"
  | VObj fs =>
    "{" +:+ join "," ((fun kv => quote kv.1 +:+ ":" +:+ stringify kv.2) <$> fs)
    +:+ "}"
  end.

Definition b64_value (c : ascii) : option N :=
  let n := JsString.code c in
  if (N.leb 65 n && N.leb n 90)%bool then Some (n - 65)%N
  else if (N.leb 97 n && N.leb n 122)%bool then Some (n - 71)%N
  else if (N.leb 48 n && N.leb n 57)%bool then Some (n + 4)%N
  else if N.eqb n 43 then Some 62%N
  else if N.eqb n 47 then Some 63%N
  else None.

Fixpoint sextets (s : string) : list N :=
  match s with
  | EmptyString => []
  | String c r =>
    match b64_value c with
    | Some v => v :: sextets r
    | None => sextets r
    end
  end.

Definition byte_of (n : N) : Byte.byte :=
  default Byte.x00 (Byte.of_N (n mod 256)).

Fixpoint octets (vs : list N) : bytes :=
  match vs with
  | a :: b :: c :: d :: rest =>
    let w := (a * 262144 + b * 4096 + c * 64 + d)%N in
    byte_of (w / 65536) :: byte_of (w / 256) :: byte_of w :: octets rest
  | [a; b; c] =>
    let w := (a * 262144 + b * 4096 + c * 64)%N in
    [byte_of (w / 65536); byte_of (w / 256)]
  | [a; b] => [byte_of ((a * 262144 + b * 4096) / 65536)]
  | _ => []
  end.

(** Base64 decoding as [Buffer.from] does it on a well-formed text. *)
Definition base64_decode (s : string) : bytes := octets (sextets s).

Definition b64_char (v : N) : ascii :=
  JsString.chr
    (if N.ltb v 26 then v + 65
     else if N.ltb v 52 then v + 71
     else if N.ltb v 62 then v - 4
     else if N.eqb v 62 then 43 else 47)%N.

Fixpoint letters (bs : list N) : string :=
  match bs with
  | a :: b :: c :: rest =>
    let w := (a * 65536 + b * 256 + c)%N in
    String (b64_char (w / 262144))
      (String (b64_char (w / 4096 mod 64))
         (String (b64_char (w / 64 mod 64))
            (String (b64_char (w mod 64)) (letters rest))))
  | [a; b] =>
    let w := (a * 65536 + b * 256)%N in
    String (b64_char (w / 262144))
      (String (b64_char (w / 4096 mod 64))
         (String (b64_char (w / 64 mod 64)) "="))
  | [a] =>
    let w := (a * 65536)%N in
    String (b64_char (w / 262144)) (String (b64_char (w / 4096 mod 64)) "==")
  | [] => EmptyString
  end.

(** [buffer.toString('base64')]. *)
Definition base64_encode (bs : bytes) : string := letters (Byte.to_N <$> bs).

Definition TypeError (msg : string) : exn :=
  {| ename := "TypeError"; emessage := msg |}.

(** A runtime that parses exactly the documents listed in [docs]. *)
Definition engine (docs : list value) : Engine :=
  {| JSON_parse := fun s =>
       list_find (fun v => stringify v = s) docs ≫= fun iv => Some iv.2;
     SyntaxError_of := fun _ =>
       {| ename := "SyntaxError"; emessage := "Unexpected token in JSON" |};
     TypeError_read := fun k =>
       TypeError ("Cannot read properties of null (reading '" +:+ k +:+ "')");
     ToString := fun v =>
       match v with
       | VUndef => Ok "undefined"
       | VNull => Ok "null"
       | VBool true => Ok "true"
       | VBool false => Ok "false"
       | VNum n => Ok (pretty n)
       | VStr s => Ok s
       | VArr _ => Ok EmptyString
       | VObj _ => Ok "[object Object]"
       end;
     Buffer_from_base64 := fun v =>
       match v with
       | VStr s => Ok (base64_decode s)
       | _ => Throw (TypeError "The first argument must be of type string")
       end;
     Buffer_to_base64 := base64_encode |}.

Definition reply (body : string) : Response :=
  {| ok := true; status := 200; text := body; buffer := [] |}.

(** A world whose chat and GLM endpoints answer [answer], whose images
    are fetched by [get], and whose file system accepts everything. *)
Definition world (answer : Response) (get : value -> outcome Response)
  : World :=
  {| fetch_post := fun _ _ _ => Ok answer;
     fetch_get := get;
     fs_readFile := fun _ => Ok [];
     fs_access := fun _ => true;
     fs_mkdir := fun _ => Ok tt;
     fs_writeFile := fun _ _ => Ok tt;
     default_path := fun dir kind _ ext =>
       Ok (dir +:+ "/" +:+ kind +:+ "." +:+ ext) |}.

Definition unreachable (url : value) : outcome Response :=
  Throw {| ename := "FetchError"; emessage := "request failed" |}.

(** [API_CONFIG] with no environment variable set. *)
Definition config : Config :=
  {| apiKey := EmptyString;
     modelNanoBanana := "google/gemini-3-pro-image-preview";
     modelSeedream := "bytedance-seed/seedream-4.5";
     modelGlmImage := "glm-image";
     zhipuApiKey := EmptyString;
     zhipuApiBase := "https://open.bigmodel.cn/api/paas/v4";
     chatApiUrl := "https://openrouter.ai/api/v1/chat/completions";
     outputDir := "generated-images";
     projectDir := "/srv/project" |}.

(** [{ choices: [{ message }] }]. *)
Definition chat_response (message : value) : value :=
  VObj [("choices", VArr [VObj [("message", message)]])].

(** An entry of [message.images]. *)
Definition image_item (url : string) : value :=
  VObj [("type", VStr "image_url"); ("image_url", VObj [("url", VStr url)])].

(** Two images in one answer: "AAA" first, "BBB" second. *)
Definition two_images : value :=
  chat_response
    (VObj [("role", VStr "assistant"); ("content", VStr EmptyString);
           ("images", VArr [image_item "data:image/png;base64,QUFB";
                            image_item "data:image/png;base64,QkJC"])]).

(** A textual answer that holds a bare image URL and a data-URL. *)
Definition url_and_data_url : value :=
  chat_response
    (VObj [("role", VStr "assistant");
           ("content",
            VStr "see https://cdn.example.com/cat.png or data:image/png;base64,QUJD")]).

(** A refusal: explanatory text only. *)
Definition refusal : value :=
  chat_response
    (VObj [("role", VStr "assistant");
           ("content", VStr "I cannot draw this. Please rephrase the request.")]).

(** An event stream of one data frame and the sentinel. *)
Definition image_frame : value :=
  delta_frame [text_part "here it is"; inline_image_part "QUJD"].

Definition event_stream : string :=
  "event: message" +:+ String JsString.LF
    ("data: " +:+ stringify image_frame +:+ String JsString.LF
       (String JsString.LF ("data: [DONE]" +:+ String JsString.LF EmptyString))).

(** The same stream from a server that puts no space after the field
    name, as the event-stream format allows. *)
Definition event_stream_no_space : string :=
  "data:" +:+ stringify image_frame +:+ String JsString.LF
    (String JsString.LF ("data:[DONE]" +:+ String JsString.LF EmptyString)).

Definition stream_engine : Engine := engine [image_frame].

(** A job [{ prompt, saveToFilePath }] and a job without prompt. *)
Definition job (prompt path : string) : value :=
  VObj [("prompt", VStr prompt); ("saveToFilePath", VStr path)].

Definition job_without_prompt : value :=
  VObj [("saveToFilePath", VStr "out/none.png")].

(** The caller's array is the only array of the store. *)
Definition store_with (jobs : list value) : store := {[ 1%positive := jobs ]}.

Definition seven_jobs : list value :=
  [job "a" "out/1.png"; job "b" "out/2.png"; job "c" "out/3.png";
   job_without_prompt;
   job "e" "out/5.png"; job "f" "out/6.png"; job "g" "out/7.png"].

(** A provider that only ever refuses. *)
Definition refusing_engine : Engine := engine [refusal].

Definition refusing_world : World :=
  world (reply (stringify refusal)) unreachable.

Definition two_images_engine : Engine := engine [two_images].

Definition two_images_world : World :=
  world (reply (stringify two_images)) unreachable.

Definition mixed_text_engine : Engine := engine [url_and_data_url].

Definition mixed_text_world : World :=
  world (reply (stringify url_and_data_url)) unreachable.

Definition mixed_text : string :=
  "see https://cdn.example.com/cat.png or data:image/png;base64,QUJD".

Definition bytes_AAA : bytes := [Byte.x41; Byte.x41; Byte.x41].
Definition bytes_BBB : bytes := [Byte.x42; Byte.x42; Byte.x42].
Definition bytes_ABC : bytes := [Byte.x41; Byte.x42; Byte.x43].

End Sample.

(** ** The configuration read from the environment *)

(** [s.endsWith(suffix)]: the last [suffix.length] characters of [s] are
    [suffix]. *)
Definition endsWith (suffix s : string) : bool :=
  let n := String.length suffix in
  let m := String.length s in
  (Nat.leb n m && bool_decide (JsString.drop (m - n) s = suffix))%bool.

(** [process.env.X || d]: an unset or empty variable gives the default. *)
Definition env_or (env : gmap string string) (x d : string) : string :=
  match env !! x with
  | Some v => if decide (v = EmptyString) then d else v
  | None => d
  end.

Definition default_chat_url : string :=
  "https://openrouter.ai/api/v1/chat/completions".

(** The [chatApiUrl] property of [API_CONFIG] (lines 41-45). *)
Definition chat_url (env : gmap string string) : string :=
  match env !! "GEMINI_API_BASE" with
  | Some base =>
    if decide (base = EmptyString) then default_chat_url
    else if endsWith "/v1" base then base +:+ "/chat/completions"
    else base +:+ "/v1/chat/completions"
  | None => default_chat_url
  end.

(** [API_CONFIG] (lines 27-50) for the environment [env];
    [generated_images] is [path.join(__dirname, 'generated-images')] and
    [cwd] is [process.cwd()]. *)
Definition API_CONFIG_from (env : gmap string string)
    (generated_images cwd : string) : Config :=
  {| apiKey := env_or env "GEMINI_API_KEY" EmptyString;
     modelNanoBanana :=
       env_or env "GEMINI_MODEL" "google/gemini-3-pro-image-preview";
     modelSeedream := "bytedance-seed/seedream-4.5";
     modelGlmImage := "glm-image";
     zhipuApiKey := env_or env "ZHIPU_API_KEY" EmptyString;
     zhipuApiBase := "https://open.bigmodel.cn/api/paas/v4";
     chatApiUrl := chat_url env;
     outputDir := env_or env "OUTPUT_DIR" generated_images;
     projectDir := env_or env "PROJECT_DIR" cwd |}.

(** ** The tool-call handler (lines 1053-1274)

    The handler is given [request.params.name], a string, and
    [request.params.arguments].  What it returns is
    [{ content: [{ type: 'text', text: JSON.stringify(payload, null, 2) }] }],
    with [isError: true] added by the [catch] block; the embedding keeps
    the value that is serialised. *)

Record ToolResponse := { payload : value; isError : bool }.

(** A parameter declared [= null]: [undefined] takes the default. *)
Definition or_null (v : value) : value :=
  match v with
  | VUndef => VNull
  | _ => v
  end.

(** [v || d]. *)
Definition value_or (d v : value) : value := if truthy v then v else d.

(** [!v || !Array.isArray(v) || v.length === 0] does not hold. *)
Definition is_nonempty_array (v : value) : bool :=
  match v with
  | VArr (_ :: _) => true
  | _ => false
  end.

(** [new Error('缺少必需的参数: ...')]. *)
Definition missing_argument (what : string) : exn :=
  Error ("缺少必需的参数: " +:+ what).

(** [new Error(`未知的工具: ${name}`)]. *)
Definition unknown_tool (name : string) : exn :=
  Error ("未知的工具: " +:+ name).

(** The [image_config] built by the tools,
    [{ image_size: image_size || '2K' }] with [aspect_ratio] added when it
    is truthy.  [ImageConfig] carries strings: the result is [None] for an
    argument that is truthy and not a string, which the input schema of
    the tools rules out. *)
Definition tool_image_config (image_size aspect_ratio : value)
  : option ImageConfig :=
  size ← (if truthy image_size
          then match image_size with VStr s => Some s | _ => None end
          else Some "2K");
  ratio ← (if truthy aspect_ratio
           then match aspect_ratio with VStr s => Some (Some s) | _ => None end
           else Some None);
  Some {| aspect_ratio := ratio; image_size := Some size |}.

(** [concurrency || 3]; [None] for an argument that is truthy and not a
    number, which the input schema rules out.  Numbers are carried as
    integers: a [concurrency] with a fractional part is not covered (the
    source truncates the pool size, so that a value between 0 and 1 starts
    no worker). *)
Definition tool_concurrency (concurrency : value) : option Z :=
  if truthy concurrency
  then match concurrency with VNum n => Some n | _ => None end
  else Some 3.

(** The arguments have the types that the input schemas of the tools
    declare: [image_size] and [aspect_ratio] are strings, [concurrency] is
    a number; a falsy argument counts as not given. *)
Definition string_or_falsy (v : value) : bool :=
  match v with
  | VStr _ => true
  | _ => negb (truthy v)
  end.

Definition number_or_falsy (v : value) : bool :=
  match v with
  | VNum _ => true
  | _ => negb (truthy v)
  end.

Definition args_in_schema (args : value) : bool :=
  (string_or_falsy (field "image_size" args)
   && string_or_falsy (field "aspect_ratio" args)
   && number_or_falsy (field "concurrency" args))%bool.

(** The array [requests] of the arguments is the only array of the store
    in which the batch runs. *)
Definition requests_loc : loc := 1%positive.

Definition requests_store (jobs : list value) : store :=
  {[ requests_loc := jobs ]}.

(** [await batch(...)]: the events of the batch, then its result or its
    rejection. *)
Definition await_batch (r : batch_run) : M (list value) :=
  (events r, returned r).

(** [results.every(r => r.success)]: it stops at the first falsy
    [success]. *)
Fixpoint every_success (E : Engine) (results : list value) : outcome bool :=
  match results with
  | [] => Ok true
  | r :: rest =>
    match get r "success" with
    | None => Throw (TypeError_read E "success")
    | Some s => if truthy s then every_success E rest else Ok false
    end
  end.

(** The tools announced by the handler of [ListToolsRequestSchema]
    (lines 803-1050), in the order of the source: the name of each tool
    and the arguments that its input schema declares as required. *)
Definition listed_tools : list (string * list string) :=
  [("generate_image_nano", ["prompt"]);
   ("generate_image_seedream", ["prompt"]);
   ("edit_image_nano", ["imagePath"; "editPrompt"]);
   ("edit_image_seedream", ["imagePath"; "editPrompt"]);
   ("generate_image_glm", ["prompt"]);
   ("generate_image_glm_batch", ["requests"]);
   ("generate_image_batch", ["requests"]);
   ("images_to_pdf", ["imagePaths"; "outputPath"]);
   ("images_to_pptx", ["imagePaths"; "outputPath"])].

Section Tools.

Variable E : Engine.
Variable W : World.
Variable API_CONFIG : Config.

(** [imagesToPdf(imagePaths, outputPath)] and
    [imagesToPptx(imagePaths, outputPath)], which the handler only calls. *)
Variables imagesToPdf imagesToPptx : value -> value -> M value.

(** [const { first, ... } = args]: it throws when [args] is [undefined]
    or [null]. *)
Definition destructuring (args : value) (first : string)
    (k : option (M value)) : option (M value) :=
  if nullish args then Some (throw (TypeError_read E first)) else k.

(** [{ success: results.every(r => r.success), results }]. *)
Definition batch_payload (results : list value) : M value :=
  all ← lift (every_success E results);
  mret (VObj [("success", VBool all); ("results", VArr results)]).

(** The [case] of a tool that generates one image from [prompt]. *)
Definition generate_case (args : value)
    (call : value -> value -> option (M value)) : option (M value) :=
  destructuring args "prompt"
    (let prompt := field "prompt" args in
     if negb (truthy prompt) then Some (throw (missing_argument "prompt"))
     else call prompt (or_null (field "saveToFilePath" args))).

(** The [case] of a tool that edits the image at [imagePath]. *)
Definition edit_case (args : value)
    (call : value -> value -> value -> option (M value)) : option (M value) :=
  destructuring args "imagePath"
    (let imagePath := field "imagePath" args in
     let editPrompt := field "editPrompt" args in
     if (negb (truthy imagePath) || negb (truthy editPrompt))%bool
     then Some (throw (missing_argument "imagePath 或 editPrompt"))
     else call imagePath editPrompt (or_null (field "saveToFilePath" args))).

(** The [case] of a batch tool. *)
Definition batch_case (args : value)
    (call : list value -> option batch_run) : option (M value) :=
  destructuring args "requests"
    (match field "requests" args with
     | VArr (job :: rest) =>
       run ← call (job :: rest);
       Some (results ← await_batch run; batch_payload results)
     | _ => Some (throw (missing_argument "requests (数组)"))
     end).

(** The [case] of a conversion tool. *)
Definition convert_case (args : value) (what : string)
    (convert : value -> value -> M value) : option (M value) :=
  destructuring args "imagePaths"
    (let imagePaths := field "imagePaths" args in
     let outputPath := field "outputPath" args in
     if negb (is_nonempty_array imagePaths)
     then Some (throw (missing_argument "imagePaths (图片路径数组)"))
     else if negb (truthy outputPath)
     then Some (throw (missing_argument ("outputPath (" +:+ what +:+ " 输出路径)")))
     else Some (convert imagePaths outputPath)).

(** The [switch] inside the [try] block; [sched] is the order in which the
    pending calls of a batch complete. *)
Definition tool_body (name : string) (args : value) (sched : list nat)
  : option (M value) :=
  if decide (name = "generate_image_nano") then
    generate_case args (fun prompt saveToFilePath =>
      imageConfig ← tool_image_config (field "image_size" args)
                                      (field "aspect_ratio" args);
      Some (generateImage E W API_CONFIG prompt saveToFilePath
              (modelNanoBanana API_CONFIG) (Some imageConfig)))
  else if decide (name = "generate_image_seedream") then
    generate_case args (fun prompt saveToFilePath =>
      Some (generateImage E W API_CONFIG prompt saveToFilePath
              (modelSeedream API_CONFIG) None))
  else if decide (name = "edit_image_nano") then
    edit_case args (fun imagePath editPrompt saveToFilePath =>
      imageConfig ← tool_image_config (field "image_size" args)
                                      (field "aspect_ratio" args);
      Some (editImage E W API_CONFIG imagePath editPrompt saveToFilePath
              (modelNanoBanana API_CONFIG) (Some imageConfig)))
  else if decide (name = "edit_image_seedream") then
    edit_case args (fun imagePath editPrompt saveToFilePath =>
      Some (editImage E W API_CONFIG imagePath editPrompt saveToFilePath
              (modelSeedream API_CONFIG) None))
  else if decide (name = "generate_image_batch") then
    batch_case args (fun jobs =>
      let selectedModel :=
        if is_str "seedream-4.5" (field "model" args)
        then modelSeedream API_CONFIG else modelNanoBanana API_CONFIG in
      imageConfig ←
        (if decide (selectedModel = modelNanoBanana API_CONFIG)
         then Some <$> tool_image_config (field "image_size" args)
                                         (field "aspect_ratio" args)
         else Some None);
      concurrency ← tool_concurrency (field "concurrency" args);
      Some (generateImageBatch E W API_CONFIG (requests_store jobs)
              requests_loc concurrency selectedModel imageConfig sched))
  else if decide (name = "generate_image_glm") then
    generate_case args (fun prompt saveToFilePath =>
      Some (generateImageGlm E W API_CONFIG prompt saveToFilePath
              (value_or (VStr "1280x1280") (field "size" args))))
  else if decide (name = "generate_image_glm_batch") then
    batch_case args (fun jobs =>
      concurrency ← tool_concurrency (field "concurrency" args);
      Some (generateImageGlmBatch E W API_CONFIG (requests_store jobs)
              requests_loc concurrency
              (value_or (VStr "1280x1280") (field "size" args)) sched))
  else if decide (name = "images_to_pdf") then
    convert_case args "PDF" imagesToPdf
  else if decide (name = "images_to_pptx") then
    convert_case args "PPTX" imagesToPptx
  else Some (throw (unknown_tool name)).

(** What the [catch] block of the handler returns. *)
Definition tool_error (name : string) (error : exn) : ToolResponse :=
  {| payload := VObj [("success", VBool false);
                      ("error", VStr (emessage error));
                      ("tool", VStr name)];
     isError := true |}.

(** The handler of [CallToolRequestSchema]; [None] when the arguments are
    outside what the embedding covers. *)
Definition callTool (name : string) (args : value) (sched : list nat)
  : option (M ToolResponse) :=
  body ← tool_body name args sched;
  Some (try_catch
          (result ← body; mret {| payload := result; isError := false |})
          (fun error => mret (tool_error name error))).

End Tools.

(** ** Further notions used to state the properties *)

(** The call touched a directory. *)
Definition is_directory_event (e : event) : bool :=
  match e with
  | EvAccess _ | EvMkdir _ => true
  | _ => false
  end.

(** The events [t] end with the successful write of a file under the name
    that the record [r] reports; it is the caller's name when one was
    given. *)
Definition saved_as (W : World) (saveToFilePath : value) (t : list event)
    (r : value) : Prop :=
  exists before data,
    t = before ++ [EvWriteFile (field "filePath" r) data] /\
    fs_writeFile W (field "filePath" r) data = Ok tt /\
    (truthy saveToFilePath = true -> field "filePath" r = saveToFilePath).

(** An entry of [message.images] that the loop can examine: it is not
    [null] or [undefined], and the URL it examines, if any, is a string.
    Any other entry makes the loop throw a [TypeError]. *)
Definition can_examine (img : value) : bool :=
  negb (nullish img) &&
  match entry_url img with
  | Some (VStr _) | None => true
  | Some _ => false
  end.

(** The entries that the loop examines: those that stand before the first
    entry that cannot be examined. *)
Fixpoint examined (imgs : list value) : list value :=
  match imgs with
  | [] => []
  | img :: rest => if can_examine img then img :: examined rest else []
  end.

(** [ic] is the configuration that the tools build from their arguments:
    [image_size] is the argument, or ['2K'] when it is falsy, and
    [aspect_ratio] is there exactly when the argument is truthy. *)
Definition is_tool_image_config (size ratio : value) (ic : ImageConfig)
  : Prop :=
  (truthy size = false -> image_size ic = Some "2K") /\
  (forall s, size = VStr s -> truthy size = true -> image_size ic = Some s) /\
  (truthy ratio = false -> aspect_ratio ic = None) /\
  (forall s, ratio = VStr s -> truthy ratio = true ->
             aspect_ratio ic = Some s).

(** No line of the text is taken for a data frame by the stream
    fallback. *)
Definition no_data_record (responseText : string) : Prop :=
  Forall (fun line => is_data_record line = false)
    (JsString.split_lines responseText).

(** The record [{ success: false, error: '缺少 prompt', prompt }], by its
    properties. *)
Definition is_missing_prompt_record (prompt r : value) : Prop :=
  keys r = ["success"; "error"; "prompt"] /\
  field "success" r = VBool false /\
  field "error" r = VStr "缺少 prompt" /\
  field "prompt" r = prompt.

(** [r] is the record that a batch owes for [job]: what the job function
    [single] returns when it is called with the prompt and the path of
    that job, or, for a job without prompt, the immediate failure. *)
Definition record_of_job (single : value -> value -> M value)
    (job r : value) : Prop :=
  if truthy (field "prompt" job)
  then exists t,
         single (field "prompt" job) (field "saveToFilePath" job) = (t, Ok r)
  else is_missing_prompt_record (field "prompt" job) r.

(** The events that a batch owes for [job]: those of the call of the job
    function, none for a job without prompt. *)
Definition events_of_job (single : value -> value -> M value)
    (job : value) : list event :=
  if truthy (field "prompt" job)
  then (single (field "prompt" job) (field "saveToFilePath" job)).1
  else [].

(** Fixtures for the examples that follow. *)
Module Fixture.

(** Three image entries, the second of which is [null]: "AAA", [null],
    "BBB". *)
Definition interrupted_message : value :=
  VObj [("role", VStr "assistant"); ("content", VStr EmptyString);
        ("images", VArr [Sample.image_item "data:image/png;base64,QUFB";
                         VNull;
                         Sample.image_item "data:image/png;base64,QkJC"])].

Definition interrupted_images : value :=
  Sample.chat_response interrupted_message.

Definition interrupted_engine : Engine := Sample.engine [interrupted_images].

Definition interrupted_world : World :=
  Sample.world (Sample.reply (Sample.stringify interrupted_images))
    Sample.unreachable.

Definition ENOENT : exn :=
  {| ename := "Error"; emessage := "ENOENT: no such file or directory" |}.

(** A world like [Sample.world] in which no file can be read. *)
Definition unreadable_world (answer : Response) : World :=
  {| fetch_post := fun _ _ _ => Ok answer;
     fetch_get := Sample.unreachable;
     fs_readFile := fun _ => Throw ENOENT;
     fs_access := fun _ => true;
     fs_mkdir := fun _ => Ok tt;
     fs_writeFile := fun _ _ => Ok tt;
     default_path := fun dir kind _ ext =>
       Ok (dir +:+ "/" +:+ kind +:+ "." +:+ ext) |}.

(** The answer of a provider that refuses the key. *)
Definition unauthorized : Response :=
  {| ok := false; status := 401; text := "invalid api key"; buffer := [] |}.

(** A converter that is not available. *)
Definition no_converter (imagePaths outputPath : value) : M value :=
  throw (Error "conversion is not available").

(** An answer in the native format: the content is an array of parts,
    one of them an inline image. *)
Definition inline_message : value :=
  VObj [("role", VStr "assistant");
        ("content", VArr [text_part "here "; inline_image_part "QUJD";
                          text_part "you are"])].

Definition inline_answer : value := Sample.chat_response inline_message.

Definition inline_engine : Engine := Sample.engine [inline_answer].

(** An answer of the GLM endpoint, and the image behind its URL. *)
Definition glm_answer : value :=
  VObj [("data", VArr [VObj [("url", VStr "https://cdn.example.com/cat.png")]])].

Definition glm_engine : Engine := Sample.engine [glm_answer].

Definition cat_image : Response :=
  {| ok := true; status := 200; text := EmptyString;
     buffer := Sample.bytes_ABC |}.

Definition glm_world : World :=
  Sample.world (Sample.reply (Sample.stringify glm_answer))
    (fun _ => Ok cat_image).

(** A textual answer that points to a JPEG by its URL. *)
Definition url_answer : value :=
  Sample.chat_response
    (VObj [("role", VStr "assistant");
           ("content", VStr "see https://cdn.example.com/cat.jpg")]).

Definition url_engine : Engine := Sample.engine [url_answer].

Definition url_world : World :=
  Sample.world (Sample.reply (Sample.stringify url_answer))
    (fun _ => Ok cat_image).

(** Arguments of the tools. *)
Definition cat_arguments : value :=
  VObj [("prompt", VStr "a cat"); ("saveToFilePath", VStr "out/cat.png")].

Definition two_requests : list value :=
  [Sample.job "a" "out/1.png"; Sample.job "b" "out/2.png"].

Definition batch_arguments (concurrency : value) : value :=
  VObj [("requests", VArr two_requests); ("concurrency", concurrency)].

(** A batch with a [null] between two jobs. *)
Definition jobs_with_null : list value :=
  [Sample.job "a" "out/1.png"; VNull; Sample.job "c" "out/3.png"].

End Fixture.

(** * Properties *)

(** ** The batch executor *)

Section ExecutorFacts.

Variable E : Engine.
Variable single : value -> value -> M value.
Variable catch_rest : list (string * value).
Variables queue results : loc.
Hypothesis queue_fresh : queue ≠ results.

Local Abbreviation settle := (settle single catch_rest).
Local Abbreviation run_worker := (run_worker E queue results).
Local Abbreviation enter_loop := (enter_loop E queue results).
Local Abbreviation spawn := (spawn E queue results).
Local Abbreviation resume := (resume E single catch_rest queue results).
Local Abbreviation event_loop := (event_loop E single catch_rest queue results).
Local Abbreviation batch_results := (batch_results single catch_rest).
Local Abbreviation batch_events := (batch_events single catch_rest).
Local Abbreviation pending_result := (pending_result single catch_rest).
Local Abbreviation pending_events := (pending_events single catch_rest).
Local Abbreviation job_result := (job_result single catch_rest).
Local Abbreviation job_events := (job_events single catch_rest).
Local Abbreviation pool_results := (pool_results single catch_rest).
Local Abbreviation pool_events := (pool_events single catch_rest).
Local Abbreviation ledger_results :=
  (ledger_results single catch_rest queue results).
Local Abbreviation ledger_events :=
  (ledger_events single catch_rest queue).
Local Abbreviation outstanding := (outstanding single catch_rest queue).
Local Abbreviation batch_inv := (batch_inv single catch_rest queue results).

Lemma array_at_insert_eq (h : store) l a : array_at (<[l := a]> h) l = a.
Proof. unfold array_at. by rewrite lookup_insert_eq. Qed.

Lemma array_at_insert_ne (h : store) l l' a :
  l ≠ l' -> array_at (<[l := a]> h) l' = array_at h l'.
Proof. intros. unfold array_at. by rewrite lookup_insert_ne. Qed.

Lemma array_at_push_eq (h : store) l v :
  array_at (push l v h) l = array_at h l ++ [v].
Proof. apply array_at_insert_eq. Qed.

Lemma array_at_push_ne (h : store) l l' v :
  l ≠ l' -> array_at (push l v h) l' = array_at h l'.
Proof. apply array_at_insert_ne. Qed.

Lemma batch_results_cons j q :
  batch_results (j :: q) = job_result j ++ batch_results q.
Proof. reflexivity. Qed.

Lemma batch_events_cons j q :
  batch_events (j :: q) = job_events j ++ batch_events q.
Proof. reflexivity. Qed.

Lemma get_prompt_some job p :
  get job "prompt" = Some p -> exists s, get job "saveToFilePath" = Some s.
Proof. destruct job; simpl; intros; try discriminate; eauto. Qed.

Lemma get_prompt_none job :
  get job "prompt" = None ->
  nullish job = true /\ get job "saveToFilePath" = None.
Proof. destruct job; simpl; intros; try discriminate; auto. Qed.

(** One synchronous stretch of a worker. *)
Lemma run_worker_spec q : forall h w h',
  run_worker q h = (w, h') ->
  array_at h queue = q ->
  exists q',
    array_at h' queue = q' /\
    array_at h' results ++ pending_result w ++ batch_results q'
      = array_at h results ++ batch_results q /\
    pending_events w ++ batch_events q' = batch_events q /\
    (is_finished w = true -> q' = []) /\
    (is_rejected w = true -> Exists is_nullish q) /\
    (length (pending_result w) + length q' <= length q)%nat /\
    (is_awaiting w = true -> length q' < length q)%nat /\
    (forall j, j ∈ q' -> j ∈ q) /\
    (forall l, l ≠ queue -> l ≠ results -> h' !! l = h !! l).
Proof.
  induction q as [|job rest IH]; intros h w h' Hrun Hq; simpl in Hrun.
  - inversion Hrun; subst. exists []. rewrite Hq. simpl.
    split_and!; auto; discriminate.
  - rewrite batch_results_cons, batch_events_cons.
    unfold job_result, job_events.
    destruct (get job "prompt") as [p|] eqn:Hp.
    + destruct (get_prompt_some _ _ Hp) as [s Hs]. rewrite Hs in *.
      destruct (truthy p) eqn:Ht; simpl in Hrun.
      * inversion Hrun; subst. exists rest.
        rewrite array_at_insert_eq, array_at_insert_ne by done. simpl.
        split_and!; auto; try discriminate; try lia.
        -- intros j Hj. by apply list_elem_of_further.
        -- intros l Hl _. by rewrite lookup_insert_ne.
      * apply IH in Hrun.
        2:{ rewrite array_at_push_ne, array_at_insert_eq; auto. }
        destruct Hrun as (q' & H1 & H2 & H3 & H4 & H5 & H6 & H7 & H8 & H9).
        exists q'. rewrite array_at_push_eq, array_at_insert_ne in H2 by done.
        split_and!.
        -- done.
        -- rewrite H2. by rewrite <- app_assoc.
        -- done.
        -- done.
        -- intros Hr. apply Exists_cons_tl. auto.
        -- simpl. lia.
        -- intros Ha. specialize (H7 Ha). simpl. lia.
        -- intros j Hj. apply list_elem_of_further. auto.
        -- intros l Hl Hl'. rewrite H9 by done. unfold push.
           rewrite !lookup_insert_ne; auto.
    + destruct (get_prompt_none _ Hp) as [Hn Hs].
      inversion Hrun; subst. exists rest. rewrite array_at_insert_eq.
      rewrite array_at_insert_ne by done.
      simpl. split_and!; auto; try discriminate; try lia.
      * intros j Hj. by apply list_elem_of_further.
      * intros l Hl _. by rewrite lookup_insert_ne.
Qed.

Lemma pool_results_app ws1 ws2 :
  pool_results (ws1 ++ ws2) = pool_results ws1 ++ pool_results ws2.
Proof. apply bind_app. Qed.

Lemma pool_events_app ws1 ws2 :
  pool_events (ws1 ++ ws2) = pool_events ws1 ++ pool_events ws2.
Proof. apply bind_app. Qed.

Lemma pool_results_cons w ws :
  pool_results (w :: ws) = pending_result w ++ pool_results ws.
Proof. reflexivity. Qed.

Lemma pool_events_cons w ws :
  pool_events (w :: ws) = pending_events w ++ pool_events ws.
Proof. reflexivity. Qed.

(** A worker that enters its loop while the others are parked at [ws1]
    and [ws2] keeps the invariant, and the number of unsettled jobs does
    not grow. *)
Lemma enter_loop_inv (h0 : store) jobs ws1 ws2 (h : store) tr w (h' : store) :
  enter_loop h = (w, h') ->
  batch_inv h0 jobs (ws1 ++ ws2) h tr ->
  batch_inv h0 jobs (ws1 ++ w :: ws2) h' tr /\
  (length (pending_result w) + length (array_at h' queue)
   <= length (array_at h queue))%nat.
Proof.
  intros Hrun (Hres & Hev & Hfin & Hrej & Hsub & Hframe).
  apply run_worker_spec in Hrun; [|done].
  destruct Hrun as (q' & H1 & H2 & H3 & H4 & H5 & H6 & H7 & H8 & H9).
  unfold batch_inv, ledger_results, ledger_events in *.
  rewrite H1. split_and!.
  - rewrite <- Hres. rewrite !pool_results_app, pool_results_cons.
    transitivity ((array_at h' results ++ pending_result w ++ batch_results q')
                  ++ pool_results ws1 ++ pool_results ws2);
      [solve_Permutation|].
    rewrite H2. solve_Permutation.
  - rewrite <- Hev.
    rewrite !pool_events_app, pool_events_cons.
    transitivity ((pending_events w ++ batch_events q')
                  ++ tr ++ pool_events ws1 ++ pool_events ws2);
      [solve_Permutation|].
    rewrite H3. solve_Permutation.
  - intros Hex. apply Exists_app in Hex.
    rewrite Exists_cons in Hex.
    destruct Hex as [Hex|[Hex|Hex]]; auto.
    + assert (Hq : array_at h queue = []).
      { apply Hfin, Exists_app. auto. }
      rewrite Hq in H6. destruct q'; simpl in H6; [done|lia].
    + assert (Hq : array_at h queue = []).
      { apply Hfin, Exists_app. auto. }
      rewrite Hq in H6. destruct q'; simpl in H6; [done|lia].
  - intros Hex. apply Exists_app in Hex.
    rewrite Exists_cons in Hex.
    destruct Hex as [Hex|[Hex|Hex]].
    + apply Hrej, Exists_app. auto.
    + apply H5 in Hex. apply Exists_exists in Hex.
      destruct Hex as (j & Hj & Hn). apply Exists_exists. eauto.
    + apply Hrej, Exists_app. auto.
  - auto.
  - intros l Hl Hl'. rewrite H9 by done. auto.
  - done.
Qed.

Lemma outstanding_middle ws1 w ws2 (h : store) :
  outstanding (ws1 ++ w :: ws2) h
  = (length (pending_result w) + outstanding (ws1 ++ ws2) h)%nat.
Proof.
  unfold outstanding. rewrite !pool_results_app, pool_results_cons.
  rewrite !length_app. lia.
Qed.

(** Starting the pool. *)
Lemma spawn_inv (h0 : store) jobs k : forall ws0 (h : store) tr ws (h' : store),
  spawn k h = (ws, h') ->
  batch_inv h0 jobs ws0 h tr ->
  batch_inv h0 jobs (ws0 ++ ws) h' tr /\
  (outstanding (ws0 ++ ws) h' <= outstanding ws0 h)%nat /\
  length ws = k.
Proof.
  induction k as [|k IH]; intros ws0 h tr ws h' Hsp Hinv; simpl in Hsp.
  - inversion Hsp; subst. rewrite app_nil_r. split_and!; auto.
  - destruct (enter_loop h) as [w h1] eqn:Hw.
    destruct (spawn k h1) as [ws1 h2] eqn:Hk.
    inversion Hsp; subst.
    destruct (enter_loop_inv h0 jobs ws0 [] h tr w h1 Hw) as [Hinv1 Hlen].
    { by rewrite app_nil_r. }
    destruct (IH (ws0 ++ [w]) h1 tr ws1 h' Hk Hinv1) as (Hinv2 & Hout & Hl).
    rewrite <- app_assoc in Hinv2, Hout. simpl in Hinv2, Hout.
    split_and!; [done| |simpl; lia].
    etransitivity; [exact Hout|].
    rewrite outstanding_middle, app_nil_r. unfold outstanding. lia.
Qed.

Lemma first_awaiting_some ws i :
  first_awaiting ws = Some i ->
  exists p s, ws !! i = Some (Awaiting p s).
Proof.
  revert i. induction ws as [|w ws IH]; intros i H; simpl in H; [done|].
  destruct w; simpl in H.
  - inversion H; subst. simpl. eauto.
  - destruct (first_awaiting ws) as [n|]; simpl in H; [|done].
    inversion H; subst. simpl. auto.
  - destruct (first_awaiting ws) as [n|]; simpl in H; [|done].
    inversion H; subst. simpl. auto.
Qed.

Lemma first_awaiting_none ws :
  first_awaiting ws = None -> Forall (fun w => is_awaiting w = false) ws.
Proof.
  induction ws as [|w ws IH]; intros H; simpl in H; [constructor|].
  destruct w; simpl in H; try discriminate;
    (destruct (first_awaiting ws); simpl in H; [discriminate|]);
    constructor; auto.
Qed.

Lemma next_completion_some sched ws i :
  next_completion sched ws = Some i ->
  exists p s, ws !! i = Some (Awaiting p s).
Proof.
  unfold next_completion. destruct sched as [|n sched].
  - apply first_awaiting_some.
  - destruct (ws !! n) as [[p s| |e]|] eqn:Hn;
      try apply first_awaiting_some.
    intros H. inversion H; subst. eauto.
Qed.

Lemma next_completion_none sched ws :
  next_completion sched ws = None ->
  Forall (fun w => is_awaiting w = false) ws.
Proof.
  unfold next_completion. destruct sched as [|n sched].
  - apply first_awaiting_none.
  - destruct (ws !! n) as [[p s| |e]|] eqn:Hn;
      try apply first_awaiting_none.
    discriminate.
Qed.

(** The completion of one awaited call. *)
Lemma resume_inv (h0 : store) jobs i ws (h : store) tr p s ws' (h' : store) tr' :
  ws !! i = Some (Awaiting p s) ->
  resume i ws h tr = (ws', h', tr') ->
  batch_inv h0 jobs ws h tr ->
  batch_inv h0 jobs ws' h' tr' /\
  (outstanding ws' h' < outstanding ws h)%nat /\
  length ws' = length ws.
Proof.
  intros Hi Hres Hinv. unfold resume in Hres. rewrite Hi in Hres.
  destruct (settle p s) as [r t] eqn:Hst.
  destruct (enter_loop (push results r h)) as [w h1] eqn:Hw.
  inversion Hres; subst. clear Hres.
  destruct (list_elem_of_split_length _ _ _ Hi) as (l1 & l2 & -> & ->).
  rewrite insert_app_r_alt, Nat.sub_diag by lia. simpl.
  assert (Hmid : batch_inv h0 jobs (l1 ++ l2) (push results r h) (tr ++ t)).
  { destruct Hinv as (Hr & Hev & Hfin & Hrej & Hsub & Hframe).
    unfold batch_inv, ledger_results, ledger_events in *.
    rewrite array_at_push_eq, array_at_push_ne by done.
    rewrite pool_results_app, pool_results_cons in Hr.
    rewrite pool_events_app, pool_events_cons in Hev.
    simpl in Hr, Hev. rewrite Hst in Hr, Hev. simpl in Hr, Hev.
    split_and!.
    - rewrite <- Hr, pool_results_app. solve_Permutation.
    - rewrite <- Hev, pool_events_app. solve_Permutation.
    - intros Hex. apply Hfin. apply Exists_app in Hex. apply Exists_app.
      destruct Hex as [?|?]; [by left|right; by apply Exists_cons_tl].
    - intros Hex. apply Hrej. apply Exists_app in Hex. apply Exists_app.
      destruct Hex as [?|?]; [by left|right; by apply Exists_cons_tl].
    - done.
    - intros l Hl Hl'. unfold push. rewrite lookup_insert_ne by done. auto. }
  destruct (enter_loop_inv h0 jobs l1 l2 _ _ w h' Hw Hmid) as [Hinv' Hlen].
  split_and!; auto.
  - rewrite !outstanding_middle.
    replace (length (pending_result (Awaiting p s))) with 1%nat
      by reflexivity.
    rewrite array_at_push_ne in Hlen by done.
    unfold outstanding. lia.
  - rewrite !length_app. simpl. lia.
Qed.

Lemma outstanding_zero ws (h : store) :
  outstanding ws h = 0%nat -> Forall (fun w => is_awaiting w = false) ws.
Proof.
  unfold outstanding. intros H.
  assert (Hp : pool_results ws = []).
  { destruct (pool_results ws); [done|simpl in H; lia]. }
  clear H. induction ws as [|w ws IH]; [constructor|].
  rewrite pool_results_cons in Hp. destruct w; simpl in Hp; try discriminate;
    constructor; auto.
Qed.

(** The event loop keeps the invariant and, with one unit of fuel per
    unsettled job, leaves no call pending. *)
Lemma event_loop_inv (h0 : store) jobs fuel :
  forall sched ws (h : store) tr ws' (h' : store) tr',
  event_loop fuel sched ws h tr = (ws', h', tr') ->
  batch_inv h0 jobs ws h tr ->
  (outstanding ws h <= fuel)%nat ->
  batch_inv h0 jobs ws' h' tr' /\
  Forall (fun w => is_awaiting w = false) ws' /\
  length ws' = length ws.
Proof.
  induction fuel as [|fuel IH]; intros sched ws h tr ws' h' tr' Hloop Hinv Hout;
    simpl in Hloop.
  - inversion Hloop; subst. split_and!; auto.
    apply (outstanding_zero _ h'). lia.
  - destruct (next_completion sched ws) as [i|] eqn:Hnext.
    + destruct (next_completion_some _ _ _ Hnext) as (p & s & Hi).
      destruct (resume i ws h tr) as [[ws1 h1] tr1] eqn:Hres.
      destruct (resume_inv h0 jobs _ _ _ _ _ _ _ _ _ Hi Hres Hinv)
        as (Hinv1 & Hlt & Hlen).
      destruct (IH _ _ _ _ _ _ _ Hloop Hinv1) as (Hinv2 & Hdone & Hlen2);
        [lia|].
      split_and!; auto. congruence.
    + inversion Hloop; subst. split_and!; auto.
      by apply next_completion_none in Hnext.
Qed.

Lemma first_rejection_none ws :
  Forall (fun w => is_rejected w = false) ws -> first_rejection ws = None.
Proof.
  induction 1 as [|w ws Hw _ IH]; [done|]. destruct w; simpl in *; auto.
  discriminate.
Qed.

Lemma settled_pool ws :
  Forall (fun w => is_awaiting w = false) ws ->
  pool_results ws = [] /\ pool_events ws = [].
Proof.
  induction 1 as [|w ws Hw _ [IH1 IH2]]; [done|].
  rewrite pool_results_cons, pool_events_cons, IH1, IH2.
  destruct w; simpl in *; auto. discriminate.
Qed.

End ExecutorFacts.

Section RunBatchFacts.

Variable E : Engine.
Variable single : value -> value -> M value.
Variable catch_rest : list (string * value).

Local Abbreviation run_batch := (run_batch E single catch_rest).
Local Abbreviation batch_results := (batch_results single catch_rest).
Local Abbreviation batch_events := (batch_events single catch_rest).

(** The state in which a batch over a non-empty array ends. *)
Lemma run_batch_end (h : store) batchRequests jobs concurrency sched :
  h !! batchRequests = Some jobs ->
  jobs ≠ [] ->
  exists (queue results : loc) ws,
    let r := run_batch h batchRequests concurrency sched in
    h !! queue = None /\ h !! results = None /\ queue ≠ results /\
    batch_inv single catch_rest queue results h jobs ws
      (final_store r) (events r) /\
    Forall (fun w => is_awaiting w = false) ws /\
    length ws = Z.to_nat (Z.min concurrency (Z.of_nat (length jobs))) /\
    returned r = match first_rejection ws with
                 | Some e => Throw e
                 | None => Ok (array_at (final_store r) results)
                 end.
Proof.
  intros Hjobs Hne. unfold run_batch. rewrite Hjobs.
  destruct jobs as [|j0 jobs0]; [done|]. set (jobs := j0 :: jobs0) in *.
  set (results := fresh (dom h) : loc).
  set (queue := fresh (dom (<[results := []]> h)) : loc).
  assert (Hr : h !! results = None).
  { apply not_elem_of_dom, is_fresh. }
  assert (Hq : <[results := []]> h !! queue = None).
  { apply not_elem_of_dom, is_fresh. }
  assert (Hqr : queue ≠ results).
  { intros Heq. rewrite Heq, lookup_insert_eq in Hq. discriminate. }
  rewrite lookup_insert_ne in Hq by done.
  set (h2 := <[queue := jobs]> (<[results := []]> h)).
  assert (Hinv0 : batch_inv single catch_rest queue results h jobs [] h2 []).
  { unfold batch_inv, ledger_results, ledger_events, h2.
    rewrite array_at_insert_eq, array_at_insert_ne, array_at_insert_eq by done.
    split_and!; auto.
    - intros Hex. inversion Hex.
    - intros Hex. inversion Hex.
    - intros l Hl Hl'. rewrite !lookup_insert_ne; auto. }
  assert (Hout0 : (outstanding single catch_rest queue [] h2
                   <= length jobs)%nat).
  { unfold outstanding, h2. rewrite array_at_insert_eq. simpl. lia. }
  destruct (spawn E queue results _ h2) as [ws0 h3] eqn:Hsp.
  destruct (spawn_inv E single catch_rest queue results Hqr h jobs _ [] h2 []
              ws0 h3 Hsp Hinv0) as (Hinv1 & Hout1 & Hlen1).
  simpl in Hinv1, Hout1.
  destruct (event_loop E single catch_rest queue results (length jobs) sched
              ws0 h3 []) as [[ws1 h4] tr] eqn:Hloop.
  destruct (event_loop_inv E single catch_rest queue results Hqr h jobs _ _ _
              _ _ _ _ _ Hloop Hinv1) as (Hinv2 & Hdone & Hlen2); [lia|].
  exists queue, results, ws1. simpl. split_and!; auto.
  rewrite Hlen2, Hlen1. reflexivity.
Qed.

(** Whatever happens, the arrays the caller already had are as before. *)
Lemma run_batch_frame (h : store) batchRequests concurrency sched l a :
  h !! l = Some a ->
  final_store (run_batch h batchRequests concurrency sched) !! l = Some a.
Proof.
  intros Hl.
  destruct (h !! batchRequests) as [jobs|] eqn:Hjobs.
  - destruct jobs as [|j0 jobs0] eqn:Hj.
    + unfold run_batch. by rewrite Hjobs.
    + rewrite <- Hj in *.
      destruct (run_batch_end h batchRequests jobs concurrency sched Hjobs)
        as (queue & results & ws & Hq & Hr & _ & Hinv & _); [by subst|].
      destruct Hinv as (_ & _ & _ & _ & _ & Hframe).
      rewrite Hframe; [done| |]; intros ->; congruence.
  - unfold run_batch. by rewrite Hjobs.
Qed.

(** With at least one worker and no [null] entry, the batch returns, and
    what it returns and what it did is, up to order, what each job owes. *)
Lemma run_batch_complete (h : store) batchRequests jobs concurrency sched :
  h !! batchRequests = Some jobs ->
  jobs ≠ [] ->
  Forall (fun j => nullish j = false) jobs ->
  1 <= concurrency ->
  exists res,
    returned (run_batch h batchRequests concurrency sched) = Ok res /\
    res ≡ₚ batch_results jobs /\
    events (run_batch h batchRequests concurrency sched) ≡ₚ batch_events jobs.
Proof.
  intros Hjobs Hne Hobj Hc.
  destruct (run_batch_end h batchRequests jobs concurrency sched Hjobs Hne)
    as (queue & results & ws & Hq & Hr & Hqr & Hinv & Hdone & Hlen & Hret).
  simpl in *.
  destruct Hinv as (Hres & Hev & Hfin & Hrej & _ & _).
  assert (Hnorej : Forall (fun w => is_rejected w = false) ws).
  { apply Forall_forall. intros w Hw.
    destruct (is_rejected w) eqn:Hrw; [|done].
    exfalso. assert (Hex : Exists is_nullish jobs).
    { apply Hrej, Exists_exists. eauto. }
    apply Exists_exists in Hex. destruct Hex as (j & Hj & Hn).
    rewrite Forall_forall in Hobj. specialize (Hobj j Hj).
    unfold is_nullish in Hn. congruence. }
  assert (Hempty : array_at
            (final_store (run_batch h batchRequests concurrency sched)) queue
            = []).
  { apply Hfin. destruct ws as [|w ws].
    - simpl in Hlen. destruct jobs; [done|]. simpl in Hlen. lia.
    - apply Exists_cons_hd.
      apply Forall_cons in Hdone as [Hw _]. apply Forall_cons in Hnorej as [Hw' _].
      destruct w; simpl in *; congruence. }
  destruct (settled_pool single catch_rest ws Hdone) as [Hp1 Hp2].
  unfold ledger_results, ledger_events in *.
  rewrite Hempty, Hp1 in Hres. rewrite Hempty, Hp2 in Hev.
  simpl in Hres, Hev. rewrite !app_nil_r in *.
  rewrite (first_rejection_none _ Hnorej) in Hret.
  eexists. split_and!; eauto.
Qed.

(** Without a worker nothing is done and an empty list is returned. *)
Lemma run_batch_no_worker (h : store) batchRequests jobs concurrency sched :
  h !! batchRequests = Some jobs ->
  jobs ≠ [] ->
  concurrency <= 0 ->
  returned (run_batch h batchRequests concurrency sched) = Ok [] /\
  events (run_batch h batchRequests concurrency sched) = [].
Proof.
  intros Hjobs Hne Hc. unfold run_batch. rewrite Hjobs.
  destruct jobs as [|j0 jobs0]; [done|].
  replace (Z.to_nat (Z.min concurrency (Z.of_nat (length (j0 :: jobs0)))))
    with 0%nat by lia.
  simpl. replace (next_completion sched []) with (@None nat)
    by (by destruct sched as [|[|?] ?]).
  simpl. rewrite array_at_insert_ne, array_at_insert_eq; [done|].
  intros Heq.
  pose proof (is_fresh (dom (<[fresh (dom h) := []]> h))) as Hf.
  rewrite Heq in Hf at 1. apply Hf, elem_of_dom.
  rewrite lookup_insert_eq. eauto.
Qed.

End RunBatchFacts.

(** ** Strings *)

Section StringFacts.
Import JsString.

Lemma startsWith_spec p : forall s,
  startsWith p s = true <-> exists t, s = p +:+ t.
Proof.
  induction p as [|a p IH]; intros s; simpl.
  - split; eauto.
  - destruct s as [|b s].
    + split; [discriminate|]. intros [t Ht]. discriminate.
    + destruct (decide (a = b)) as [->|Hne].
      * rewrite IH. split; intros [t Ht]; exists t.
        -- by subst.
        -- by injection Ht.
      * split; [discriminate|]. intros [t Ht]. injection Ht. congruence.
Qed.

Lemma includes_spec needle : forall hay,
  includes needle hay = true <-> occurs_in needle hay.
Proof.
  induction hay as [|c hay IH]; simpl.
  - rewrite orb_false_r, startsWith_spec. split.
    + intros [t Ht]. exists EmptyString, t. done.
    + intros (b & a & Hba). destruct b; simpl in Hba; [eauto|discriminate].
  - rewrite orb_true_iff, startsWith_spec, IH. split.
    + intros [[t Ht]|(b & a & Hba)].
      * exists EmptyString, t. done.
      * exists (String c b), a. by subst.
    + intros (b & a & Hba). destruct b as [|c' b]; simpl in Hba.
      * left. eauto.
      * right. exists b, a. by injection Hba.
Qed.

End StringFacts.

(** ** Request construction *)

Lemma chat_request_image_config model content imageConfig :
  is_Some (cb_image_config (chat_request model content imageConfig)) <->
  occurs_in "gemini" model \/ occurs_in "nano-banana" model.
Proof.
  unfold chat_request, is_gemini_model. simpl.
  rewrite <- !includes_spec.
  destruct (JsString.includes "gemini" model),
    (JsString.includes "nano-banana" model); simpl;
    split; intros H; eauto; try (destruct H as [? H]; discriminate);
    destruct H; discriminate.
Qed.

(** ** Property access *)

Lemma truthy_not_nullish v : truthy v = true -> nullish v = false.
Proof. by destruct v. Qed.

Lemma get_truthy v k : truthy v = true -> exists x, get v k = Some x.
Proof. destruct v; simpl; try discriminate; eauto. Qed.

Lemma get0_truthy v : truthy v = true -> exists x, get0 v = Some x.
Proof.
  destruct v as [| | | |s|l|fs]; simpl; try discriminate; eauto.
  - destruct s; eauto.
  - destruct l; eauto.
Qed.

(** ** The single-job functions *)

Section JobFacts.

Variable E : Engine.
Variable W : World.
Variable API_CONFIG : Config.

Local Abbreviation generateImage := (generateImage E W API_CONFIG).
Local Abbreviation generateImageGlm := (generateImageGlm E W API_CONFIG).
Local Abbreviation editImage := (editImage E W API_CONFIG).

Lemma try_catch_result {A} (m : M A) (h : exn -> A) :
  exists t, try_catch m (fun e => mret (h e)) =
            (t, Ok match m.2 with Ok a => a | Throw e => h e end) /\
            t = m.1.
Proof.
  destruct m as [t [a|e]]; simpl; eexists; split; eauto.
  by rewrite app_nil_r.
Qed.

Lemma bind_ok {A B} t (a : A) (f : A -> M B) :
  mbind f ((t, Ok a) : M A) = (t ++ (f a).1, (f a).2).
Proof. unfold mbind, M_bind, bind. by destruct (f a). Qed.

Lemma bind_throw {A B} t e (f : A -> M B) :
  mbind f ((t, Throw e) : M A) = (t, Throw e).
Proof. reflexivity. Qed.

Lemma bind_mret {A B} (a : A) (f : A -> M B) : mbind f (mret a) = f a.
Proof. unfold mbind, M_bind, bind, mret, M_ret, ret. by destruct (f a). Qed.

Lemma bind_mthrow {A B} e (f : A -> M B) : mbind f (throw e) = throw e.
Proof. reflexivity. Qed.

Lemma to_string_M_ok v s :
  to_string E v = Ok s -> to_string_M E v = ([], Ok s).
Proof. intros H. unfold to_string_M, lift. by rewrite H. Qed.

Lemma post_ok url auth body resp :
  fetch_post W url auth body = Ok resp ->
  post W url auth body = ([EvPost url auth body], Ok resp).
Proof. intros H. unfold post, emit, lift. rewrite bind_ok. simpl. by rewrite H. Qed.

Lemma returns_only_bind {A B} (P : B -> Prop) (m : M A) (f : A -> M B) :
  (forall a, returns_only P (f a)) -> returns_only P (mbind f m).
Proof.
  intros H t b. destruct m as [t0 [a|e]]; [|discriminate].
  rewrite bind_ok. intros Heq. inversion Heq as [[Ht Hb]].
  apply (H a (f a).1 b). by destruct (f a) as [? ?]; simpl in *; subst.
Qed.

Lemma returns_only_ret {A} (P : A -> Prop) (a : A) :
  P a -> returns_only P (mret a).
Proof. intros H t b Heq. inversion Heq. by subst. Qed.

Lemma returns_only_throw {A} (P : A -> Prop) e :
  returns_only P (throw e).
Proof. intros t b Heq. discriminate. Qed.

Ltac returns_only :=
  repeat first
    [ apply returns_only_bind; intros ?
    | apply returns_only_throw
    | apply returns_only_ret
    | match goal with
      | |- returns_only _ (if ?b then _ else _) => destruct b
      | |- returns_only _ (match ?o with Some _ => _ | None => _ end) =>
        destruct o
      end ].

(** The shape of what [generateImage] returns. *)
Lemma generateImage_shape prompt saveToFilePath model imageConfig :
  exists t r,
    generateImage prompt saveToFilePath model imageConfig = (t, Ok r) /\
    (success_shape ["prompt"] r \/ failure_shape ["prompt"] r) /\
    field "prompt" r = prompt /\ field "model" r = VUndef.
Proof.
  unfold generateImage.
  match goal with |- context [try_catch ?m _] => set (body := m) end.
  destruct (try_catch_result body
              (fun error => failure_result (emessage error) [("prompt", prompt)]))
    as (t & Heq & _).
  rewrite Heq. eexists _, _. split; [done|].
  destruct body as [t0 [r|e]] eqn:Hbody; simpl.
  - assert (Hr : returns_only
                   (fun r => success_shape ["prompt"] r /\
                             field "prompt" r = prompt /\
                             field "model" r = VUndef) body).
    { unfold body. returns_only. by repeat split. }
    destruct (Hr t0 r Hbody) as (? & ? & ?). auto.
  - split; [right; by split|by split].
Qed.

Lemma generateImageGlm_shape prompt saveToFilePath size :
  exists t r,
    generateImageGlm prompt saveToFilePath size = (t, Ok r) /\
    (success_shape ["prompt"; "model"] r \/
     failure_shape ["prompt"; "model"] r) /\
    field "prompt" r = prompt /\ field "model" r = VStr "glm-image".
Proof.
  unfold generateImageGlm.
  match goal with |- context [try_catch ?m _] => set (body := m) end.
  destruct (try_catch_result body
              (fun error => failure_result (emessage error)
                              [("prompt", prompt); ("model", VStr "glm-image")]))
    as (t & Heq & _).
  rewrite Heq. eexists _, _. split; [done|].
  destruct body as [t0 [r|e]] eqn:Hbody; simpl.
  - assert (Hr : returns_only
                   (fun r => success_shape ["prompt"; "model"] r /\
                             field "prompt" r = prompt /\
                             field "model" r = VStr "glm-image") body).
    { unfold body. returns_only. by repeat split. }
    destruct (Hr t0 r Hbody) as (? & ? & ?). auto.
  - split; [right; by split|by split].
Qed.

Lemma no_image_yet_inv st :
  no_image_yet st = true ->
  imageUrl st = None /\ truthy (imageBase64 st) = false.
Proof.
  unfold no_image_yet. destruct (imageUrl st); [discriminate|].
  destruct (truthy (imageBase64 st)); [discriminate|done].
Qed.

(** When nothing was extracted, [generateImage] reports it. *)
Lemma generateImage_no_image prompt saveToFilePath model imageConfig resp :
  fetch_post W (chatApiUrl API_CONFIG) (bearer (apiKey API_CONFIG))
    (ChatBody (generate_request prompt model imageConfig)) = Ok resp ->
  ok resp = true ->
  no_image_yet (extract_generate E (text resp)) = true ->
  generateImage prompt saveToFilePath model imageConfig =
    ([EvPost (chatApiUrl API_CONFIG) (bearer (apiKey API_CONFIG))
        (ChatBody (generate_request prompt model imageConfig))],
     Ok (failure_result msg_no_image [("prompt", prompt)])).
Proof.
  intros Hpost Hok Hno. unfold generateImage.
  rewrite (post_ok _ _ _ _ Hpost), bind_ok. rewrite Hok. simpl negb. cbv iota.
  destruct (no_image_yet_inv _ Hno) as [Hu Hb].
  unfold materialize. rewrite Hb, Hu. simpl. reflexivity.
Qed.

Lemma scan_text_nothing st :
  Regex.match_url (fullContent st) = None ->
  Regex.match_dataurl (fullContent st) = None ->
  scan_text st = st.
Proof. intros H1 H2. unfold scan_text. by rewrite H1, H2. Qed.

Lemma glm_image_url_missing data :
  has_data0_url data = false ->
  glm_image_url E data =
    throw (if nullish data then TypeError_read E "data"
           else Error msg_glm_no_url).
Proof.
  unfold has_data0_url, data0_url, glm_image_url.
  destruct (get data "data") as [items|] eqn:Hd.
  - assert (nullish data = false) as -> by (by destruct data).
    simpl. destruct (truthy items) eqn:Hi; simpl; [|done].
    destruct (get0 items) as [first|] eqn:H0;
      [|destruct (get0_truthy _ Hi) as [? ?]; congruence].
    simpl. destruct (truthy first) eqn:Hf; simpl; [|done].
    destruct (get first "url") as [url|] eqn:Hu;
      [|destruct (get_truthy _ "url" Hf) as [? ?]; congruence].
    simpl. intros ->. done.
  - assert (nullish data = true) as -> by (by destruct data). done.
Qed.

(** A GLM answer without [data[0].url] is a failure record. *)
Lemma generateImageGlm_no_url prompt shown saveToFilePath size resp data :
  to_string E prompt = Ok shown ->
  fetch_post W (zhipuApiBase API_CONFIG +:+ "/images/generations")
    (bearer (zhipuApiKey API_CONFIG))
    (GlmBody (glm_request API_CONFIG prompt size)) = Ok resp ->
  ok resp = true ->
  JSON_parse E (text resp) = Some data ->
  has_data0_url data = false ->
  generateImageGlm prompt saveToFilePath size =
    ([EvPost (zhipuApiBase API_CONFIG +:+ "/images/generations")
        (bearer (zhipuApiKey API_CONFIG))
        (GlmBody (glm_request API_CONFIG prompt size))],
     Ok (failure_result
           (if nullish data then emessage (TypeError_read E "data")
            else msg_glm_no_url)
           [("prompt", prompt); ("model", VStr "glm-image")])).
Proof.
  intros Hshown Hpost Hok Hparse Hno. unfold generateImageGlm.
  rewrite (to_string_M_ok _ _ Hshown), bind_ok.
  rewrite (post_ok _ _ _ _ Hpost), bind_ok. rewrite Hok. simpl negb. cbv iota.
  rewrite Hparse, bind_mret, (glm_image_url_missing _ Hno), bind_mthrow.
  simpl. by destruct (nullish data).
Qed.

End JobFacts.

(** ** The resolver *)

Section ResolverFacts.

Variable E : Engine.

Local Abbreviation structured := (structured E).
Local Abbreviation parse_generate := (parse_generate E).
Local Abbreviation parse_edit := (parse_edit E).
Local Abbreviation extract_generate := (extract_generate E).
Local Abbreviation extract_edit := (extract_edit E).

Lemma T_bind_some {A B} (m : T A) (f : A -> T B) st st' a :
  m st = (st', Some a) -> mbind f m st = f a st'.
Proof. intros H. unfold mbind, T_bind. by rewrite H. Qed.

Lemma T_bind_of_option {A B} (a : A) (f : A -> T B) st :
  mbind f (of_option (Some a)) st = f a st.
Proof. reflexivity. Qed.

Lemma match_dataurl_whole_nonempty s p :
  Regex.match_dataurl_whole s = Some p -> p ≠ EmptyString.
Proof.
  unfold Regex.match_dataurl_whole.
  destruct (Regex.dataurl_head s) as [[|c r]|]; try discriminate.
  destruct (Regex.has_line_terminator _); [discriminate|].
  intros H. inversion H. done.
Qed.

Lemma match_dataurl_nonempty : forall s p,
  Regex.match_dataurl s = Some p -> p ≠ EmptyString.
Proof.
  assert (Hat : forall s p, Regex.dataurl_at s = Some p -> p ≠ EmptyString).
  { intros s p. unfold Regex.dataurl_at.
    destruct (Regex.dataurl_head s); [|discriminate].
    destruct (Regex.span _ _); [discriminate|].
    intros H. inversion H. done. }
  induction s as [|c s IH]; intros p; simpl.
  - discriminate.
  - destruct (Regex.dataurl_at (String c s)) eqn:H0; [|by apply IH].
    intros H. inversion H; subst. eauto.
Qed.

Lemma truthy_VStr s : s ≠ EmptyString -> truthy (VStr s) = true.
Proof. intros H. simpl. by destruct (decide (s = EmptyString)). Qed.

(** One entry of [message.images]. *)
Lemma image_entry_spec img st :
  entry_well_formed img ->
  image_entry img st =
    (match entry_payload img with
     | Some p => set_imageBase64 (VStr p) st
     | None => st
     end, Some tt).
Proof.
  intros [Hn Hurl]. unfold image_entry, entry_payload.
  unfold entry_url in *.
  destruct (get img "type") as [ty|] eqn:Hty; [|by destruct img].
  rewrite T_bind_of_option. simpl in *.
  destruct (is_str "image_url" ty); [|done].
  destruct (get img "image_url") as [iu|] eqn:Hiu; [|by destruct img].
  rewrite T_bind_of_option. simpl in *.
  destruct (truthy iu) eqn:Hti; [|done].
  destruct (get_truthy _ "url" Hti) as [url Hu]. rewrite Hu in *.
  rewrite T_bind_of_option. simpl in *.
  destruct (truthy url) eqn:Htu; [|done].
  destruct (Hurl url eq_refl) as [s ->].
  destruct (Regex.match_dataurl_whole s); done.
Qed.

(** The loop over [message.images]: the last valid entry is kept. *)
Lemma images_loop_spec imgs : forall st,
  Forall entry_well_formed imgs ->
  for_of image_entry imgs st =
    (match last (omap entry_payload imgs) with
     | Some p => set_imageBase64 (VStr p) st
     | None => st
     end, Some tt).
Proof.
  unfold omap.
  induction imgs as [|img imgs IH]; intros st Hwf; [done|].
  apply Forall_cons in Hwf as [Hw Hwf].
  change (for_of image_entry (img :: imgs))
    with (mbind (fun _ : unit => for_of image_entry imgs) (image_entry img)).
  rewrite (T_bind_some _ _ _ _ _ (image_entry_spec img st Hw)).
  rewrite IH by done.
  change (list_omap value string entry_payload (img :: imgs))
    with (match entry_payload img with
          | Some y => y :: list_omap _ _ entry_payload imgs
          | None => list_omap _ _ entry_payload imgs
          end).
  destruct (entry_payload img) as [p|]; [|done].
  generalize (list_omap value string entry_payload imgs). intros ps.
  rewrite last_cons. destruct (last ps); reflexivity.
Qed.

(** The [try] block on a response whose image list holds a valid entry. *)
Lemma structured_images lg jsonData message imgs p st0 :
  message_of jsonData = Some message ->
  get message "images" = Some (VArr imgs) ->
  Forall entry_well_formed imgs ->
  last (omap entry_payload imgs) = Some p ->
  exists st,
    structured lg jsonData st0 = (st, Some tt) /\
    imageBase64 st = VStr p /\ imageUrl st = imageUrl st0.
Proof.
  intros Hmsg Himgs Hwf Hlast. unfold message_of in Hmsg.
  unfold structured.
  destruct (get jsonData "choices") as [choices|]; [|discriminate].
  rewrite T_bind_of_option. simpl in Hmsg.
  destruct (truthy choices); [|discriminate]. simpl in *.
  destruct (get0 choices) as [choice0|]; [|discriminate].
  rewrite T_bind_of_option. simpl in Hmsg.
  destruct (truthy choice0); [|discriminate]. simpl in *.
  destruct (get choice0 "message") as [m|]; [|discriminate].
  rewrite T_bind_of_option. simpl in Hmsg.
  destruct (truthy m) eqn:Hm; [|discriminate]. inversion Hmsg; subst m.
  simpl.
  destruct (get_truthy _ "content" Hm) as [mc Hmc]. rewrite Hmc.
  rewrite T_bind_of_option, Himgs, T_bind_of_option.
  rewrite (T_bind_some _ _ _ _ _ (images_loop_spec imgs st0 Hwf)).
  rewrite Hlast.
  assert (Ht : truthy (VStr p) = true).
  { apply truthy_VStr.
    apply last_Some_elem_of in Hlast. apply list_elem_of_omap in Hlast.
    destruct Hlast as (img & _ & Hp). unfold entry_payload in Hp.
    destruct (entry_url img) as [[]|]; try discriminate.
    by eapply match_dataurl_whole_nonempty. }
  unfold read. unfold mbind at 1, T_bind at 1.
  destruct mc; try (eexists; split_and!; reflexivity).
  change (imageBase64 (set_imageBase64 (VStr p) st0)) with (VStr p).
  rewrite Ht. simpl. eexists; split_and!; reflexivity.
Qed.

Lemma extract_generate_images text jsonData message imgs p :
  JSON_parse E text = Some jsonData ->
  message_of jsonData = Some message ->
  get message "images" = Some (VArr imgs) ->
  Forall entry_well_formed imgs ->
  last (omap entry_payload imgs) = Some p ->
  imageBase64 (extract_generate text) = VStr p /\
  p ≠ EmptyString.
Proof.
  intros Hparse Hmsg Himgs Hwf Hlast.
  destruct (structured_images LogMimeAndLength _ _ _ _ rstate0
              Hmsg Himgs Hwf Hlast) as (st & Hst & Hb & Hu).
  assert (Hp : parse_generate text = st).
  { unfold parse_generate. rewrite Hparse, T_bind_of_option.
    by rewrite Hst. }
  assert (Hne : p ≠ EmptyString).
  { apply last_Some_elem_of in Hlast. apply list_elem_of_omap in Hlast.
    destruct Hlast as (img & _ & Hp'). unfold entry_payload in Hp'.
    destruct (entry_url img) as [[]|]; try discriminate.
    by eapply match_dataurl_whole_nonempty. }
  unfold extract_generate, text_scan_generate, no_image_yet.
  rewrite Hp, Hu, Hb, (truthy_VStr _ Hne). simpl. by rewrite Hb.
Qed.

Lemma extract_edit_images text jsonData message imgs p :
  JSON_parse E text = Some jsonData ->
  message_of jsonData = Some message ->
  get message "images" = Some (VArr imgs) ->
  Forall entry_well_formed imgs ->
  last (omap entry_payload imgs) = Some p ->
  imageBase64 (extract_edit text) = VStr p.
Proof.
  intros Hparse Hmsg Himgs Hwf Hlast.
  destruct (structured_images LogNothing _ _ _ _ rstate0
              Hmsg Himgs Hwf Hlast) as (st & Hst & Hb & Hu).
  assert (Hp : parse_edit text = st).
  { unfold parse_edit. rewrite Hparse, T_bind_of_option.
    by rewrite Hst. }
  assert (Hne : p ≠ EmptyString).
  { apply last_Some_elem_of in Hlast. apply list_elem_of_omap in Hlast.
    destruct Hlast as (img & _ & Hp'). unfold entry_payload in Hp'.
    destruct (entry_url img) as [[]|]; try discriminate.
    by eapply match_dataurl_whole_nonempty. }
  unfold extract_edit, text_scan_edit, no_image_yet.
  rewrite Hp, Hu, Hb, (truthy_VStr _ Hne). simpl. by rewrite Hb.
Qed.

(** The stream fallback is the fold of [apply_frame] over the frames of
    the text. *)
Lemma stream_loop_refines lines : forall st,
  fst (for_of (fun line => swallow (stream_line E line))
         (filter (fun line => JsString.trim line ≠ EmptyString) lines) st)
  = fold_left (apply_frame E)
      (omap (JSON_parse E)
         (filter (fun p => is_sentinel p = false)
            (record_payload <$>
               filter (fun l => is_data_record l = true) lines))) st.
Proof.
  induction lines as [|line lines IH]; intros st; [done|].
  destruct (decide (JsString.trim line = EmptyString)) as [Hblank|Hline].
  - rewrite filter_cons_False by (intros H; by apply H).
    rewrite filter_cons_False; [apply IH|].
    unfold is_data_record. rewrite Hblank. discriminate.
  - rewrite filter_cons_True by done.
    change (for_of (fun line => swallow (stream_line E line)) (line :: ?l))
      with (mbind (fun _ : unit =>
                     for_of (fun line => swallow (stream_line E line)) l)
              (swallow (stream_line E line))).
    rewrite (T_bind_some _ _ st (fst (stream_line E line st)) tt)
      by reflexivity.
    rewrite IH. unfold stream_line.
    destruct (is_data_record line) eqn:Hdata; unfold is_data_record in Hdata;
      rewrite Hdata.
    + rewrite filter_cons_True by done. rewrite fmap_cons.
      fold (record_payload line).
      destruct (decide (JsString.trim (record_payload line) = "[DONE]"))
        as [Hdone|Hdone].
      * rewrite filter_cons_False; [done|].
        unfold is_sentinel. by rewrite decide_True.
      * rewrite filter_cons_True
          by (unfold is_sentinel; by rewrite decide_False).
        unfold omap. simpl list_omap. fold (@omap list _).
        destruct (JSON_parse E (record_payload line)) as [data|]; [|done].
        rewrite T_bind_of_option. reflexivity.
    + rewrite filter_cons_False; [done|].
      unfold is_data_record. rewrite Hdata. discriminate.
Qed.

Lemma parse_generate_stream text :
  JSON_parse E text = None ->
  parse_generate text = fold_left (apply_frame E) (spec_frames E text) rstate0.
Proof.
  intros Hparse. unfold parse_generate. rewrite Hparse.
  unfold mbind, T_bind, of_option, raise.
  unfold stream_fallback, stream_lines, spec_frames.
  apply stream_loop_refines.
Qed.

Lemma append_empty_r s : s +:+ EmptyString = s.
Proof.
  induction s as [|c s IH]; [done|].
  change (String c s +:+ EmptyString) with (String c (s +:+ EmptyString)).
  by rewrite IH.
Qed.

Lemma append_assoc s1 s2 s3 : (s1 +:+ s2) +:+ s3 = s1 +:+ (s2 +:+ s3).
Proof.
  induction s1 as [|c s1 IH]; [done|].
  change (String c ((s1 +:+ s2) +:+ s3) = String c (s1 +:+ (s2 +:+ s3))).
  by rewrite IH.
Qed.

Lemma content_part_text lg s st :
  content_part E lg (text_part s) st =
    (set_fullContent (fullContent st +:+ s) st, Some tt).
Proof.
  unfold content_part, text_part. simpl get. rewrite T_bind_of_option.
  simpl. unfold mbind at 1, T_bind at 1, mret, T_ret.
  unfold truthy. destruct (decide (s = EmptyString)) as [->|Hs]; simpl;
    reflexivity.
Qed.

Lemma text_parts_loop lg texts : forall st,
  for_of (content_part E lg) (text_part <$> texts) st =
    (set_fullContent (fullContent st +:+ concat_text texts) st, Some tt).
Proof.
  induction texts as [|s texts IH]; intros st; simpl.
  - rewrite append_empty_r. by destruct st.
  - rewrite (T_bind_some _ _ _ _ _ (content_part_text lg s st)).
    rewrite IH. simpl. by rewrite append_assoc.
Qed.

Lemma content_part_inline_image d st :
  content_part E LogLength (inline_image_part d) st =
    (set_imageBase64 (VStr d) st, Some tt).
Proof. reflexivity. Qed.

Lemma for_of_app {A} (f : A -> T unit) l1 l2 st st1 :
  for_of f l1 st = (st1, Some tt) ->
  for_of f (l1 ++ l2) st = for_of f l2 st1.
Proof.
  revert st. induction l1 as [|x l1 IH]; intros st H; simpl in *.
  - by inversion H.
  - unfold mbind, T_bind in *. destruct (f x st) as [st' [[]|]]; [|discriminate].
    by apply IH.
Qed.

Lemma concat_text_app l1 l2 :
  concat_text (l1 ++ l2) = concat_text l1 +:+ concat_text l2.
Proof.
  induction l1 as [|s l1 IH]; [done|].
  change (s +:+ concat_text (l1 ++ l2) = (s +:+ concat_text l1) +:+ concat_text l2).
  by rewrite IH, append_assoc.
Qed.

Lemma frame_body_delta parts st :
  frame_body E (delta_frame parts) st =
    match for_of (content_part E LogLength) parts st with
    | (st', Some _) => (st', Some tt)
    | (st', None) => (st', None)
    end.
Proof.
  unfold frame_body, delta_frame.
  cbv -[for_of content_part].
  destruct (for_of (content_part E LogLength) parts st) as [st' [[]|]]; done.
Qed.

(** A frame whose delta holds text parts and one inline image. *)
Lemma apply_delta_frame before d after st :
  apply_frame E st
    (delta_frame ((text_part <$> before) ++
                  inline_image_part d :: (text_part <$> after)))
  = {| imageUrl := imageUrl st;
       fullContent := fullContent st +:+ concat_text (before ++ after);
       imageBase64 := VStr d |}.
Proof.
  unfold apply_frame. rewrite frame_body_delta.
  erewrite for_of_app by apply text_parts_loop.
  change (for_of ?f (?x :: ?l)) with (mbind (fun _ : unit => for_of f l) (f x)).
  erewrite T_bind_some by apply content_part_inline_image.
  rewrite text_parts_loop, concat_text_app, <- append_assoc.
  reflexivity.
Qed.

End ResolverFacts.

(** ** Entries of [message.images] that cannot be examined *)

Section ExaminedFacts.

Variable E : Engine.

Lemma can_examine_well_formed img :
  can_examine img = true -> entry_well_formed img.
Proof.
  unfold can_examine, entry_well_formed. intros H.
  apply andb_true_iff in H as [Hn Hu]. apply negb_true_iff in Hn.
  split; [done|]. intros url Hurl. rewrite Hurl in Hu.
  destruct url; try discriminate. eauto.
Qed.

Lemma well_formed_can_examine img :
  entry_well_formed img -> can_examine img = true.
Proof.
  unfold can_examine. intros [Hn Hurl]. rewrite Hn. simpl.
  destruct (entry_url img) as [url|]; [|done].
  by destruct (Hurl url eq_refl) as [s ->].
Qed.

Lemma examined_all imgs :
  Forall entry_well_formed imgs -> examined imgs = imgs.
Proof.
  induction 1 as [|img imgs Hw _ IH]; [done|]. simpl.
  by rewrite (well_formed_can_examine _ Hw), IH.
Qed.

(** An entry that cannot be examined throws, and nothing was assigned. *)
Lemma image_entry_raises img st :
  can_examine img = false -> image_entry img st = (st, None).
Proof.
  unfold can_examine, entry_url, image_entry. intros H.
  destruct (get img "type") as [ty|] eqn:Hty; [|done].
  assert (Hn : nullish img = false) by (by destruct img).
  rewrite Hn in H. simpl in H. rewrite T_bind_of_option.
  destruct (is_str "image_url" ty); [|discriminate].
  destruct (get img "image_url") as [iu|] eqn:Hiu; [|by destruct img].
  rewrite T_bind_of_option. simpl in H.
  destruct (truthy iu) eqn:Hti; [|discriminate].
  destruct (get_truthy _ "url" Hti) as [url Hu]. rewrite Hu in *.
  rewrite T_bind_of_option. simpl in H.
  destruct (truthy url) eqn:Htu; [|discriminate].
  by destruct url.
Qed.

(** The loop over [message.images]: the last valid entry among those
    examined is kept; the loop completes when every entry can be
    examined. *)
Lemma images_loop_examined imgs : forall st,
  exists r,
    for_of image_entry imgs st =
      (match last (omap entry_payload (examined imgs)) with
       | Some p => set_imageBase64 (VStr p) st
       | None => st
       end, r) /\
    (examined imgs = imgs -> r = Some tt).
Proof.
  induction imgs as [|img imgs IH]; intros st.
  - exists (Some tt). by split.
  - change (for_of image_entry (img :: imgs))
      with (mbind (fun _ : unit => for_of image_entry imgs) (image_entry img)).
    simpl examined. destruct (can_examine img) eqn:Hc.
    + pose proof (can_examine_well_formed _ Hc) as Hw.
      rewrite (T_bind_some _ _ _ _ _ (image_entry_spec img st Hw)).
      destruct (IH (match entry_payload img with
                    | Some p => set_imageBase64 (VStr p) st
                    | None => st
                    end)) as (r & Hloop & Hr).
      exists r. rewrite Hloop. split.
      * f_equal. unfold omap.
        change (list_omap value string entry_payload (img :: examined imgs))
          with (match entry_payload img with
                | Some y => y :: list_omap _ _ entry_payload (examined imgs)
                | None => list_omap _ _ entry_payload (examined imgs)
                end).
        destruct (entry_payload img) as [p|]; [|done].
        generalize (list_omap value string entry_payload (examined imgs)).
        intros ps. rewrite last_cons. destruct (last ps); reflexivity.
      * intros Heq. apply Hr. congruence.
    + exists None. split; [|discriminate].
      unfold mbind, T_bind. by rewrite (image_entry_raises _ _ Hc).
Qed.

Lemma examined_payload_nonempty imgs p :
  last (omap entry_payload (examined imgs)) = Some p -> p ≠ EmptyString.
Proof.
  intros Hlast.
  apply last_Some_elem_of in Hlast. apply list_elem_of_omap in Hlast.
  destruct Hlast as (img & _ & Hp). unfold entry_payload in Hp.
  destruct (entry_url img) as [[]|]; try discriminate.
  by eapply match_dataurl_whole_nonempty.
Qed.

(** The [try] block on a response whose image list holds a valid entry
    among those examined: the payload is kept whether or not the block
    completes. *)
Lemma structured_examined lg jsonData message imgs p st0 :
  message_of jsonData = Some message ->
  get message "images" = Some (VArr imgs) ->
  last (omap entry_payload (examined imgs)) = Some p ->
  exists st r,
    structured E lg jsonData st0 = (st, r) /\
    imageBase64 st = VStr p /\ imageUrl st = imageUrl st0 /\
    (examined imgs = imgs -> r = Some tt).
Proof.
  intros Hmsg Himgs Hlast. unfold message_of in Hmsg.
  unfold structured.
  destruct (get jsonData "choices") as [choices|]; [|discriminate].
  rewrite T_bind_of_option. simpl in Hmsg.
  destruct (truthy choices); [|discriminate]. simpl in *.
  destruct (get0 choices) as [choice0|]; [|discriminate].
  rewrite T_bind_of_option. simpl in Hmsg.
  destruct (truthy choice0); [|discriminate]. simpl in *.
  destruct (get choice0 "message") as [m|]; [|discriminate].
  rewrite T_bind_of_option. simpl in Hmsg.
  destruct (truthy m) eqn:Hm; [|discriminate]. inversion Hmsg; subst m.
  simpl.
  destruct (get_truthy _ "content" Hm) as [mc Hmc]. rewrite Hmc.
  rewrite T_bind_of_option, Himgs, T_bind_of_option.
  destruct (images_loop_examined imgs st0) as (r & Hloop & Hr).
  rewrite Hlast in Hloop.
  pose proof (truthy_VStr _ (examined_payload_nonempty _ _ Hlast)) as Ht.
  destruct r as [[]|].
  - rewrite (T_bind_some _ _ _ _ _ Hloop).
    unfold read. unfold mbind at 1, T_bind at 1.
    destruct mc; try (eexists _, _; split_and!; reflexivity).
    change (imageBase64 (set_imageBase64 (VStr p) st0)) with (VStr p).
    rewrite Ht. simpl. eexists _, _; split_and!; reflexivity.
  - unfold mbind at 1, T_bind at 1. rewrite Hloop.
    eexists _, _. split_and!; [reflexivity..|].
    intros Heq. by specialize (Hr Heq).
Qed.

(** Without a data record the stream fallback changes nothing. *)
Lemma stream_fallback_no_record responseText st :
  no_data_record responseText ->
  fst (stream_fallback E responseText st) = st.
Proof.
  intros Hno. unfold stream_fallback, stream_lines.
  rewrite stream_loop_refines.
  assert (Hnone : filter (fun l => is_data_record l = true)
                    (JsString.split_lines responseText) = []).
  { induction Hno as [|l ls Hl _ IH]; [done|].
    rewrite filter_cons_False; [done|]. by rewrite Hl. }
  by rewrite Hnone.
Qed.

Lemma extract_edit_examined responseText jsonData message imgs p :
  JSON_parse E responseText = Some jsonData ->
  message_of jsonData = Some message ->
  get message "images" = Some (VArr imgs) ->
  last (omap entry_payload (examined imgs)) = Some p ->
  imageBase64 (extract_edit E responseText) = VStr p /\ p ≠ EmptyString.
Proof.
  intros Hparse Hmsg Himgs Hlast.
  destruct (structured_examined LogNothing _ _ _ _ rstate0 Hmsg Himgs Hlast)
    as (st & r & Hst & Hb & Hu & _).
  pose proof (examined_payload_nonempty _ _ Hlast) as Hne.
  split; [|done].
  assert (Hp : parse_edit E responseText = st).
  { unfold parse_edit. rewrite Hparse, T_bind_of_option. by rewrite Hst. }
  unfold extract_edit, text_scan_edit, no_image_yet.
  rewrite Hp, Hu, Hb, (truthy_VStr _ Hne). simpl. by rewrite Hb.
Qed.

Lemma extract_generate_examined responseText jsonData message imgs p :
  JSON_parse E responseText = Some jsonData ->
  message_of jsonData = Some message ->
  get message "images" = Some (VArr imgs) ->
  last (omap entry_payload (examined imgs)) = Some p ->
  examined imgs = imgs \/ no_data_record responseText ->
  imageBase64 (extract_generate E responseText) = VStr p /\ p ≠ EmptyString.
Proof.
  intros Hparse Hmsg Himgs Hlast Hcase.
  destruct (structured_examined LogMimeAndLength _ _ _ _ rstate0
              Hmsg Himgs Hlast) as (st & r & Hst & Hb & Hu & Hr).
  pose proof (examined_payload_nonempty _ _ Hlast) as Hne.
  split; [|done].
  assert (Hp : parse_generate E responseText = st).
  { unfold parse_generate. rewrite Hparse, T_bind_of_option, Hst.
    destruct r as [[]|]; [done|].
    destruct Hcase as [Hall|Hno]; [by specialize (Hr Hall)|].
    by apply stream_fallback_no_record. }
  unfold extract_generate, text_scan_generate, no_image_yet.
  rewrite Hp, Hu, Hb, (truthy_VStr _ Hne). simpl. by rewrite Hb.
Qed.

End ExaminedFacts.

(** ** What a batch owes, stated on the job function *)

Section OwedFacts.

Variable single : value -> value -> M value.
Variable catch_rest : list (string * value).
Hypothesis single_returns : forall p s, exists t r, single p s = (t, Ok r).

Lemma get_field job k :
  nullish job = false -> get job k = Some (field k job).
Proof. by destruct job. Qed.

Lemma job_result_owed job :
  nullish job = false ->
  exists r,
    job_result single catch_rest job = [r] /\ record_of_job single job r.
Proof.
  intros Hn. unfold job_result, record_of_job.
  rewrite !get_field by done.
  destruct (truthy (field "prompt" job)).
  - destruct (single_returns (field "prompt" job)
                (field "saveToFilePath" job)) as (t & r & Hr).
    exists r. unfold settle. rewrite Hr. eauto.
  - eexists. split; [reflexivity|]. by repeat split.
Qed.

Lemma job_events_owed job :
  nullish job = false ->
  job_events single catch_rest job = events_of_job single job.
Proof.
  intros Hn. unfold job_events, events_of_job.
  rewrite !get_field by done.
  destruct (truthy (field "prompt" job)); [|done].
  unfold settle.
  by destruct (single (field "prompt" job) (field "saveToFilePath" job))
    as [t [r|e]].
Qed.

(** The ledger of a batch is what the jobs owe. *)
Lemma batch_results_owed jobs :
  Forall (fun j => nullish j = false) jobs ->
  Forall2 (record_of_job single) jobs (batch_results single catch_rest jobs).
Proof.
  induction 1 as [|job jobs Hn _ IH]; [constructor|].
  change (batch_results single catch_rest (job :: jobs))
    with (job_result single catch_rest job
          ++ batch_results single catch_rest jobs).
  destruct (job_result_owed job Hn) as (r & -> & Hr).
  by constructor.
Qed.

Lemma batch_events_owed jobs :
  Forall (fun j => nullish j = false) jobs ->
  batch_events single catch_rest jobs = jobs ≫= events_of_job single.
Proof.
  induction 1 as [|job jobs Hn _ IH]; [done|].
  change (batch_events single catch_rest (job :: jobs))
    with (job_events single catch_rest job
          ++ batch_events single catch_rest jobs).
  rewrite (job_events_owed job Hn), IH. reflexivity.
Qed.

End OwedFacts.

(** The job functions always return a record. *)
Section JobsReturn.

Variable E : Engine.
Variable W : World.
Variable API_CONFIG : Config.

Lemma generateImage_returns model imageConfig prompt saveToFilePath :
  exists t r,
    generateImage E W API_CONFIG prompt saveToFilePath model imageConfig
    = (t, Ok r).
Proof.
  destruct (generateImage_shape E W API_CONFIG prompt saveToFilePath model
              imageConfig) as (t & r & Hr & _).
  eauto.
Qed.

Lemma generateImageGlm_returns size prompt saveToFilePath :
  exists t r,
    generateImageGlm E W API_CONFIG prompt saveToFilePath size = (t, Ok r).
Proof.
  destruct (generateImageGlm_shape E W API_CONFIG prompt saveToFilePath size)
    as (t & r & Hr & _).
  eauto.
Qed.

End JobsReturn.

(** * The claims *)

Section Claims.

Variable E : Engine.
Variable W : World.
Variable API_CONFIG : Config.

Local Abbreviation generateImage := (generateImage E W API_CONFIG).
Local Abbreviation generateImageGlm := (generateImageGlm E W API_CONFIG).
Local Abbreviation generateImageBatch := (generateImageBatch E W API_CONFIG).
Local Abbreviation generateImageGlmBatch :=
  (generateImageGlmBatch E W API_CONFIG).

(** The call under [await] in each of the two batch functions. *)
Local Abbreviation chat_job model imageConfig :=
  (fun prompt saveToFilePath : value =>
     generateImage prompt saveToFilePath model imageConfig).
Local Abbreviation glm_job size :=
  (fun prompt saveToFilePath : value =>
     generateImageGlm prompt saveToFilePath size).

Lemma batch_results_length single catch_rest jobs :
  Forall (fun j => nullish j = false) jobs ->
  length (batch_results single catch_rest jobs) = length jobs.
Proof.
  induction 1 as [|j jobs Hj _ IH]; [done|].
  change (batch_results single catch_rest (j :: jobs))
    with (job_result single catch_rest j ++ batch_results single catch_rest jobs).
  rewrite length_app, IH.
  unfold job_result. destruct j; simpl in *; try discriminate;
    try match goal with |- context [if ?b then _ else _] => destruct b end;
    done.
Qed.

(** With at least one worker, a batch over [n] objects returns [n]
    records. *)
Lemma run_batch_length single catch_rest (h : store) l jobs concurrency sched :
  h !! l = Some jobs ->
  jobs ≠ [] ->
  Forall (fun j => nullish j = false) jobs ->
  1 <= concurrency ->
  exists res,
    returned (run_batch E single catch_rest h l concurrency sched) = Ok res /\
    length res = length jobs.
Proof.
  intros Hl Hne Hobj Hc.
  destruct (run_batch_complete E single catch_rest h l jobs concurrency sched
              Hl Hne Hobj Hc) as (res & Hres & Hperm & _).
  exists res. split; [done|].
  by rewrite Hperm, batch_results_length.
Qed.

(** C1 (fails on the code).  The result list has the length of the job
    list only when the pool has a worker.  [Math.min(concurrency,
    queue.length)] is used as the pool size without a lower bound, so for
    every non-empty job list and every [concurrency <= 0] both
    [generateImageBatch] and [generateImageGlmBatch] return the empty
    list: every job is dropped. *)
Theorem batch_without_worker_drops_jobs
    (h : store) l jobs concurrency model imageConfig size sched :
  h !! l = Some jobs ->
  jobs ≠ [] ->
  concurrency <= 0 ->
  returned (generateImageBatch h l concurrency model imageConfig sched) = Ok []
  /\ returned (generateImageGlmBatch h l concurrency size sched) = Ok [].
Proof.
  intros Hl Hne Hc. split.
  - by apply (run_batch_no_worker E _ _ h l jobs).
  - by apply (run_batch_no_worker E _ _ h l jobs).
Qed.

(** C2 (as amended).  Neither single-job function throws.  A record of
    [generateImageGlm] is [{success: true, message, filePath, prompt,
    model}] or [{success: false, error, prompt, model}] with [model] equal
    to ['glm-image']; a record of [generateImage] is [{success: true,
    message, filePath, prompt}] or [{success: false, error, prompt}] and
    has no [model] property. *)
Theorem job_result_shapes prompt saveToFilePath model imageConfig size :
  (exists t r,
     generateImage prompt saveToFilePath model imageConfig = (t, Ok r) /\
     (success_shape ["prompt"] r \/ failure_shape ["prompt"] r) /\
     field "prompt" r = prompt /\ field "model" r = VUndef) /\
  (exists t r,
     generateImageGlm prompt saveToFilePath size = (t, Ok r) /\
     (success_shape ["prompt"; "model"] r \/
      failure_shape ["prompt"; "model"] r) /\
     field "prompt" r = prompt /\ field "model" r = VStr "glm-image").
Proof.
  split.
  - apply generateImage_shape.
  - apply generateImageGlm_shape.
Qed.

(** C3.  When the provider answers with status 2xx and no step finds an
    image (nothing captured from the JSON or from the stream frames, no
    image URL and no data-URL in the accumulated text), [generateImage]
    does not throw and does not write a file: after the one request it
    returns a record [{success: false, error, prompt}] whose [error] is
    the message of line 240, which tells the caller to adjust the
    prompt. *)
Theorem no_image_found_is_reported
    prompt saveToFilePath model imageConfig resp :
  fetch_post W (chatApiUrl API_CONFIG) (bearer (apiKey API_CONFIG))
    (ChatBody (generate_request prompt model imageConfig)) = Ok resp ->
  ok resp = true ->
  no_image_yet (parse_generate E (text resp)) = true ->
  Regex.match_url (fullContent (parse_generate E (text resp))) = None ->
  Regex.match_dataurl (fullContent (parse_generate E (text resp))) = None ->
  exists r,
    generateImage prompt saveToFilePath model imageConfig =
      ([EvPost (chatApiUrl API_CONFIG) (bearer (apiKey API_CONFIG))
          (ChatBody (generate_request prompt model imageConfig))],
       Ok r) /\
    keys r = ["success"; "error"; "prompt"] /\
    field "success" r = VBool false /\
    field "error" r
      = VStr "未在响应中找到图像URL或base64数据，可能需要调整提示词" /\
    field "prompt" r = prompt /\
    (exists message,
       field "error" r = VStr message /\
       JsString.includes "可能需要调整提示词" message = true).
Proof.
  intros Hpost Hok Hno Hurl Hdata.
  eexists. split.
  - apply (generateImage_no_image E W API_CONFIG _ _ _ _ resp); [done..|].
    unfold extract_generate, text_scan_generate. rewrite Hno.
    by rewrite scan_text_nothing.
  - split_and!; try reflexivity.
    eexists. split; reflexivity.
Qed.


(** C5 (as amended).  When the text scan is reached, both patterns are
    searched; a data-URL found in the text is decoded whether or not an
    image URL was found as well, and the URL is fetched only when the text
    holds no data-URL. *)
Theorem text_scan_prefers_data_url st :
  no_image_yet st = true ->
  materialize E W msg_no_image (text_scan_generate st) =
    match Regex.match_dataurl (fullContent st) with
    | Some payload => lift (Buffer_from_base64 E (VStr payload))
    | None =>
      match Regex.match_url (fullContent st) with
      | Some u => download W (VStr u)
      | None => throw (Error msg_no_image)
      end
    end /\
  materialize E W msg_no_image_edit (text_scan_edit st) =
    match Regex.match_dataurl (fullContent st) with
    | Some payload => lift (Buffer_from_base64 E (VStr payload))
    | None =>
      match Regex.match_url (fullContent st) with
      | Some u => download W (VStr u)
      | None => throw (Error msg_no_image_edit)
      end
    end.
Proof.
  intros Hno. destruct (no_image_yet_inv _ Hno) as [Hu Hb].
  assert (Hscan : forall msg,
    materialize E W msg (scan_text st) =
    match Regex.match_dataurl (fullContent st) with
    | Some payload => lift (Buffer_from_base64 E (VStr payload))
    | None =>
      match Regex.match_url (fullContent st) with
      | Some u => download W (VStr u)
      | None => throw (Error msg)
      end
    end).
  { intros msg. unfold materialize, scan_text.
    destruct (Regex.match_dataurl (fullContent st)) as [p|] eqn:Hd.
    - pose proof (match_dataurl_nonempty _ _ Hd) as Hne.
      destruct (Regex.match_url (fullContent st));
        cbn [imageBase64 set_imageBase64]; by rewrite (truthy_VStr _ Hne).
    - destruct (Regex.match_url (fullContent st));
        cbn [imageBase64 imageUrl set_imageUrl]; by rewrite Hb, ?Hu. }
  split.
  - unfold text_scan_generate. rewrite Hno. apply Hscan.
  - unfold text_scan_edit. rewrite Hno.
    destruct (decide (fullContent st = EmptyString)) as [Hfc|Hfc].
    + rewrite Hfc. simpl. unfold materialize. by rewrite Hb, Hu.
    + rewrite (truthy_VStr _ Hfc). apply Hscan.
Qed.

(** C6 (as amended).  The request body of a generation or of an edit
    carries [image_config] if and only if the model identifier contains
    ['gemini'] or ['nano-banana'] character for character: the match is
    case-sensitive. *)
Theorem image_config_iff_exact_token
    prompt editPrompt base64Image model imageConfig :
  (is_Some (cb_image_config (generate_request prompt model imageConfig)) <->
   occurs_in "gemini" model \/ occurs_in "nano-banana" model) /\
  (is_Some (cb_image_config
              (edit_request editPrompt base64Image model imageConfig)) <->
   occurs_in "gemini" model \/ occurs_in "nano-banana" model).
Proof. split; apply chat_request_image_config. Qed.

(** C7 (fails on the code).  In a batch of objects with a job whose
    prompt is missing or empty, that job has its entry only when the pool
    has a worker.  With [1 <= concurrency], under every completion order,
    the result list is, up to order, one record [{success: false, error:
    '缺少 prompt', prompt}] for that job next to one record for each other
    job, which is the record that the job function returns on the prompt
    and the path of that job (or the same immediate failure when that job
    has no prompt either); the events of the batch are those of the calls
    made for the other jobs, so the job without prompt causes none; and
    the list is as long as the job list.  With [concurrency <= 0] no
    worker starts: the batch returns the empty list without any event,
    and the job without prompt has no entry at all. *)
Theorem missing_prompt_fails_alone
    (h : store) l before bad after concurrency model imageConfig size sched :
  h !! l = Some (before ++ bad :: after) ->
  Forall (fun j => nullish j = false) (before ++ bad :: after) ->
  truthy (field "prompt" bad) = false ->
  (1 <= concurrency ->
   (exists res failure others,
      returned (generateImageBatch h l concurrency model imageConfig sched)
        = Ok res /\
      res ≡ₚ failure :: others /\
      is_missing_prompt_record (field "prompt" bad) failure /\
      Forall2 (record_of_job (chat_job model imageConfig))
        (before ++ after) others /\
      events (generateImageBatch h l concurrency model imageConfig sched)
        ≡ₚ (before ++ after) ≫= events_of_job (chat_job model imageConfig) /\
      length res = length (before ++ bad :: after)) /\
   (exists res failure others,
      returned (generateImageGlmBatch h l concurrency size sched) = Ok res /\
      res ≡ₚ failure :: others /\
      is_missing_prompt_record (field "prompt" bad) failure /\
      Forall2 (record_of_job (glm_job size)) (before ++ after) others /\
      events (generateImageGlmBatch h l concurrency size sched)
        ≡ₚ (before ++ after) ≫= events_of_job (glm_job size) /\
      length res = length (before ++ bad :: after))) /\
  (concurrency <= 0 ->
   (returned (generateImageBatch h l concurrency model imageConfig sched)
      = Ok [] /\
    events (generateImageBatch h l concurrency model imageConfig sched)
      = []) /\
   (returned (generateImageGlmBatch h l concurrency size sched) = Ok [] /\
    events (generateImageGlmBatch h l concurrency size sched) = [])).
Proof.
  intros Hl Hobj Hbad.
  assert (Hne : before ++ bad :: after ≠ []) by (by destruct before).
  assert (Hall : forall single rest,
    (forall p s, exists t r, single p s = (t, Ok r)) ->
    1 <= concurrency ->
    exists res failure others,
      returned (run_batch E single rest h l concurrency sched) = Ok res /\
      res ≡ₚ failure :: others /\
      is_missing_prompt_record (field "prompt" bad) failure /\
      Forall2 (record_of_job single) (before ++ after) others /\
      events (run_batch E single rest h l concurrency sched)
        ≡ₚ (before ++ after) ≫= events_of_job single /\
      length res = length (before ++ bad :: after)).
  { intros single rest Hsingle Hc.
    destruct (run_batch_complete E single rest h l _ concurrency sched
                Hl Hne Hobj Hc) as (res & Hr & Hp & He).
    pose proof (batch_results_owed single rest Hsingle _ Hobj) as Howed.
    rewrite (batch_events_owed single rest _ Hobj) in He.
    apply Forall2_app_inv_l in Howed as (k1 & k2 & Hk1 & Hk2 & Hk).
    apply Forall2_cons_inv_l in Hk2 as (failure & k3 & Hf & Hk3 & ->).
    exists res, failure, (k1 ++ k3). split_and!.
    - done.
    - rewrite Hp, Hk. solve_Permutation.
    - unfold record_of_job in Hf. by rewrite Hbad in Hf.
    - by apply Forall2_app.
    - rewrite He, !bind_app, bind_cons.
      unfold events_of_job at 2. by rewrite Hbad.
    - rewrite Hp. by apply batch_results_length. }
  split.
  - intros Hc. split.
    + apply Hall; [|done]. intros p s.
      destruct (generateImage_shape E W API_CONFIG p s model imageConfig)
        as (t & r & Hr & _). eauto.
    + apply Hall; [|done]. intros p s.
      destruct (generateImageGlm_shape E W API_CONFIG p s size)
        as (t & r & Hr & _). eauto.
  - intros Hc.
    split; by apply (run_batch_no_worker E _ _ h l (before ++ bad :: after)).
Qed.

(** When the response text is not a JSON document, the state reached by
    [generateImage] is the fold of the per-frame step over the frames the
    code reads from the text.  In particular, a stream whose one frame
    carries text parts and an inline image in its delta resolves to that
    image: its payload is what is decoded, and the text parts are
    accumulated. *)
Lemma stream_fallback_resolves_frames responseText :
  JSON_parse E responseText = None ->
  parse_generate E responseText
    = fold_left (apply_frame E) (spec_frames E responseText) rstate0 /\
  forall before data after,
    data ≠ EmptyString ->
    spec_frames E responseText
      = [delta_frame ((text_part <$> before) ++
                      inline_image_part data :: (text_part <$> after))] ->
    imageBase64 (extract_generate E responseText) = VStr data /\
    fullContent (extract_generate E responseText)
      = concat_text (before ++ after) /\
    materialize E W msg_no_image (extract_generate E responseText)
      = lift (Buffer_from_base64 E (VStr data)).
Proof.
  intros Hparse. pose proof (parse_generate_stream E _ Hparse) as Hfold.
  split; [done|]. intros before data after Hne Hframes.
  rewrite Hframes in Hfold. simpl in Hfold.
  rewrite apply_delta_frame in Hfold.
  change (imageUrl rstate0) with (@None string) in Hfold.
  change (fullContent rstate0 +:+ concat_text (before ++ after))
    with (concat_text (before ++ after)) in Hfold.
  assert (Hst : extract_generate E responseText = parse_generate E responseText).
  { unfold extract_generate, text_scan_generate, no_image_yet.
    rewrite Hfold. cbn [imageUrl imageBase64].
    by rewrite (truthy_VStr _ Hne). }
  rewrite Hst, Hfold. split_and!; [done..|].
  unfold materialize. cbn [imageBase64]. by rewrite (truthy_VStr _ Hne).
Qed.

(** C9.  The batch functions work on a copy: whatever the concurrency,
    the schedule and the jobs, the array the caller passed holds the same
    elements in the same order when all workers have settled. *)
Theorem batch_leaves_callers_array
    (h : store) l jobs concurrency model imageConfig size sched :
  h !! l = Some jobs ->
  final_store (generateImageBatch h l concurrency model imageConfig sched)
    !! l = Some jobs /\
  final_store (generateImageGlmBatch h l concurrency size sched)
    !! l = Some jobs.
Proof.
  intros Hl. split; by apply run_batch_frame.
Qed.


End Claims.

(** * The claims on concrete inputs *)

Section Examples.
Import Sample.

(** C1: one job, [concurrency = -1]: the batch returns no record. *)
Lemma batch_without_worker_drops_jobs_witness :
  store_with [job "a cat" "out/cat.png"] !! 1%positive
    = Some [job "a cat" "out/cat.png"] /\
  [job "a cat" "out/cat.png"] ≠ [] /\
  -1 <= 0 /\
  returned (generateImageBatch refusing_engine refusing_world config
              (store_with [job "a cat" "out/cat.png"]) 1%positive (-1)
              (modelNanoBanana config) None []) = Ok [] /\
  returned (generateImageGlmBatch refusing_engine refusing_world config
              (store_with [job "a cat" "out/cat.png"]) 1%positive (-1)
              (VStr "1280x1280") []) = Ok [].
Proof.
  split; [reflexivity|]. split; [discriminate|]. split; [lia|].
  apply (batch_without_worker_drops_jobs refusing_engine refusing_world config
           (store_with [job "a cat" "out/cat.png"]) 1%positive
           [job "a cat" "out/cat.png"] (-1)); [reflexivity|discriminate|lia].
Defined.

(** C2: the record of a successful [generateImage] has the properties
    [success], [message], [filePath], [prompt] and no [model]. *)
Lemma generateImage_record_has_no_model :
  (generateImage two_images_engine two_images_world config
     (VStr "a cat") (VStr "out/cat.png") (modelNanoBanana config) None).2
  = Ok (VObj [("success", VBool true);
              ("message", VStr "图像生成成功并保存到: out/cat.png");
              ("filePath", VStr "out/cat.png");
              ("prompt", VStr "a cat")]) /\
  field "model"
    (VObj [("success", VBool true);
           ("message", VStr "图像生成成功并保存到: out/cat.png");
           ("filePath", VStr "out/cat.png");
           ("prompt", VStr "a cat")]) = VUndef.
Proof. split; vm_compute; reflexivity. Qed.

(** C3: a refusal in plain text. *)
Lemma no_image_found_is_reported_witness :
  fetch_post refusing_world (chatApiUrl config) (bearer (apiKey config))
    (ChatBody (generate_request (VStr "a cat") (modelNanoBanana config) None))
    = Ok (reply (stringify refusal)) /\
  ok (reply (stringify refusal)) = true /\
  no_image_yet (parse_generate refusing_engine
                  (text (reply (stringify refusal)))) = true /\
  Regex.match_url
    (fullContent (parse_generate refusing_engine
                    (text (reply (stringify refusal))))) = None /\
  Regex.match_dataurl
    (fullContent (parse_generate refusing_engine
                    (text (reply (stringify refusal))))) = None /\
  exists r,
    generateImage refusing_engine refusing_world config
      (VStr "a cat") VUndef (modelNanoBanana config) None =
      ([EvPost (chatApiUrl config) (bearer (apiKey config))
          (ChatBody
             (generate_request (VStr "a cat") (modelNanoBanana config) None))],
       Ok r) /\
    keys r = ["success"; "error"; "prompt"] /\
    field "success" r = VBool false /\
    field "error" r
      = VStr "未在响应中找到图像URL或base64数据，可能需要调整提示词" /\
    field "prompt" r = VStr "a cat" /\
    (exists message,
       field "error" r = VStr message /\
       JsString.includes "可能需要调整提示词" message = true).
Proof.
  split; [reflexivity|]. split; [reflexivity|].
  split; [vm_compute; reflexivity|]. split; [vm_compute; reflexivity|].
  split; [vm_compute; reflexivity|].
  apply (no_image_found_is_reported refusing_engine refusing_world config
           (VStr "a cat") VUndef (modelNanoBanana config) None
           (reply (stringify refusal)));
    first [reflexivity | vm_compute; reflexivity].
Defined.


Lemma image_items_well_formed :
  Forall entry_well_formed
    [image_item "data:image/png;base64,QUFB";
     image_item "data:image/png;base64,QkJC"].
Proof.
  repeat constructor; intros url H; vm_compute in H; inversion H; eauto.
Defined.


(** C5: a text with an image URL followed by a data-URL: nothing is
    fetched, the data-URL is decoded. *)
Lemma data_url_beats_image_url :
  Regex.match_url mixed_text = Some "https://cdn.example.com/cat.png" /\
  Regex.match_dataurl mixed_text = Some "QUJD" /\
  fullContent (parse_generate mixed_text_engine (stringify url_and_data_url))
    = mixed_text /\
  no_image_yet (parse_generate mixed_text_engine (stringify url_and_data_url))
    = true /\
  generateImage mixed_text_engine mixed_text_world config
    (VStr "a cat") (VStr "out/cat.png") (modelSeedream config) None
  = ([EvPost (chatApiUrl config) (bearer (apiKey config))
        (ChatBody (generate_request (VStr "a cat") (modelSeedream config) None));
      EvWriteFile (VStr "out/cat.png") bytes_ABC],
     Ok (success_result "图像生成成功并保存到: out/cat.png" (VStr "out/cat.png")
           [("prompt", VStr "a cat")])) /\
  materialize mixed_text_engine mixed_text_world msg_no_image_edit
    (extract_edit mixed_text_engine (stringify url_and_data_url))
    = ([], Ok bytes_ABC).
Proof. repeat split; vm_compute; reflexivity. Qed.

Lemma text_scan_prefers_data_url_witness :
  no_image_yet (parse_generate mixed_text_engine (stringify url_and_data_url))
    = true /\
  materialize mixed_text_engine mixed_text_world msg_no_image
    (text_scan_generate
       (parse_generate mixed_text_engine (stringify url_and_data_url)))
    = lift (Buffer_from_base64 mixed_text_engine (VStr "QUJD")) /\
  materialize mixed_text_engine mixed_text_world msg_no_image_edit
    (text_scan_edit
       (parse_generate mixed_text_engine (stringify url_and_data_url)))
    = lift (Buffer_from_base64 mixed_text_engine (VStr "QUJD")).
Proof.
  split; [vm_compute; reflexivity|].
  exact (text_scan_prefers_data_url mixed_text_engine mixed_text_world
           (parse_generate mixed_text_engine (stringify url_and_data_url))
           eq_refl).
Defined.

(** C6: an identifier that contains GEMINI in capitals matches the family
    token when case is ignored, and gets no [image_config]. *)
Lemma uppercase_model_gets_no_image_config :
  spec_matches_family "google/GEMINI-3-pro-image-preview" = true /\
  cb_image_config
    (generate_request (VStr "a cat") "google/GEMINI-3-pro-image-preview" None)
    = None /\
  cb_image_config
    (edit_request (VStr "make it blue") "QUJD"
       "google/GEMINI-3-pro-image-preview" None)
    = None.
Proof. repeat split; vm_compute; reflexivity. Qed.

(** C7: seven jobs of which the fourth has no prompt, with three workers
    and with none. *)
Lemma missing_prompt_fails_alone_witness :
  store_with seven_jobs !! 1%positive
    = Some ([job "a" "out/1.png"; job "b" "out/2.png"; job "c" "out/3.png"]
            ++ job_without_prompt
               :: [job "e" "out/5.png"; job "f" "out/6.png";
                   job "g" "out/7.png"]) /\
  truthy (field "prompt" job_without_prompt) = false /\
  1 <= 3 /\ -1 <= 0 /\
  (exists res failure others,
     returned (generateImageBatch refusing_engine refusing_world config
                 (store_with seven_jobs) 1%positive 3 (modelNanoBanana config)
                 None [2; 0; 1]%nat) = Ok res /\
     res ≡ₚ failure :: others /\
     is_missing_prompt_record (field "prompt" job_without_prompt) failure /\
     Forall2
       (record_of_job
          (fun prompt saveToFilePath =>
             generateImage refusing_engine refusing_world config
               prompt saveToFilePath (modelNanoBanana config) None))
       ([job "a" "out/1.png"; job "b" "out/2.png"; job "c" "out/3.png"]
        ++ [job "e" "out/5.png"; job "f" "out/6.png"; job "g" "out/7.png"])
       others /\
     events (generateImageBatch refusing_engine refusing_world config
               (store_with seven_jobs) 1%positive 3 (modelNanoBanana config)
               None [2; 0; 1]%nat)
     ≡ₚ ([job "a" "out/1.png"; job "b" "out/2.png"; job "c" "out/3.png"]
         ++ [job "e" "out/5.png"; job "f" "out/6.png"; job "g" "out/7.png"])
        ≫= events_of_job
             (fun prompt saveToFilePath =>
                generateImage refusing_engine refusing_world config
                  prompt saveToFilePath (modelNanoBanana config) None) /\
     length res = 7%nat) /\
  (returned (generateImageBatch refusing_engine refusing_world config
               (store_with seven_jobs) 1%positive (-1)
               (modelNanoBanana config) None [2; 0; 1]%nat) = Ok [] /\
   events (generateImageBatch refusing_engine refusing_world config
             (store_with seven_jobs) 1%positive (-1)
             (modelNanoBanana config) None [2; 0; 1]%nat) = []) /\
  (returned (generateImageGlmBatch refusing_engine refusing_world config
               (store_with seven_jobs) 1%positive (-1) (VStr "1280x1280")
               [2; 0; 1]%nat) = Ok [] /\
   events (generateImageGlmBatch refusing_engine refusing_world config
             (store_with seven_jobs) 1%positive (-1) (VStr "1280x1280")
             [2; 0; 1]%nat) = []).
Proof.
  split; [reflexivity|]. split; [reflexivity|]. split; [lia|]. split; [lia|].
  split.
  - destruct (missing_prompt_fails_alone refusing_engine refusing_world
                config (store_with seven_jobs) 1%positive
                [job "a" "out/1.png"; job "b" "out/2.png"; job "c" "out/3.png"]
                job_without_prompt
                [job "e" "out/5.png"; job "f" "out/6.png"; job "g" "out/7.png"]
                3 (modelNanoBanana config) None (VStr "1280x1280")
                [2; 0; 1]%nat)
      as [Hfull _];
      [reflexivity | repeat constructor | reflexivity |].
    apply Hfull. lia.
  - destruct (missing_prompt_fails_alone refusing_engine refusing_world
                config (store_with seven_jobs) 1%positive
                [job "a" "out/1.png"; job "b" "out/2.png"; job "c" "out/3.png"]
                job_without_prompt
                [job "e" "out/5.png"; job "f" "out/6.png"; job "g" "out/7.png"]
                (-1) (modelNanoBanana config) None (VStr "1280x1280")
                [2; 0; 1]%nat)
      as [_ Hnone];
      [reflexivity | repeat constructor | reflexivity |].
    apply Hnone. lia.
Defined.

(** A stream with a comment line, one data frame, an empty line and the
    sentinel resolves to the image of the frame. *)
Lemma stream_fallback_resolves_frames_example :
  JSON_parse stream_engine event_stream = None /\
  spec_frames stream_engine event_stream
    = [delta_frame ((text_part <$> ["here it is"]) ++
                    inline_image_part "QUJD" :: (text_part <$> []))] /\
  imageBase64 (extract_generate stream_engine event_stream) = VStr "QUJD" /\
  fullContent (extract_generate stream_engine event_stream)
    = concat_text (["here it is"] ++ []) /\
  materialize stream_engine refusing_world msg_no_image
    (extract_generate stream_engine event_stream)
    = lift (Buffer_from_base64 stream_engine (VStr "QUJD")).
Proof.
  split; [vm_compute; reflexivity|].
  split; [vm_compute; reflexivity|].
  destruct (stream_fallback_resolves_frames stream_engine
              refusing_world event_stream) as [Hfold Hframe];
    [vm_compute; reflexivity|].
  apply (Hframe ["here it is"] "QUJD" []);
    [discriminate | vm_compute; reflexivity].
Defined.

(** C8 (fails on the code).  A record is taken for a data frame when it
    starts with [data:], but its payload is what is left when the first
    ['data: '], with the space, is removed.  In the stream below the one
    data frame is written without the space: the record is recognised,
    its JSON fragment parses and holds an inline image in its delta, and
    yet the line as a whole is handed to [JSON.parse], the frame is
    dropped, and [generateImage] reports that no image was found.  The
    same frame written with the space resolves to the image. *)
Theorem data_frame_without_space_is_lost :
  JSON_parse stream_engine event_stream_no_space = None /\
  is_data_record ("data:" +:+ stringify image_frame) = true /\
  JSON_parse stream_engine (stringify image_frame) = Some image_frame /\
  delta_content image_frame
    = Some (VArr [text_part "here it is"; inline_image_part "QUJD"]) /\
  parse_generate stream_engine event_stream_no_space = rstate0 /\
  generateImage stream_engine (world (reply event_stream_no_space) unreachable)
    config (VStr "a cat") (VStr "out/cat.png") (modelNanoBanana config) None
  = ([EvPost (chatApiUrl config) (bearer (apiKey config))
        (ChatBody
           (generate_request (VStr "a cat") (modelNanoBanana config) None))],
     Ok (failure_result msg_no_image [("prompt", VStr "a cat")])) /\
  imageBase64 (extract_generate stream_engine event_stream) = VStr "QUJD".
Proof. repeat split; vm_compute; reflexivity. Qed.

(** C9: the caller's array after a batch of seven jobs. *)
Lemma batch_leaves_callers_array_witness :
  store_with seven_jobs !! 1%positive = Some seven_jobs /\
  final_store (generateImageBatch refusing_engine refusing_world config
                 (store_with seven_jobs) 1%positive 3 (modelNanoBanana config)
                 None [2; 0; 1]%nat) !! 1%positive = Some seven_jobs /\
  final_store (generateImageGlmBatch refusing_engine refusing_world config
                 (store_with seven_jobs) 1%positive 3 (VStr "1280x1280")
                 [2; 0; 1]%nat) !! 1%positive = Some seven_jobs.
Proof.
  split; [reflexivity|].
  apply (batch_leaves_callers_array refusing_engine refusing_world config
           (store_with seven_jobs) 1%positive seven_jobs 3
           (modelNanoBanana config) None (VStr "1280x1280") [2; 0; 1]%nat).
  reflexivity.
Defined.


End Examples.

(** * Further properties of the server *)

(** ** The single-job functions *)

Section JobProperties.

Variable E : Engine.
Variable W : World.
Variable API_CONFIG : Config.

Local Abbreviation generateImage := (generateImage E W API_CONFIG).
Local Abbreviation generateImageGlm := (generateImageGlm E W API_CONFIG).
Local Abbreviation editImage := (editImage E W API_CONFIG).

Ltac returns_only :=
  repeat first
    [ apply returns_only_bind; intros ?
    | apply returns_only_throw
    | apply returns_only_ret
    | match goal with
      | |- returns_only _ (if ?b then _ else _) => destruct b
      | |- returns_only _ (match ?o with Some _ => _ | None => _ end) =>
        destruct o
      end ].

Lemma bind_inv_ok {A B} (m : M A) (f : A -> M B) t b :
  mbind f m = (t, Ok b) ->
  exists t1 a t2, m = (t1, Ok a) /\ f a = (t2, Ok b) /\ t = t1 ++ t2.
Proof.
  destruct m as [t1 [a|e]]; [|discriminate].
  rewrite bind_ok. destruct (f a) as [t2 r] eqn:Hf. simpl.
  intros H. inversion H; subst. eauto 6.
Qed.

Lemma writeFile_inv path data t u :
  writeFile W path data = (t, Ok u) ->
  t = [EvWriteFile path data] /\ fs_writeFile W path data = Ok tt.
Proof.
  unfold writeFile, emit, lift. rewrite bind_ok. simpl.
  destruct (fs_writeFile W path data) as [[]|e]; [|discriminate].
  intros H. by inversion H.
Qed.

Lemma try_catch_success {A} (m : M A) (h : exn -> A) (P : A -> Prop) t a :
  try_catch m (fun e => mret (h e)) = (t, Ok a) ->
  (forall e, ~ P (h e)) ->
  P a ->
  m = (t, Ok a).
Proof.
  destruct m as [t0 [a0|e]]; simpl.
  - done.
  - intros H Hh Ha. inversion H; subst. by destruct (Hh e).
Qed.

(** The end that the three functions share: the path is chosen, the file
    is written, the record is built. *)
Lemma saved_tail (saveToFilePath : value) (fallback : M value) data
    message rest t r :
  (path ← (if truthy saveToFilePath then mret saveToFilePath else fallback);
   _ ← writeFile W path data;
   shown ← to_string_M E path;
   mret (success_result (message +:+ shown) path rest)) = (t, Ok r) ->
  saved_as W saveToFilePath t r.
Proof.
  intros H.
  apply bind_inv_ok in H as (t1 & path & t2 & Hpath & H & ->).
  apply bind_inv_ok in H as (t3 & u & t4 & Hwrite & H & ->).
  apply bind_inv_ok in H as (t5 & shown & t6 & Hshown & H & ->).
  apply writeFile_inv in Hwrite as [-> Hw].
  unfold to_string_M, lift in Hshown. inversion Hshown; subst t5.
  inversion H; subst.
  exists t1, data. split_and!.
  - reflexivity.
  - exact Hw.
  - intros Ht. rewrite Ht in Hpath. by inversion Hpath.
Qed.

Lemma saved_as_after before saveToFilePath t r :
  saved_as W saveToFilePath t r -> saved_as W saveToFilePath (before ++ t) r.
Proof.
  intros (b & data & -> & Hw & Hp). exists (before ++ b), data.
  by rewrite app_assoc.
Qed.

Lemma generateImage_saved prompt saveToFilePath model imageConfig t r :
  generateImage prompt saveToFilePath model imageConfig = (t, Ok r) ->
  field "success" r = VBool true ->
  saved_as W saveToFilePath t r.
Proof.
  intros Hcall Hs. unfold generateImage in Hcall.
  apply (try_catch_success _ _ (fun r => field "success" r = VBool true))
    in Hcall; [|discriminate|done].
  apply bind_inv_ok in Hcall as (t1 & resp & t2 & _ & H & ->).
  destruct (negb (ok resp)); [discriminate|].
  apply bind_inv_ok in H as (t3 & data & t4 & _ & H & ->).
  apply saved_tail in H. by do 2 apply saved_as_after.
Qed.

Lemma editImage_saved imagePath editPrompt saveToFilePath model imageConfig
    t r :
  editImage imagePath editPrompt saveToFilePath model imageConfig = (t, Ok r) ->
  field "success" r = VBool true ->
  saved_as W saveToFilePath t r.
Proof.
  intros Hcall Hs. unfold editImage in Hcall.
  apply (try_catch_success _ _ (fun r => field "success" r = VBool true))
    in Hcall; [|discriminate|done].
  apply bind_inv_ok in Hcall as (t0 & u & t0' & _ & H & ->).
  apply bind_inv_ok in H as (t1 & imageBuffer & t1' & _ & H & ->).
  apply bind_inv_ok in H as (t2 & resp & t2' & _ & H & ->).
  destruct (negb (ok resp)); [discriminate|].
  apply bind_inv_ok in H as (t3 & data & t4 & _ & H & ->).
  apply saved_tail in H. by do 4 apply saved_as_after.
Qed.

Lemma generateImageGlm_saved prompt saveToFilePath size t r :
  generateImageGlm prompt saveToFilePath size = (t, Ok r) ->
  field "success" r = VBool true ->
  saved_as W saveToFilePath t r.
Proof.
  intros Hcall Hs. unfold generateImageGlm in Hcall.
  apply (try_catch_success _ _ (fun r => field "success" r = VBool true))
    in Hcall; [|discriminate|done].
  apply bind_inv_ok in Hcall as (t0 & shown & t0' & _ & H & ->).
  apply bind_inv_ok in H as (t1 & resp & t1' & _ & H & ->).
  destruct (negb (ok resp)); [discriminate|].
  apply bind_inv_ok in H as (t2 & data & t2' & _ & H & ->).
  apply bind_inv_ok in H as (t3 & url & t3' & _ & H & ->).
  apply bind_inv_ok in H as (t4 & shown' & t4' & _ & H & ->).
  apply bind_inv_ok in H as (t5 & buf & t5' & _ & H & ->).
  apply saved_tail in H. by do 6 apply saved_as_after.
Qed.

(** The events of a computation all satisfy [P]. *)
Lemma only_bind {A B} (P : event -> Prop) (m : M A) (f : A -> M B) :
  Forall P m.1 -> (forall a, Forall P (f a).1) -> Forall P (mbind f m).1.
Proof.
  destruct m as [t [a|e]]; simpl; intros Hm Hf; [|done].
  specialize (Hf a). destruct (f a) as [t' r]. simpl in *.
  by apply Forall_app.
Qed.

Lemma only_try_catch {A} (P : event -> Prop) (m : M A) (h : exn -> M A) :
  Forall P m.1 -> (forall e, Forall P (h e).1) -> Forall P (try_catch m h).1.
Proof.
  destruct m as [t [a|e]]; simpl; intros Hm Hh; [done|].
  specialize (Hh e). destruct (h e) as [t' r]. simpl in *.
  by apply Forall_app.
Qed.

Lemma only_emit (P : event -> Prop) e : P e -> Forall P (emit e).1.
Proof. intros H. by repeat constructor. Qed.

Lemma only_lift {A} (P : event -> Prop) (o : outcome A) : Forall P (lift o).1.
Proof. constructor. Qed.

Lemma only_ret {A} (P : event -> Prop) (a : A) : Forall P (mret a : M A).1.
Proof. constructor. Qed.

Lemma only_throw {A} (P : event -> Prop) e : Forall P (throw e : M A).1.
Proof. constructor. Qed.

Ltac only_events :=
  repeat first
    [ apply only_try_catch; [|intros ?]
    | apply only_bind; [|intros ?]
    | apply only_emit; reflexivity
    | apply only_lift
    | apply only_ret
    | apply only_throw
    | match goal with
      | |- Forall _ (if ?b then _ else _).1 => destruct b
      | |- Forall _ (match ?o with Some _ => _ | None => _ end).1 =>
        destruct o
      end ].

Lemma glm_image_url_silent (P : event -> Prop) data :
  Forall P (glm_image_url E data).1.
Proof. unfold glm_image_url. only_events. Qed.

Lemma materialize_no_directory no_image st :
  Forall (fun e => is_directory_event e = false)
    (materialize E W no_image st).1.
Proof. unfold materialize, download. only_events. Qed.

(** The shape of what [editImage] returns. *)
Lemma editImage_shape imagePath editPrompt saveToFilePath model imageConfig :
  exists t r,
    editImage imagePath editPrompt saveToFilePath model imageConfig
      = (t, Ok r) /\
    (success_shape ["originalPath"; "editPrompt"] r \/
     failure_shape ["originalPath"; "editPrompt"] r) /\
    field "originalPath" r = imagePath /\ field "editPrompt" r = editPrompt.
Proof.
  unfold editImage.
  match goal with |- context [try_catch ?m _] => set (body := m) end.
  destruct (try_catch_result body
              (fun error => failure_result (emessage error)
                 [("originalPath", imagePath); ("editPrompt", editPrompt)]))
    as (t & Heq & _).
  rewrite Heq. eexists _, _. split; [done|].
  destruct body as [t0 [r|e]] eqn:Hbody; simpl.
  - assert (Hr : returns_only
                   (fun r => success_shape ["originalPath"; "editPrompt"] r /\
                             field "originalPath" r = imagePath /\
                             field "editPrompt" r = editPrompt) body).
    { unfold body. returns_only. by repeat split. }
    destruct (Hr t0 r Hbody) as (? & ? & ?). auto.
  - split; [right; by split|by split].
Qed.

(** X1.  [editImage] never throws.  What it returns is
    [{success: true, message, filePath, originalPath, editPrompt}] or
    [{success: false, error, originalPath, editPrompt}], and the last two
    properties are the arguments it was given. *)
Theorem editImage_returns_a_record
    imagePath editPrompt saveToFilePath model imageConfig :
  exists t r,
    editImage imagePath editPrompt saveToFilePath model imageConfig
      = (t, Ok r) /\
    (success_shape ["originalPath"; "editPrompt"] r \/
     failure_shape ["originalPath"; "editPrompt"] r) /\
    field "originalPath" r = imagePath /\ field "editPrompt" r = editPrompt.
Proof. apply editImage_shape. Qed.

(** X2.  When the image to edit cannot be read, [editImage] returns a
    record [{success: false, error, originalPath, editPrompt}] whose
    [error] is the message of the file-system error, and the read is the
    only thing it did: no request is sent. *)
Theorem editImage_unreadable_image
    imagePath editPrompt saveToFilePath model imageConfig error :
  fs_readFile W imagePath = Throw error ->
  exists r,
    editImage imagePath editPrompt saveToFilePath model imageConfig =
      ([EvReadFile imagePath], Ok r) /\
    keys r = ["success"; "error"; "originalPath"; "editPrompt"] /\
    field "success" r = VBool false /\
    field "error" r = VStr (emessage error) /\
    field "originalPath" r = imagePath /\
    field "editPrompt" r = editPrompt.
Proof.
  intros Hread. eexists. split.
  - unfold editImage, emit, lift.
    rewrite bind_ok, Hread. reflexivity.
  - split_and!; reflexivity.
Qed.

(** X3.  [editImage] has no fallback for a response that is not one JSON
    document: whatever the text holds (an event stream, a bare URL), the
    call ends, after the read and the request, with a record [{success:
    false, error, originalPath, editPrompt}] whose [error] is the message
    of line 551: no image was found. *)
Theorem editImage_needs_json
    imagePath editPrompt saveToFilePath model imageConfig imageBuffer resp :
  fs_readFile W imagePath = Ok imageBuffer ->
  fetch_post W (chatApiUrl API_CONFIG) (bearer (apiKey API_CONFIG))
    (ChatBody (edit_request editPrompt (Buffer_to_base64 E imageBuffer)
                 model imageConfig)) = Ok resp ->
  ok resp = true ->
  JSON_parse E (text resp) = None ->
  exists r,
    editImage imagePath editPrompt saveToFilePath model imageConfig =
      ([EvReadFile imagePath;
        EvPost (chatApiUrl API_CONFIG) (bearer (apiKey API_CONFIG))
          (ChatBody (edit_request editPrompt (Buffer_to_base64 E imageBuffer)
                       model imageConfig))],
       Ok r) /\
    keys r = ["success"; "error"; "originalPath"; "editPrompt"] /\
    field "success" r = VBool false /\
    field "error" r
      = VStr "未在编辑响应中找到图像URL或base64数据，可能需要调整编辑提示词" /\
    field "originalPath" r = imagePath /\
    field "editPrompt" r = editPrompt.
Proof.
  intros Hread Hpost Hok Hparse. eexists. split.
  - unfold editImage, emit, lift.
    rewrite bind_ok, Hread. cbn [fst snd]. rewrite bind_ok.
    rewrite (post_ok _ _ _ _ _ Hpost), bind_ok. rewrite Hok. simpl negb.
    cbv iota.
    unfold extract_edit, parse_edit. rewrite Hparse.
    reflexivity.
  - split_and!; reflexivity.
Qed.

(** X4.  When the provider answers the request of [generateImage] with a
    status outside 2xx, the call returns a record [{success: false, error,
    prompt}] whose [error] quotes the status and the body, and the
    request is the only thing it did: nothing is downloaded and no file
    is written. *)
Theorem generateImage_reports_http_error
    prompt saveToFilePath model imageConfig resp :
  fetch_post W (chatApiUrl API_CONFIG) (bearer (apiKey API_CONFIG))
    (ChatBody (generate_request prompt model imageConfig)) = Ok resp ->
  ok resp = false ->
  exists r,
    generateImage prompt saveToFilePath model imageConfig =
      ([EvPost (chatApiUrl API_CONFIG) (bearer (apiKey API_CONFIG))
          (ChatBody (generate_request prompt model imageConfig))],
       Ok r) /\
    keys r = ["success"; "error"; "prompt"] /\
    field "success" r = VBool false /\
    field "error" r
      = VStr ("API 请求失败: " +:+ pretty (status resp) +:+ " - "
              +:+ text resp) /\
    field "prompt" r = prompt.
Proof.
  intros Hpost Hok. eexists. split.
  - unfold generateImage.
    rewrite (post_ok _ _ _ _ _ Hpost), bind_ok. rewrite Hok. reflexivity.
  - split_and!; reflexivity.
Qed.

(** X5.  A record with [success: true] is only returned after the file was
    written: for each of the three job functions, the last event of the
    call is the write of the file named by [filePath], the write
    succeeded, and [filePath] is the caller's path when one was given. *)
Theorem success_means_file_written
    prompt imagePath saveToFilePath model imageConfig size t r :
  field "success" r = VBool true ->
  generateImage prompt saveToFilePath model imageConfig = (t, Ok r) \/
  editImage imagePath prompt saveToFilePath model imageConfig = (t, Ok r) \/
  generateImageGlm prompt saveToFilePath size = (t, Ok r) ->
  saved_as W saveToFilePath t r.
Proof.
  intros Hs [H|[H|H]].
  - by eapply generateImage_saved.
  - by eapply editImage_saved.
  - by eapply generateImageGlm_saved.
Qed.

(** X6.  A call that is given a path to save to never touches a
    directory: none of the three job functions checks or creates one, so
    the write is attempted in whatever directory the path names. *)
Theorem caller_path_creates_no_directory
    prompt imagePath saveToFilePath model imageConfig size :
  truthy saveToFilePath = true ->
  Forall (fun e => is_directory_event e = false)
    (generateImage prompt saveToFilePath model imageConfig).1 /\
  Forall (fun e => is_directory_event e = false)
    (editImage imagePath prompt saveToFilePath model imageConfig).1 /\
  Forall (fun e => is_directory_event e = false)
    (generateImageGlm prompt saveToFilePath size).1.
Proof.
  intros Hs. split_and!.
  - unfold generateImage, post, writeFile, to_string_M. rewrite Hs.
    only_events. apply materialize_no_directory.
  - unfold editImage, post, writeFile, to_string_M. rewrite Hs.
    only_events. apply materialize_no_directory.
  - unfold generateImageGlm, post, writeFile, to_string_M, download.
    rewrite Hs. only_events. apply glm_image_url_silent.
Qed.

Lemma glm_image_url_found data :
  has_data0_url data = true ->
  exists url,
    data0_url data = Some url /\ truthy url = true /\
    glm_image_url E data = mret url.
Proof.
  unfold has_data0_url, data0_url, glm_image_url.
  destruct (get data "data") as [items|]; [|discriminate]. simpl.
  destruct (get0 items) as [first|] eqn:H0; [|discriminate]. simpl.
  destruct (get first "url") as [url|] eqn:Hu; [|discriminate].
  intros Ht. exists url. split_and!; [done..|].
  assert (Hf : truthy first = true).
  { destruct first; simpl in Hu; try discriminate; try reflexivity;
      inversion Hu; subst url; discriminate. }
  assert (Hi : truthy items = true).
  { destruct items as [| |b|n|[|c s]|l|fs]; simpl in H0;
      try discriminate; try reflexivity;
      inversion H0; subst first; discriminate. }
  by rewrite Hi, Hf, Ht.
Qed.

Lemma download_ok url image :
  fetch_get W url = Ok image ->
  ok image = true ->
  download W url = ([EvGet url], Ok (buffer image)).
Proof.
  intros Hget Hok. unfold download, emit, lift.
  rewrite bind_ok. simpl. rewrite Hget. simpl. by rewrite Hok.
Qed.

Lemma writeFile_ok path data :
  fs_writeFile W path data = Ok tt ->
  writeFile W path data = ([EvWriteFile path data], Ok tt).
Proof.
  intros Hw. unfold writeFile, emit, lift. rewrite bind_ok. simpl.
  by rewrite Hw.
Qed.



Lemma default_name_ok dir kind prompt ext dir_events p :
  ensure_dir W dir = (dir_events, Ok tt) ->
  default_path W dir kind prompt ext = Ok p ->
  (_ ← ensure_dir W dir;
   p ← lift (default_path W dir kind prompt ext);
   mret (VStr p)) = (dir_events, Ok (VStr p)).
Proof.
  intros Hdir Hname. rewrite Hdir, bind_ok. unfold lift. rewrite Hname.
  simpl. by rewrite app_nil_r.
Qed.

(** X24.  The path of [generateImage] through a URL and a default file
    name: when the response yields no base64 data but a URL, and the
    caller gives no path, the image is downloaded, the target directory
    ([projectDir], else [outputDir]) is checked, and the bytes are written
    under the generated name, whose extension is [png] whatever the
    extension of the URL is. *)
Theorem generateImage_names_download_png
    prompt saveToFilePath model imageConfig resp u image dir_events p :
  fetch_post W (chatApiUrl API_CONFIG) (bearer (apiKey API_CONFIG))
    (ChatBody (generate_request prompt model imageConfig)) = Ok resp ->
  ok resp = true ->
  truthy (imageBase64 (extract_generate E (text resp))) = false ->
  imageUrl (extract_generate E (text resp)) = Some u ->
  fetch_get W (VStr u) = Ok image ->
  ok image = true ->
  truthy saveToFilePath = false ->
  ensure_dir W (targetDir API_CONFIG) = (dir_events, Ok tt) ->
  default_path W (targetDir API_CONFIG) "generated" prompt "png" = Ok p ->
  fs_writeFile W (VStr p) (buffer image) = Ok tt ->
  generateImage prompt saveToFilePath model imageConfig =
    ([EvPost (chatApiUrl API_CONFIG) (bearer (apiKey API_CONFIG))
        (ChatBody (generate_request prompt model imageConfig));
      EvGet (VStr u)]
     ++ dir_events ++ [EvWriteFile (VStr p) (buffer image)],
     Ok (success_result ("图像生成成功并保存到: " +:+ p) (VStr p)
           [("prompt", prompt)])).
Proof.
  intros Hpost Hok Hb Hu Hget Himg Hsave Hdir Hname Hwrite.
  unfold generateImage.
  rewrite (post_ok _ _ _ _ _ Hpost), bind_ok. rewrite Hok. simpl negb. cbv iota.
  unfold materialize. rewrite Hb, Hu.
  rewrite (download_ok _ _ Hget Himg), bind_ok.
  rewrite Hsave, andb_false_l. cbv zeta iota.
  rewrite (default_name_ok _ _ _ _ _ _ Hdir Hname), bind_ok.
  rewrite (writeFile_ok _ _ Hwrite), bind_ok.
  rewrite (to_string_M_ok E (VStr p) p eq_refl), bind_ok.
  reflexivity.
Qed.

End JobProperties.

(** ** The batch executor, continued *)

Section PoolProperties.

Variable E : Engine.
Variable single : value -> value -> M value.
Variable catch_rest : list (string * value).
Variables queue results : loc.
Hypothesis queue_fresh : queue ≠ results.

Local Abbreviation run_worker := (run_worker E queue results).
Local Abbreviation enter_loop := (enter_loop E queue results).
Local Abbreviation spawn := (spawn E queue results).
Local Abbreviation resume := (resume E single catch_rest queue results).
Local Abbreviation event_loop := (event_loop E single catch_rest queue results).
Local Abbreviation batch_results := (batch_results single catch_rest).
Local Abbreviation batch_events := (batch_events single catch_rest).
Local Abbreviation pending_result := (pending_result single catch_rest).
Local Abbreviation pending_events := (pending_events single catch_rest).

(** *** A worker that meets [null] *)

Local Abbreviation rejected_reading_prompt :=
  (fun w : wstate => forall e, w = Rejected e -> e = TypeError_read E "prompt").

Local Abbreviation null_seen ws h :=
  (Exists is_nullish (array_at h queue) \/
   Exists (fun w => is_rejected w = true) ws).

Lemma run_worker_null q : forall (h : store) w (h' : store),
  run_worker q h = (w, h') ->
  array_at h queue = q ->
  rejected_reading_prompt w /\
  (Exists is_nullish q ->
   Exists is_nullish (array_at h' queue) \/ is_rejected w = true).
Proof.
  induction q as [|job rest IH]; intros h w h' Hrun Hq; simpl in Hrun.
  - inversion Hrun; subst. split; [discriminate|]. intros H. inversion H.
  - destruct (get job "prompt") as [p|] eqn:Hp.
    + destruct (get_prompt_some _ _ Hp) as [s Hs]. rewrite Hs in Hrun.
      assert (Hjob : ~ is_nullish job).
      { unfold is_nullish. destruct job; simpl in *; congruence. }
      destruct (truthy p); simpl in Hrun.
      * inversion Hrun; subst. split; [discriminate|].
        rewrite array_at_insert_eq. intros Hex.
        apply Exists_cons in Hex as [?|?]; [done|by left].
      * apply IH in Hrun as [Hrej Hnull].
        2:{ rewrite array_at_push_ne, array_at_insert_eq; auto. }
        split; [done|]. intros Hex.
        apply Exists_cons in Hex as [?|?]; [done|auto].
    + assert (Hw : w = Rejected (TypeError_read E "prompt")).
      { destruct (get job "saveToFilePath"); by inversion Hrun. }
      subst w. split; [|by right]. intros e He. by inversion He.
Qed.

Lemma spawn_null k : forall (h : store) ws (h' : store),
  spawn k h = (ws, h') ->
  Forall rejected_reading_prompt ws /\
  (Exists is_nullish (array_at h queue) -> null_seen ws h').
Proof.
  induction k as [|k IH]; intros h ws h' Hsp; simpl in Hsp.
  - inversion Hsp; subst. split; [constructor|]. by left.
  - destruct (enter_loop h) as [w h1] eqn:Hw.
    destruct (spawn k h1) as [ws1 h2] eqn:Hk.
    inversion Hsp; subst.
    apply run_worker_null in Hw as [Hrej Hnull]; [|done].
    apply IH in Hk as [Hrejs Hnulls].
    split; [by constructor|]. intros Hex.
    destruct (Hnull Hex) as [Hq|Hr].
    + destruct (Hnulls Hq) as [?|?]; [by left|right; by apply Exists_cons_tl].
    + right. by apply Exists_cons_hd.
Qed.

Lemma resume_null i ws (h : store) tr p s ws' (h' : store) tr' :
  ws !! i = Some (Awaiting p s) ->
  resume i ws h tr = (ws', h', tr') ->
  Forall rejected_reading_prompt ws ->
  null_seen ws h ->
  Forall rejected_reading_prompt ws' /\ null_seen ws' h'.
Proof.
  intros Hi Hres Hrej Hnull. unfold resume in Hres. rewrite Hi in Hres.
  destruct (settle single catch_rest p s) as [r t] eqn:Hst.
  destruct (enter_loop (push results r h)) as [w h1] eqn:Hw.
  inversion Hres; subst. clear Hres.
  apply run_worker_null in Hw as [Hrw Hnw]; [|done].
  rewrite array_at_push_ne in Hnw by done.
  destruct (list_elem_of_split_length _ _ _ Hi) as (l1 & l2 & -> & ->).
  rewrite insert_app_r_alt, Nat.sub_diag by lia. simpl.
  apply Forall_app in Hrej as [Hr1 Hr2]. apply Forall_cons in Hr2 as [_ Hr2].
  split.
  - apply Forall_app. split; [done|]. by constructor.
  - destruct Hnull as [Hq|Hex].
    + destruct (Hnw Hq) as [?|?]; [by left|].
      right. apply Exists_app. right. by apply Exists_cons_hd.
    + right. apply Exists_app in Hex as [?|Hex]; apply Exists_app; [by left|].
      apply Exists_cons in Hex as [?|?]; [done|].
      right. by apply Exists_cons_tl.
Qed.

Lemma event_loop_null fuel :
  forall sched ws (h : store) tr ws' (h' : store) tr',
  event_loop fuel sched ws h tr = (ws', h', tr') ->
  Forall rejected_reading_prompt ws ->
  null_seen ws h ->
  Forall rejected_reading_prompt ws' /\ null_seen ws' h'.
Proof.
  induction fuel as [|fuel IH]; intros sched ws h tr ws' h' tr' Hloop Hrej Hnull;
    simpl in Hloop.
  - by inversion Hloop; subst.
  - destruct (next_completion sched ws) as [i|] eqn:Hnext.
    + destruct (next_completion_some _ _ _ Hnext) as (p & s & Hi).
      destruct (resume i ws h tr) as [[ws1 h1] tr1] eqn:Hres.
      destruct (resume_null _ _ _ _ _ _ _ _ _ Hi Hres Hrej Hnull) as [? ?].
      eauto.
    + by inversion Hloop; subst.
Qed.

Lemma first_rejection_reading_prompt ws :
  Forall rejected_reading_prompt ws ->
  Exists (fun w => is_rejected w = true) ws ->
  first_rejection ws = Some (TypeError_read E "prompt").
Proof.
  induction 1 as [|w ws Hw _ IH]; intros Hex; [inversion Hex|].
  destruct w as [p s| |e]; simpl.
  - apply IH. apply Exists_cons in Hex as [?|?]; [discriminate|done].
  - apply IH. apply Exists_cons in Hex as [?|?]; [discriminate|done].
  - by rewrite (Hw e eq_refl).
Qed.

(** *** A pool of one worker *)

Local Abbreviation in_order :=
  (fun (jobs : list value) (w : wstate) (h : store) (tr : list event) =>
   array_at h results ++ pending_result w ++ batch_results (array_at h queue)
     = batch_results jobs /\
   tr ++ pending_events w ++ batch_events (array_at h queue)
     = batch_events jobs /\
   (is_finished w = true -> array_at h queue = []) /\
   (is_rejected w = true -> Exists is_nullish jobs) /\
   (forall j, j ∈ array_at h queue -> j ∈ jobs)).

Lemma enter_loop_in_order jobs (h : store) tr w (h' : store) :
  enter_loop h = (w, h') ->
  array_at h results ++ batch_results (array_at h queue) = batch_results jobs ->
  tr ++ batch_events (array_at h queue) = batch_events jobs ->
  (forall j, j ∈ array_at h queue -> j ∈ jobs) ->
  in_order jobs w h' tr.
Proof.
  intros Hrun Hres Hev Hsub.
  apply (run_worker_spec E single catch_rest queue results queue_fresh)
    in Hrun; [|done].
  destruct Hrun as (q' & H1 & H2 & H3 & H4 & H5 & _ & _ & H8 & _).
  subst q'. split_and!.
  - by rewrite H2.
  - by rewrite H3.
  - done.
  - intros Hr. apply H5 in Hr. apply Exists_exists in Hr as (j & Hj & Hn).
    apply Exists_exists. eauto.
  - auto.
Qed.

Lemma event_loop_in_order jobs fuel :
  forall sched w (h : store) tr ws' (h' : store) tr',
  event_loop fuel sched [w] h tr = (ws', h', tr') ->
  in_order jobs w h tr ->
  exists w', ws' = [w'] /\ in_order jobs w' h' tr'.
Proof.
  induction fuel as [|fuel IH]; intros sched w h tr ws' h' tr' Hloop Hinv;
    simpl in Hloop.
  - inversion Hloop; subst. eauto.
  - destruct (next_completion sched [w]) as [i|] eqn:Hnext.
    + destruct (next_completion_some _ _ _ Hnext) as (p & s & Hi).
      destruct i as [|i]; [|by destruct i].
      simpl in Hi. inversion Hi; subst w. clear Hi.
      unfold resume in Hloop. simpl in Hloop.
      destruct (settle single catch_rest p s) as [r t] eqn:Hst.
      destruct (enter_loop (push results r h)) as [w1 h1] eqn:Hw.
      simpl in Hloop. apply IH in Hloop; [done|].
      destruct Hinv as (Hres & Hev & _ & _ & Hsub).
      simpl in Hres, Hev. rewrite Hst in Hres, Hev. simpl in Hres, Hev.
      apply (enter_loop_in_order jobs _ _ _ _ Hw).
      * rewrite array_at_push_eq, array_at_push_ne by done.
        by rewrite <- app_assoc.
      * rewrite array_at_push_ne by done. by rewrite <- app_assoc.
      * by rewrite array_at_push_ne.
    + inversion Hloop; subst. eauto.
Qed.

End PoolProperties.

Section BatchProperties.

Variable E : Engine.
Variable single : value -> value -> M value.
Variable catch_rest : list (string * value).

Local Abbreviation run_batch := (run_batch E single catch_rest).
Local Abbreviation batch_results := (batch_results single catch_rest).
Local Abbreviation batch_events := (batch_events single catch_rest).

(** The steps of a batch over a non-empty array. *)
Lemma run_batch_steps (h : store) batchRequests jobs concurrency sched :
  h !! batchRequests = Some jobs ->
  jobs ≠ [] ->
  exists (queue results : loc) ws0 (h3 : store) ws1 (h4 : store) tr,
    queue ≠ results /\
    array_at (<[queue := jobs]> (<[results := []]> h)) queue = jobs /\
    array_at (<[queue := jobs]> (<[results := []]> h)) results = [] /\
    spawn E queue results
      (Z.to_nat (Z.min concurrency (Z.of_nat (length jobs))))
      (<[queue := jobs]> (<[results := []]> h)) = (ws0, h3) /\
    event_loop E single catch_rest queue results (length jobs) sched ws0 h3 []
      = (ws1, h4, tr) /\
    batch_inv single catch_rest queue results h jobs ws1 h4 tr /\
    Forall (fun w => is_awaiting w = false) ws1 /\
    length ws1 = Z.to_nat (Z.min concurrency (Z.of_nat (length jobs))) /\
    run_batch h batchRequests concurrency sched =
      {| final_store := h4; events := tr;
         returned := match first_rejection ws1 with
                     | Some e => Throw e
                     | None => Ok (array_at h4 results)
                     end |}.
Proof.
  intros Hjobs Hne. unfold run_batch. rewrite Hjobs.
  destruct jobs as [|j0 jobs0]; [done|]. set (jobs := j0 :: jobs0) in *.
  set (results := fresh (dom h) : loc).
  set (queue := fresh (dom (<[results := []]> h)) : loc).
  assert (Hr : h !! results = None).
  { apply not_elem_of_dom, is_fresh. }
  assert (Hq : <[results := []]> h !! queue = None).
  { apply not_elem_of_dom, is_fresh. }
  assert (Hqr : queue ≠ results).
  { intros Heq. rewrite Heq, lookup_insert_eq in Hq. discriminate. }
  rewrite lookup_insert_ne in Hq by done.
  set (h2 := <[queue := jobs]> (<[results := []]> h)).
  assert (Hinv0 : batch_inv single catch_rest queue results h jobs [] h2 []).
  { unfold batch_inv, ledger_results, ledger_events, h2.
    rewrite array_at_insert_eq, array_at_insert_ne, array_at_insert_eq by done.
    split_and!; auto.
    - intros Hex. inversion Hex.
    - intros Hex. inversion Hex.
    - intros l Hl Hl'. rewrite !lookup_insert_ne; auto. }
  assert (Hout0 : (outstanding single catch_rest queue [] h2
                   <= length jobs)%nat).
  { unfold outstanding, h2. rewrite array_at_insert_eq. simpl. lia. }
  destruct (spawn E queue results _ h2) as [ws0 h3] eqn:Hsp.
  destruct (spawn_inv E single catch_rest queue results Hqr h jobs _ [] h2 []
              ws0 h3 Hsp Hinv0) as (Hinv1 & Hout1 & Hlen1).
  simpl in Hinv1, Hout1.
  destruct (event_loop E single catch_rest queue results (length jobs) sched
              ws0 h3 []) as [[ws1 h4] tr] eqn:Hloop.
  destruct (event_loop_inv E single catch_rest queue results Hqr h jobs _ _ _
              _ _ _ _ _ Hloop Hinv1) as (Hinv2 & Hdone & Hlen2); [lia|].
  exists queue, results, ws0, h3, ws1, h4, tr.
  split_and!; auto.
  - unfold h2. by rewrite array_at_insert_eq.
  - unfold h2. by rewrite array_at_insert_ne, array_at_insert_eq.
  - by rewrite Hlen2, Hlen1.
Qed.

(** With one worker the jobs are settled one after the other. *)
Lemma run_batch_in_order (h : store) batchRequests jobs sched :
  h !! batchRequests = Some jobs ->
  jobs ≠ [] ->
  Forall (fun j => nullish j = false) jobs ->
  returned (run_batch h batchRequests 1 sched) = Ok (batch_results jobs) /\
  events (run_batch h batchRequests 1 sched) = batch_events jobs.
Proof.
  intros Hjobs Hne Hobj.
  destruct (run_batch_steps h batchRequests jobs 1 sched Hjobs Hne)
    as (queue & results & ws0 & h3 & ws1 & h4 & tr & Hqr & Hq2 & Hr2 & Hsp
        & Hloop & Hinv & Hdone & _ & ->).
  replace (Z.to_nat (Z.min 1 (Z.of_nat (length jobs)))) with 1%nat in Hsp
    by (destruct jobs; [done|simpl length; lia]).
  simpl in Hsp.
  destruct (enter_loop E queue results _) as [w0 h3'] eqn:Hw.
  inversion Hsp; subst ws0 h3'. clear Hsp.
  apply (enter_loop_in_order E single catch_rest queue results Hqr jobs _ [])
    in Hw.
  2:{ by rewrite Hq2, Hr2. }
  2:{ by rewrite Hq2. }
  2:{ by rewrite Hq2. }
  destruct (event_loop_in_order E single catch_rest queue results Hqr jobs _
              _ _ _ _ _ _ _ Hloop Hw)
    as (w' & -> & Hres & Hev & Hfin & Hrej & _).
  apply Forall_cons in Hdone as [Hdone _].
  destruct w' as [p s| |e]; [discriminate| |].
  - rewrite (Hfin eq_refl) in Hres, Hev. simpl in *.
    rewrite !app_nil_r in Hres, Hev. by rewrite Hres, Hev.
  - exfalso. specialize (Hrej eq_refl).
    apply Exists_exists in Hrej as (j & Hj & Hn).
    rewrite Forall_forall in Hobj. specialize (Hobj j Hj).
    unfold is_nullish in Hn. congruence.
Qed.

(** With at least one worker, a [null] among the jobs makes the batch
    reject. *)
Lemma run_batch_null (h : store) batchRequests jobs concurrency sched :
  h !! batchRequests = Some jobs ->
  Exists is_nullish jobs ->
  1 <= concurrency ->
  returned (run_batch h batchRequests concurrency sched)
    = Throw (TypeError_read E "prompt").
Proof.
  intros Hjobs Hex Hc.
  assert (Hne : jobs ≠ []) by (intros ->; inversion Hex).
  destruct (run_batch_steps h batchRequests jobs concurrency sched Hjobs Hne)
    as (queue & results & ws0 & h3 & ws1 & h4 & tr & Hqr & Hq2 & Hr2 & Hsp
        & Hloop & Hinv & Hdone & Hlen & ->).
  simpl.
  apply (spawn_null E queue results Hqr) in Hsp as [Hrej0 Hnull0].
  rewrite Hq2 in Hnull0. specialize (Hnull0 Hex).
  destruct (event_loop_null E single catch_rest queue results Hqr _ _ _ _ _ _
              _ _ Hloop Hrej0 Hnull0) as [Hrej1 Hnull1].
  rewrite (first_rejection_reading_prompt E); [done..|].
  destruct Hnull1 as [Hq|Hr]; [|done].
  destruct Hinv as (_ & _ & Hfin & _).
  destruct ws1 as [|w ws1].
  { simpl in Hlen. destruct jobs; [done|]. simpl length in Hlen. lia. }
  apply Exists_cons_hd. apply Forall_cons in Hdone as [Hw _].
  destruct w as [p s| |e]; [discriminate| |done].
  rewrite Hfin in Hq by (by apply Exists_cons_hd). inversion Hq.
Qed.

End BatchProperties.

Section BatchTheorems.

Variable E : Engine.
Variable W : World.
Variable API_CONFIG : Config.

Local Abbreviation generateImageBatch := (generateImageBatch E W API_CONFIG).
Local Abbreviation generateImageGlmBatch :=
  (generateImageGlmBatch E W API_CONFIG).

Local Abbreviation chat_job model imageConfig :=
  (fun prompt saveToFilePath : value =>
     generateImage E W API_CONFIG prompt saveToFilePath model imageConfig).

Local Abbreviation glm_job size :=
  (fun prompt saveToFilePath : value =>
     generateImageGlm E W API_CONFIG prompt saveToFilePath size).

Local Abbreviation glm_rest := [("model", VStr "glm-image")].

(** X7.  With a concurrency of 1 a batch settles its jobs in the order of
    the array: the returned list has, at the place of each job, the record
    that the job function returns on the prompt and the path of that job
    (the immediate failure [{success: false, error: '缺少 prompt',
    prompt}] for a job without prompt), and the events are those of these
    calls, one job after the other. *)
Theorem single_worker_keeps_order
    (h : store) l jobs model imageConfig size sched :
  h !! l = Some jobs ->
  jobs ≠ [] ->
  Forall (fun j => nullish j = false) jobs ->
  (exists res,
     returned (generateImageBatch h l 1 model imageConfig sched) = Ok res /\
     Forall2 (record_of_job (chat_job model imageConfig)) jobs res /\
     events (generateImageBatch h l 1 model imageConfig sched)
       = jobs ≫= events_of_job (chat_job model imageConfig)) /\
  (exists res,
     returned (generateImageGlmBatch h l 1 size sched) = Ok res /\
     Forall2 (record_of_job (glm_job size)) jobs res /\
     events (generateImageGlmBatch h l 1 size sched)
       = jobs ≫= events_of_job (glm_job size)).
Proof.
  intros Hl Hne Hobj.
  assert (Hall : forall single rest,
    (forall p s, exists t r, single p s = (t, Ok r)) ->
    exists res,
      returned (run_batch E single rest h l 1 sched) = Ok res /\
      Forall2 (record_of_job single) jobs res /\
      events (run_batch E single rest h l 1 sched)
        = jobs ≫= events_of_job single).
  { intros single rest Hsingle.
    destruct (run_batch_in_order E single rest h l jobs sched Hl Hne Hobj)
      as [Hr He].
    eexists. split; [exact Hr|]. split.
    - by apply batch_results_owed.
    - rewrite He. by apply batch_events_owed. }
  split; apply Hall.
  - apply generateImage_returns.
  - apply generateImageGlm_returns.
Qed.

(** X8.  An entry of the array that is [null] or [undefined] makes the
    whole batch call fail: with at least one worker, both batch functions
    reject with the [TypeError] of the destructuring, whatever the other
    jobs are and in whatever order the calls complete, and no list of
    records is returned. *)
Theorem null_entry_rejects_batch
    (h : store) l jobs concurrency model imageConfig size sched :
  h !! l = Some jobs ->
  Exists is_nullish jobs ->
  1 <= concurrency ->
  returned (generateImageBatch h l concurrency model imageConfig sched)
    = Throw (TypeError_read E "prompt") /\
  returned (generateImageGlmBatch h l concurrency size sched)
    = Throw (TypeError_read E "prompt").
Proof.
  intros Hl Hex Hc. split; by apply (run_batch_null E _ _ h l jobs).
Qed.

(** X9.  With at least one worker, a batch over objects returns exactly
    one record per job, under every completion order: the returned list
    is, up to order, one record for each job, which is the record that
    the job function returns on the prompt and the path of that job (the
    immediate failure for a job without prompt), so its length is the
    number of jobs; and the events are, up to order, those of these
    calls. *)
Theorem batch_settles_every_job
    (h : store) l jobs concurrency model imageConfig size sched :
  h !! l = Some jobs ->
  jobs ≠ [] ->
  Forall (fun j => nullish j = false) jobs ->
  1 <= concurrency ->
  (exists res records,
     returned (generateImageBatch h l concurrency model imageConfig sched)
       = Ok res /\
     res ≡ₚ records /\
     Forall2 (record_of_job (chat_job model imageConfig)) jobs records /\
     length res = length jobs /\
     events (generateImageBatch h l concurrency model imageConfig sched)
       ≡ₚ jobs ≫= events_of_job (chat_job model imageConfig)) /\
  (exists res records,
     returned (generateImageGlmBatch h l concurrency size sched) = Ok res /\
     res ≡ₚ records /\
     Forall2 (record_of_job (glm_job size)) jobs records /\
     length res = length jobs /\
     events (generateImageGlmBatch h l concurrency size sched)
       ≡ₚ jobs ≫= events_of_job (glm_job size)).
Proof.
  intros Hl Hne Hobj Hc.
  assert (Hall : forall single rest,
    (forall p s, exists t r, single p s = (t, Ok r)) ->
    exists res records,
      returned (run_batch E single rest h l concurrency sched) = Ok res /\
      res ≡ₚ records /\
      Forall2 (record_of_job single) jobs records /\
      length res = length jobs /\
      events (run_batch E single rest h l concurrency sched)
        ≡ₚ jobs ≫= events_of_job single).
  { intros single rest Hsingle.
    destruct (run_batch_complete E single rest h l jobs concurrency sched
                Hl Hne Hobj Hc) as (res & Hr & Hp & He).
    exists res, (batch_results single rest jobs). split_and!.
    - done.
    - done.
    - by apply batch_results_owed.
    - by rewrite Hp, batch_results_length.
    - by rewrite He, (batch_events_owed single rest). }
  split; apply Hall.
  - apply generateImage_returns.
  - apply generateImageGlm_returns.
Qed.

End BatchTheorems.

(** ** The configuration *)

Section ConfigProperties.
Import JsString.

Lemma length_append s1 s2 :
  String.length (s1 +:+ s2) = (String.length s1 + String.length s2)%nat.
Proof.
  induction s1 as [|c s1 IH]; [done|].
  change (String c s1 +:+ s2) with (String c (s1 +:+ s2)). simpl. by rewrite IH.
Qed.

Lemma drop_append s1 s2 : drop (String.length s1) (s1 +:+ s2) = s2.
Proof.
  induction s1 as [|c s1 IH]; [done|].
  change (String c s1 +:+ s2) with (String c (s1 +:+ s2)). simpl. exact IH.
Qed.

Lemma take_drop n : forall s, take n s +:+ drop n s = s.
Proof.
  induction n as [|n IH]; intros s; [done|].
  destruct s as [|c s]; [done|]. simpl.
  change (String c (take n s) +:+ drop n s)
    with (String c (take n s +:+ drop n s)).
  by rewrite IH.
Qed.

Lemma endsWith_append s suffix : endsWith suffix (s +:+ suffix) = true.
Proof.
  unfold endsWith. rewrite length_append.
  replace (String.length s + String.length suffix - String.length suffix)%nat
    with (String.length s) by lia.
  rewrite drop_append, bool_decide_eq_true_2 by done.
  rewrite andb_true_r. apply Nat.leb_le. lia.
Qed.

Lemma endsWith_inv suffix s :
  endsWith suffix s = true -> exists before, s = before +:+ suffix.
Proof.
  unfold endsWith. intros H. apply andb_true_iff in H as [_ H].
  apply bool_decide_eq_true_1 in H.
  exists (take (String.length s - String.length suffix) s).
  rewrite <- (take_drop (String.length s - String.length suffix) s) at 1.
  by rewrite H.
Qed.

Lemma startsWith_append s t : startsWith s (s +:+ t) = true.
Proof. apply startsWith_spec. eauto. Qed.

(** X10.  Whatever the environment, the chat endpoint ends with
    [/v1/chat/completions].  When [GEMINI_API_BASE] is set and not empty
    the endpoint starts with it, and [/v1] is added only if the base does
    not already end with it. *)
Theorem chat_url_ends_with_v1_path env generated_images cwd :
  endsWith "/v1/chat/completions"
    (chatApiUrl (API_CONFIG_from env generated_images cwd)) = true /\
  forall base,
    env !! "GEMINI_API_BASE" = Some base ->
    base ≠ EmptyString ->
    startsWith base (chatApiUrl (API_CONFIG_from env generated_images cwd))
      = true /\
    chatApiUrl (API_CONFIG_from env generated_images cwd)
      = base +:+ (if endsWith "/v1" base then "/chat/completions"
                  else "/v1/chat/completions").
Proof.
  simpl. unfold chat_url. split.
  - destruct (env !! "GEMINI_API_BASE") as [base|]; [|reflexivity].
    destruct (decide (base = EmptyString)); [reflexivity|].
    destruct (endsWith "/v1" base) eqn:Hv1.
    + apply endsWith_inv in Hv1 as [before ->].
      rewrite append_assoc. apply endsWith_append.
    + apply endsWith_append.
  - intros base -> Hne. rewrite decide_False by done.
    destruct (endsWith "/v1" base); split; auto using startsWith_append.
Qed.

Lemma env_or_agree (env env' : gmap string string) x d :
  env' !! x = env !! x -> env_or env' x d = env_or env x d.
Proof. intros H. unfold env_or. by rewrite H. Qed.

Lemma env_or_nonempty (env : gmap string string) x d :
  d ≠ EmptyString -> env_or env x d ≠ EmptyString.
Proof.
  intros Hd. unfold env_or. destruct (env !! x) as [v|]; [|done].
  by destruct (decide (v = EmptyString)).
Qed.

Lemma targetDir_project c :
  projectDir c ≠ EmptyString -> targetDir c = projectDir c.
Proof. intros H. unfold targetDir. by rewrite decide_False. Qed.

(** What each job function reads of the configuration. *)
Lemma generateImage_reads (E : Engine) (W : World) c c'
    prompt saveToFilePath model imageConfig :
  chatApiUrl c' = chatApiUrl c ->
  apiKey c' = apiKey c ->
  targetDir c' = targetDir c ->
  generateImage E W c' prompt saveToFilePath model imageConfig
  = generateImage E W c prompt saveToFilePath model imageConfig.
Proof. intros H1 H2 H3. unfold generateImage. by rewrite H1, H2, H3. Qed.

Lemma generateImageGlm_reads (E : Engine) (W : World) c c'
    prompt saveToFilePath size :
  zhipuApiBase c' = zhipuApiBase c ->
  zhipuApiKey c' = zhipuApiKey c ->
  modelGlmImage c' = modelGlmImage c ->
  targetDir c' = targetDir c ->
  generateImageGlm E W c' prompt saveToFilePath size
  = generateImageGlm E W c prompt saveToFilePath size.
Proof.
  intros H1 H2 H3 H4. unfold generateImageGlm, glm_request.
  by rewrite H1, H2, H3, H4.
Qed.

Lemma editImage_reads (E : Engine) (W : World) c c'
    imagePath editPrompt saveToFilePath model imageConfig :
  chatApiUrl c' = chatApiUrl c ->
  apiKey c' = apiKey c ->
  outputDir c' = outputDir c ->
  editImage E W c' imagePath editPrompt saveToFilePath model imageConfig
  = editImage E W c imagePath editPrompt saveToFilePath model imageConfig.
Proof. intros H1 H2 H3. unfold editImage. by rewrite H1, H2, H3. Qed.

(** X25.  The two directory settings do not mix.  A generated image
    never goes to the output directory: with a working directory that has
    a name, neither [OUTPUT_DIR] nor the default output directory has
    any effect on [generateImage] and [generateImageGlm].  An edited
    image never goes to the project directory: neither [PROJECT_DIR] nor
    the working directory has any effect on [editImage]. *)
Theorem directory_settings_do_not_mix
    (E : Engine) (W : World) (env env1 env2 : gmap string string)
    generated_images generated_images1 cwd cwd2
    prompt imagePath saveToFilePath model imageConfig size :
  cwd ≠ EmptyString ->
  (forall x, x ≠ "OUTPUT_DIR" -> env1 !! x = env !! x) ->
  (forall x, x ≠ "PROJECT_DIR" -> env2 !! x = env !! x) ->
  generateImage E W (API_CONFIG_from env1 generated_images1 cwd)
    prompt saveToFilePath model imageConfig
  = generateImage E W (API_CONFIG_from env generated_images cwd)
      prompt saveToFilePath model imageConfig /\
  generateImageGlm E W (API_CONFIG_from env1 generated_images1 cwd)
    prompt saveToFilePath size
  = generateImageGlm E W (API_CONFIG_from env generated_images cwd)
      prompt saveToFilePath size /\
  editImage E W (API_CONFIG_from env2 generated_images cwd2)
    imagePath prompt saveToFilePath model imageConfig
  = editImage E W (API_CONFIG_from env generated_images cwd)
      imagePath prompt saveToFilePath model imageConfig.
Proof.
  intros Hcwd H1 H2.
  assert (Htarget : targetDir (API_CONFIG_from env1 generated_images1 cwd)
                    = targetDir (API_CONFIG_from env generated_images cwd)).
  { rewrite !targetDir_project by (by apply env_or_nonempty). simpl.
    by apply env_or_agree, H1. }
  split_and!.
  - apply generateImage_reads; [| |done]; simpl.
    + unfold chat_url. by rewrite H1.
    + by apply env_or_agree, H1.
  - apply generateImageGlm_reads; [| | |done]; simpl; [done| |done].
    by apply env_or_agree, H1.
  - apply editImage_reads; simpl.
    + unfold chat_url. by rewrite H2.
    + by apply env_or_agree, H2.
    + by apply env_or_agree, H2.
Qed.

End ConfigProperties.

(** ** The tool-call handler *)

Section ToolProperties.

Variable E : Engine.
Variable W : World.
Variable API_CONFIG : Config.
Variables imagesToPdf imagesToPptx : value -> value -> M value.

Local Abbreviation tool_body :=
  (tool_body E W API_CONFIG imagesToPdf imagesToPptx).
Local Abbreviation callTool :=
  (callTool E W API_CONFIG imagesToPdf imagesToPptx).

Lemma callTool_of_body name args sched body :
  tool_body name args sched = Some body ->
  callTool name args sched =
    Some (body.1,
          Ok match body.2 with
             | Ok result => {| payload := result; isError := false |}
             | Throw error => tool_error name error
             end).
Proof.
  intros Hbody. unfold callTool. rewrite Hbody. simpl.
  destruct body as [t [r|e]]; simpl; by rewrite app_nil_r.
Qed.

Lemma string_or_in_schema {A} (v : value) (f : string -> A) (d : A) :
  string_or_falsy v = true ->
  is_Some (if truthy v then match v with VStr s => Some (f s) | _ => None end
           else Some d).
Proof.
  intros H. destruct (truthy v) eqn:Ht; [|eauto].
  destruct v; eauto; unfold string_or_falsy in H; rewrite Ht in H;
    discriminate.
Qed.

Lemma tool_image_config_in_schema args :
  args_in_schema args = true ->
  is_Some (tool_image_config (field "image_size" args)
                             (field "aspect_ratio" args)).
Proof.
  unfold args_in_schema, tool_image_config. intros H.
  apply andb_true_iff in H as [H _]. apply andb_true_iff in H as [H1 H2].
  destruct (string_or_in_schema _ (fun s => s) "2K" H1) as [size ->].
  destruct (string_or_in_schema _ Some None H2) as [ratio ->].
  simpl. eauto.
Qed.

Lemma tool_concurrency_in_schema args :
  args_in_schema args = true ->
  is_Some (tool_concurrency (field "concurrency" args)).
Proof.
  unfold args_in_schema, tool_concurrency. intros H.
  apply andb_true_iff in H as [_ H].
  destruct (truthy (field "concurrency" args)) eqn:Ht; [|eauto].
  destruct (field "concurrency" args); eauto;
    unfold number_or_falsy in H; rewrite Ht in H; discriminate.
Qed.

(** On such arguments the [switch] is covered by the embedding. *)
Lemma tool_body_in_schema name args sched :
  args_in_schema args = true ->
  is_Some (tool_body name args sched).
Proof.
  intros Hs.
  destruct (tool_image_config_in_schema args Hs) as [ic Hic].
  destruct (tool_concurrency_in_schema args Hs) as [c Hc].
  unfold tool_body, generate_case, edit_case, batch_case, convert_case,
    destructuring.
  rewrite Hic, Hc.
  repeat case_decide; destruct (nullish args); simpl; eauto;
    repeat match goal with
           | |- is_Some (if ?b then _ else _) => destruct b; simpl; eauto
           | |- is_Some (match ?v with VArr _ => _ | _ => _ end) =>
             destruct v as [| | | | |[|? ?]|]; simpl; eauto
           end.
Qed.

(** X11.  On arguments that have the types of the input schemas
    ([image_size] and [aspect_ratio] strings, [concurrency] a number, each
    possibly absent) the handler never throws, whatever the name, the
    other arguments and the converters are: it answers with a response,
    and a response flagged [isError] is the record
    [{success: false, error, tool}] naming the tool that was called. *)
Theorem callTool_always_answers name args sched :
  args_in_schema args = true ->
  exists t r,
    callTool name args sched = Some (t, Ok r) /\
    (isError r = true ->
     keys (payload r) = ["success"; "error"; "tool"] /\
     field "success" (payload r) = VBool false /\
     field "tool" (payload r) = VStr name).
Proof.
  intros Hs. destruct (tool_body_in_schema name args sched Hs) as [body Hb].
  rewrite (callTool_of_body _ _ _ _ Hb). eexists _, _. split; [done|].
  destruct body.2; simpl; [discriminate|done].
Qed.

(** X12.  A name that is not in the list of tools the server announces
    is answered with the error response that quotes the name, whatever
    the arguments are, and nothing is done. *)
Theorem unknown_tool_is_reported name args sched :
  name ∉ listed_tools.*1 ->
  callTool name args sched =
    Some ([], Ok (tool_error name (unknown_tool name))).
Proof.
  intros Hname. unfold listed_tools in Hname. simpl in Hname.
  rewrite !not_elem_of_cons in Hname.
  destruct Hname as (? & ? & ? & ? & ? & ? & ? & ? & ? & _).
  rewrite (callTool_of_body name args sched (throw (unknown_tool name)));
    [done|].
  unfold tool_body. by rewrite !decide_False by done.
Qed.

Lemma generate_case_missing args call :
  nullish args = false ->
  truthy (field "prompt" args) = false ->
  generate_case E args call = Some (throw (missing_argument "prompt")).
Proof.
  intros Hargs Hp. unfold generate_case, destructuring. by rewrite Hargs, Hp.
Qed.

Lemma edit_case_missing args call :
  nullish args = false ->
  (truthy (field "imagePath" args) && truthy (field "editPrompt" args))%bool
    = false ->
  edit_case E args call
    = Some (throw (missing_argument "imagePath 或 editPrompt")).
Proof.
  intros Hargs Hp. unfold edit_case, destructuring.
  by rewrite Hargs, <- negb_andb, Hp.
Qed.

Lemma batch_case_missing args call :
  nullish args = false ->
  is_nonempty_array (field "requests" args) = false ->
  batch_case E args call = Some (throw (missing_argument "requests (数组)")).
Proof.
  intros Hargs Hp. unfold batch_case, destructuring. rewrite Hargs.
  by destruct (field "requests" args) as [| | | | |[|? ?]|].
Qed.

Lemma convert_case_missing args kind convert :
  nullish args = false ->
  (truthy (field "imagePaths" args) && truthy (field "outputPath" args))%bool
    = false ->
  exists what,
    convert_case E args kind convert = Some (throw (missing_argument what)).
Proof.
  intros Hargs Hp. unfold convert_case, destructuring. rewrite Hargs.
  destruct (is_nonempty_array (field "imagePaths" args)) eqn:Ha; simpl;
    [|eauto].
  assert (Ht : truthy (field "imagePaths" args) = true)
    by (by destruct (field "imagePaths" args)).
  rewrite Ht in Hp. simpl in Hp. rewrite Hp. simpl. eauto.
Qed.

Lemma falsy_not_array v : truthy v = false -> is_nonempty_array v = false.
Proof. by destruct v. Qed.

(** Without an arguments object every listed tool throws at the
    destructuring of its first required argument. *)
Lemma tool_body_without_arguments name required args sched :
  (name, required) ∈ listed_tools ->
  nullish args = true ->
  exists first,
    first ∈ required /\
    tool_body name args sched = Some (throw (TypeError_read E first)).
Proof.
  intros Hname Hargs. unfold listed_tools in Hname.
  rewrite !elem_of_cons in Hname.
  unfold tool_body, generate_case, edit_case, batch_case, convert_case,
    destructuring.
  rewrite Hargs.
  destruct Hname as [H|[H|[H|[H|[H|[H|[H|[H|[H|H]]]]]]]]];
    [..|by apply elem_of_nil in H];
    inversion H; subst name required; clear H; simpl;
    eexists; (split; [apply list_elem_of_here|reflexivity]).
Qed.

(** X13.  Every argument that the announced list of tools declares as
    required is enforced by the handler: whichever of the nine tools is
    called, if one of its required arguments is absent or otherwise falsy
    the call is answered with the error response [{success: false, error,
    tool}] flagged [isError], and nothing is done: no request is sent, no
    file is read or written, no converter is called.  When an arguments
    object was sent, [error] is the message '缺少必需的参数: ...'; when
    none was sent ([arguments] is [undefined] or [null]), [error] is the
    message of the [TypeError] that the destructuring of the first
    required argument raises. *)
Theorem required_arguments_are_enforced name required k args sched :
  (name, required) ∈ listed_tools ->
  k ∈ required ->
  truthy (field k args) = false ->
  exists r,
    callTool name args sched = Some ([], Ok r) /\
    isError r = true /\
    keys (payload r) = ["success"; "error"; "tool"] /\
    field "success" (payload r) = VBool false /\
    field "tool" (payload r) = VStr name /\
    (nullish args = false ->
     exists what,
       field "error" (payload r) = VStr ("缺少必需的参数: " +:+ what)) /\
    (nullish args = true ->
     exists first,
       first ∈ required /\
       field "error" (payload r) = VStr (emessage (TypeError_read E first))).
Proof.
  intros Hname Hk Hfalsy.
  destruct (nullish args) eqn:Hargs.
  { destruct (tool_body_without_arguments name required args sched Hname
                Hargs) as (first & Hfirst & Hb).
    rewrite (callTool_of_body _ _ _ _ Hb). simpl.
    eexists. split; [reflexivity|]. split_and!; try done.
    intros _. by exists first. }
  assert (Hbody : exists what,
            tool_body name args sched = Some (throw (missing_argument what))).
  { unfold listed_tools in Hname. rewrite !elem_of_cons in Hname.
    unfold tool_body.
    destruct Hname as [H|[H|[H|[H|[H|[H|[H|[H|[H|H]]]]]]]]];
      [..|by apply elem_of_nil in H];
      inversion H; subst name required; clear H; simpl;
      rewrite !elem_of_cons in Hk.
    - destruct Hk as [->|Hk]; [|by apply elem_of_nil in Hk].
      rewrite generate_case_missing by done. eauto.
    - destruct Hk as [->|Hk]; [|by apply elem_of_nil in Hk].
      rewrite generate_case_missing by done. eauto.
    - rewrite edit_case_missing; [eauto|done|].
      destruct Hk as [->|[->|Hk]]; [| |by apply elem_of_nil in Hk];
        rewrite Hfalsy; [done|apply andb_false_r].
    - rewrite edit_case_missing; [eauto|done|].
      destruct Hk as [->|[->|Hk]]; [| |by apply elem_of_nil in Hk];
        rewrite Hfalsy; [done|apply andb_false_r].
    - destruct Hk as [->|Hk]; [|by apply elem_of_nil in Hk].
      rewrite generate_case_missing by done. eauto.
    - destruct Hk as [->|Hk]; [|by apply elem_of_nil in Hk].
      rewrite batch_case_missing by auto using falsy_not_array. eauto.
    - destruct Hk as [->|Hk]; [|by apply elem_of_nil in Hk].
      rewrite batch_case_missing by auto using falsy_not_array. eauto.
    - apply convert_case_missing; [done|].
      destruct Hk as [->|[->|Hk]]; [| |by apply elem_of_nil in Hk];
        rewrite Hfalsy; [done|apply andb_false_r].
    - apply convert_case_missing; [done|].
      destruct Hk as [->|[->|Hk]]; [| |by apply elem_of_nil in Hk];
        rewrite Hfalsy; [done|apply andb_false_r]. }
  destruct Hbody as [what Hb].
  rewrite (callTool_of_body _ _ _ _ Hb). simpl.
  eexists. split; [reflexivity|]. split_and!; try done.
  intros _. by exists what.
Qed.

(** The record of a job function, as the tools see it. *)
Lemma job_record_generate prompt saveToFilePath model imageConfig :
  exists t r rest,
    generateImage E W API_CONFIG prompt saveToFilePath model imageConfig
      = (t, Ok r) /\
    (success_shape rest r \/ failure_shape rest r).
Proof.
  destruct (generateImage_shape E W API_CONFIG prompt saveToFilePath model
              imageConfig) as (t & r & H & Hs & _).
  eauto 6.
Qed.

Lemma job_record_glm prompt saveToFilePath size :
  exists t r rest,
    generateImageGlm E W API_CONFIG prompt saveToFilePath size = (t, Ok r) /\
    (success_shape rest r \/ failure_shape rest r).
Proof.
  destruct (generateImageGlm_shape E W API_CONFIG prompt saveToFilePath size)
    as (t & r & H & Hs & _).
  eauto 6.
Qed.

Lemma job_record_edit imagePath editPrompt saveToFilePath model imageConfig :
  exists t r rest,
    editImage E W API_CONFIG imagePath editPrompt saveToFilePath model
      imageConfig = (t, Ok r) /\
    (success_shape rest r \/ failure_shape rest r).
Proof.
  destruct (editImage_shape E W API_CONFIG imagePath editPrompt saveToFilePath
              model imageConfig) as (t & r & H & Hs & _).
  eauto 6.
Qed.

Lemma truthy_field_object k args :
  truthy (field k args) = true -> nullish args = false.
Proof. by destruct args. Qed.

(** The configuration built by the tools, by its properties. *)
Lemma tool_image_config_spec size ratio ic :
  tool_image_config size ratio = Some ic ->
  is_tool_image_config size ratio ic.
Proof.
  unfold tool_image_config, is_tool_image_config. intros H.
  destruct (truthy size) eqn:Hs.
  - destruct size as [| | | |s| |]; try discriminate.
    destruct (truthy ratio) eqn:Hr.
    + destruct ratio as [| | | |q| |]; try discriminate.
      inversion H; subst ic. simpl. split_and!; try done; congruence.
    + inversion H; subst ic. simpl. split_and!; try done; congruence.
  - destruct (truthy ratio) eqn:Hr.
    + destruct ratio as [| | | |q| |]; try discriminate.
      inversion H; subst ic. simpl. split_and!; try done; congruence.
    + inversion H; subst ic. simpl. split_and!; try done; congruence.
Qed.

(** X14.  A generation or an edit that fails is not a tool error: once
    the required arguments are there, each of the five single-image tools
    answers without [isError] and with the very record that its job
    function returns on the arguments of the call ([generateImage] with
    the nano-banana model and the image configuration built from
    [image_size] and [aspect_ratio], or with the seedream model and no
    configuration; [generateImageGlm] with [size || '1280x1280'];
    [editImage] likewise), whether that record says [success: true] or
    [success: false]; the events of the call are those of the job
    function. *)
Theorem job_failure_is_not_a_tool_error name args sched :
  args_in_schema args = true ->
  (name ∈ ["generate_image_nano"; "generate_image_seedream";
           "generate_image_glm"] /\
   truthy (field "prompt" args) = true) \/
  (name ∈ ["edit_image_nano"; "edit_image_seedream"] /\
   truthy (field "imagePath" args) = true /\
   truthy (field "editPrompt" args) = true) ->
  exists t r rest imageConfig,
    callTool name args sched
      = Some (t, Ok {| payload := r; isError := false |}) /\
    (success_shape rest r \/ failure_shape rest r) /\
    is_tool_image_config (field "image_size" args)
      (field "aspect_ratio" args) imageConfig /\
    (name = "generate_image_nano" ->
     generateImage E W API_CONFIG (field "prompt" args)
       (or_null (field "saveToFilePath" args))
       (modelNanoBanana API_CONFIG) (Some imageConfig) = (t, Ok r)) /\
    (name = "generate_image_seedream" ->
     generateImage E W API_CONFIG (field "prompt" args)
       (or_null (field "saveToFilePath" args))
       (modelSeedream API_CONFIG) None = (t, Ok r)) /\
    (name = "generate_image_glm" ->
     generateImageGlm E W API_CONFIG (field "prompt" args)
       (or_null (field "saveToFilePath" args))
       (value_or (VStr "1280x1280") (field "size" args)) = (t, Ok r)) /\
    (name = "edit_image_nano" ->
     editImage E W API_CONFIG (field "imagePath" args)
       (field "editPrompt" args) (or_null (field "saveToFilePath" args))
       (modelNanoBanana API_CONFIG) (Some imageConfig) = (t, Ok r)) /\
    (name = "edit_image_seedream" ->
     editImage E W API_CONFIG (field "imagePath" args)
       (field "editPrompt" args) (or_null (field "saveToFilePath" args))
       (modelSeedream API_CONFIG) None = (t, Ok r)).
Proof.
  intros Hs Hcase.
  destruct (tool_image_config_in_schema args Hs) as [ic Hic].
  pose proof (tool_image_config_spec _ _ _ Hic) as Hspec.
  assert (Hbody : exists t r rest,
            tool_body name args sched = Some (t, Ok r) /\
            (success_shape rest r \/ failure_shape rest r) /\
            (name = "generate_image_nano" ->
             generateImage E W API_CONFIG (field "prompt" args)
               (or_null (field "saveToFilePath" args))
               (modelNanoBanana API_CONFIG) (Some ic) = (t, Ok r)) /\
            (name = "generate_image_seedream" ->
             generateImage E W API_CONFIG (field "prompt" args)
               (or_null (field "saveToFilePath" args))
               (modelSeedream API_CONFIG) None = (t, Ok r)) /\
            (name = "generate_image_glm" ->
             generateImageGlm E W API_CONFIG (field "prompt" args)
               (or_null (field "saveToFilePath" args))
               (value_or (VStr "1280x1280") (field "size" args))
             = (t, Ok r)) /\
            (name = "edit_image_nano" ->
             editImage E W API_CONFIG (field "imagePath" args)
               (field "editPrompt" args)
               (or_null (field "saveToFilePath" args))
               (modelNanoBanana API_CONFIG) (Some ic) = (t, Ok r)) /\
            (name = "edit_image_seedream" ->
             editImage E W API_CONFIG (field "imagePath" args)
               (field "editPrompt" args)
               (or_null (field "saveToFilePath" args))
               (modelSeedream API_CONFIG) None = (t, Ok r))).
  { unfold tool_body, generate_case, edit_case, destructuring.
    destruct Hcase as [[Hname Hp]|(Hname & Hi & Hp)].
    - rewrite (truthy_field_object _ _ Hp), Hp, Hic.
      rewrite !elem_of_cons in Hname.
      destruct Hname as [->|[->|[->|Hn]]]; [| | |by apply elem_of_nil in Hn];
        simpl.
      + destruct (job_record_generate (field "prompt" args)
                    (or_null (field "saveToFilePath" args))
                    (modelNanoBanana API_CONFIG) (Some ic))
          as (t & r & rest & Hr & ?).
        exists t, r, rest. rewrite Hr. split_and!; done.
      + destruct (job_record_generate (field "prompt" args)
                    (or_null (field "saveToFilePath" args))
                    (modelSeedream API_CONFIG) None)
          as (t & r & rest & Hr & ?).
        exists t, r, rest. rewrite Hr. split_and!; done.
      + destruct (job_record_glm (field "prompt" args)
                    (or_null (field "saveToFilePath" args))
                    (value_or (VStr "1280x1280") (field "size" args)))
          as (t & r & rest & Hr & ?).
        exists t, r, rest. rewrite Hr. split_and!; done.
    - rewrite (truthy_field_object _ _ Hp), Hp, Hi, Hic.
      rewrite !elem_of_cons in Hname.
      destruct Hname as [->|[->|Hn]]; [| |by apply elem_of_nil in Hn]; simpl.
      + destruct (job_record_edit (field "imagePath" args)
                    (field "editPrompt" args)
                    (or_null (field "saveToFilePath" args))
                    (modelNanoBanana API_CONFIG) (Some ic))
          as (t & r & rest & Hr & ?).
        exists t, r, rest. rewrite Hr. split_and!; done.
      + destruct (job_record_edit (field "imagePath" args)
                    (field "editPrompt" args)
                    (or_null (field "saveToFilePath" args))
                    (modelSeedream API_CONFIG) None)
          as (t & r & rest & Hr & ?).
        exists t, r, rest. rewrite Hr. split_and!; done. }
  destruct Hbody as (t & r & rest & Hb & Hshape & Hcalls).
  rewrite (callTool_of_body _ _ _ _ Hb). simpl.
  exists t, r, rest, ic. split_and!; try done; apply Hcalls.
Qed.

(** The records of a batch are objects when those of the job function
    are. *)
Lemma batch_results_objects (single : value -> value -> M value) catch_rest
    jobs :
  (forall p s, exists t r, single p s = (t, Ok r) /\ nullish r = false) ->
  Forall (fun r => nullish r = false)
    (batch_results single catch_rest jobs).
Proof.
  intros Hsingle. induction jobs as [|j jobs IH]; [constructor|].
  change (batch_results single catch_rest (j :: jobs))
    with (job_result single catch_rest j
          ++ batch_results single catch_rest jobs).
  apply Forall_app. split; [|done].
  unfold job_result, settle.
  destruct (get j "prompt") as [p|]; [|constructor].
  destruct (get j "saveToFilePath") as [s|]; [|constructor].
  destruct (truthy p); [|by repeat constructor].
  destruct (Hsingle p s) as (t & r & -> & Hr). by repeat constructor.
Qed.

Lemma shaped_record_object rest r :
  success_shape rest r \/ failure_shape rest r -> nullish r = false.
Proof. intros [[H _]|[H _]]; by destruct r. Qed.

Lemma every_success_objects results :
  Forall (fun r => nullish r = false) results ->
  every_success E results
    = Ok (forallb (fun r => truthy (field "success" r)) results).
Proof.
  induction 1 as [|r results Hr _ IH]; [done|]. simpl.
  assert (Hget : get r "success" = Some (field "success" r))
    by (by destruct r).
  rewrite Hget. by destruct (truthy (field "success" r)).
Qed.

(** What a batch tool answers when its batch returns. *)
Lemma batch_case_answer args jobs call (run : batch_run) results :
  nullish args = false ->
  field "requests" args = VArr jobs ->
  jobs ≠ [] ->
  call jobs = Some run ->
  returned run = Ok results ->
  Forall (fun r => nullish r = false) results ->
  batch_case E args call =
    Some (events run,
          Ok (VObj [("success",
                     VBool (forallb (fun r => truthy (field "success" r))
                              results));
                    ("results", VArr results)])).
Proof.
  intros Hargs Hreq Hne Hcall Hret Hobj.
  unfold batch_case, destructuring. rewrite Hargs, Hreq.
  destruct jobs as [|job rest]; [done|]. rewrite Hcall. simpl.
  rewrite Hret. cbv beta iota. unfold batch_payload, lift.
  rewrite (every_success_objects _ Hobj). simpl.
  by rewrite app_nil_r.
Qed.

Lemma nonempty_requests_object args jobs :
  field "requests" args = VArr jobs -> nullish args = false.
Proof. by destruct args. Qed.

(** X15.  A negative [concurrency] makes the batch tools answer
    [{success: true, results: []}] without [isError] and without doing
    anything: no job of the request is run and none is reported. *)
Theorem batch_tool_negative_concurrency name args sched jobs n :
  name ∈ ["generate_image_batch"; "generate_image_glm_batch"] ->
  args_in_schema args = true ->
  field "requests" args = VArr jobs ->
  jobs ≠ [] ->
  field "concurrency" args = VNum n ->
  n < 0 ->
  callTool name args sched =
    Some ([], Ok {| payload := VObj [("success", VBool true);
                                     ("results", VArr [])];
                    isError := false |}).
Proof.
  intros Hname Hs Hreq Hne Hconc Hn.
  destruct (tool_image_config_in_schema args Hs) as [ic Hic].
  assert (Hc : tool_concurrency (field "concurrency" args) = Some n).
  { rewrite Hconc. unfold tool_concurrency. simpl.
    destruct (Z.eqb_spec n 0); [lia|done]. }
  pose proof (nonempty_requests_object _ _ Hreq) as Hargs.
  assert (Hstore : requests_store jobs !! requests_loc = Some jobs)
    by apply lookup_singleton_eq.
  rewrite !elem_of_cons in Hname.
  destruct Hname as [->|[->|Hx]]; [| |by apply elem_of_nil in Hx].
  - destruct (run_batch_no_worker E
                (fun prompt saveToFilePath =>
                   generateImage E W API_CONFIG prompt saveToFilePath
                     (if is_str "seedream-4.5" (field "model" args)
                      then modelSeedream API_CONFIG
                      else modelNanoBanana API_CONFIG)
                     (if decide ((if is_str "seedream-4.5" (field "model" args)
                                  then modelSeedream API_CONFIG
                                  else modelNanoBanana API_CONFIG)
                                 = modelNanoBanana API_CONFIG)
                      then Some ic else None))
                [] (requests_store jobs) requests_loc jobs n sched
                Hstore Hne) as [Hret Hev]; [lia|].
    erewrite callTool_of_body.
    2:{ unfold tool_body. simpl.
        eapply (batch_case_answer args jobs _ _ [] Hargs Hreq Hne);
          [|exact Hret|constructor].
        rewrite Hic, Hc. by case_decide. }
    simpl. unfold generateImageBatch. by rewrite Hev.
  - destruct (run_batch_no_worker E
                (fun prompt saveToFilePath =>
                   generateImageGlm E W API_CONFIG prompt saveToFilePath
                     (value_or (VStr "1280x1280") (field "size" args)))
                [("model", VStr "glm-image")]
                (requests_store jobs) requests_loc jobs n sched
                Hstore Hne) as [Hret Hev]; [lia|].
    erewrite callTool_of_body.
    2:{ unfold tool_body. simpl.
        eapply (batch_case_answer args jobs _ _ [] Hargs Hreq Hne);
          [|exact Hret|constructor].
        by rewrite Hc. }
    simpl. unfold generateImageGlmBatch. by rewrite Hev.
Qed.

(** X16.  With a [concurrency] that is absent or otherwise falsy (the
    pool then has 3 workers) or a whole number of at least 1, the batch
    tools answer with exactly one record per job, whatever the order in
    which the calls complete, and never with [isError]: [results] is, up
    to order, one record for each job, which is the record that the job
    function of the tool returns on the prompt and the path of that job
    (the immediate failure for a job without prompt), and [success] is
    [true] exactly when every record has a truthy [success].  The job
    function is [generateImageGlm] with [size || '1280x1280'] for the GLM
    tool; for the other it is [generateImage] with the seedream model
    when [model] is ['seedream-4.5'] and with the nano-banana model
    otherwise, and with the image configuration built from [image_size]
    and [aspect_ratio] when the model selected is the nano-banana one. *)
Theorem batch_tool_answers_every_job name args sched jobs :
  name ∈ ["generate_image_batch"; "generate_image_glm_batch"] ->
  args_in_schema args = true ->
  field "requests" args = VArr jobs ->
  jobs ≠ [] ->
  Forall (fun j => nullish j = false) jobs ->
  truthy (field "concurrency" args) = false \/
  (exists n, field "concurrency" args = VNum n /\ 1 <= n) ->
  exists t results records imageConfig,
    callTool name args sched =
      Some (t, Ok {| payload :=
                       VObj [("success",
                              VBool (forallb
                                       (fun r => truthy (field "success" r))
                                       results));
                             ("results", VArr results)];
                     isError := false |}) /\
    length results = length jobs /\
    results ≡ₚ records /\
    is_tool_image_config (field "image_size" args)
      (field "aspect_ratio" args) imageConfig /\
    (name = "generate_image_batch" ->
     is_str "seedream-4.5" (field "model" args) = false ->
     Forall2
       (record_of_job
          (fun prompt saveToFilePath =>
             generateImage E W API_CONFIG prompt saveToFilePath
               (modelNanoBanana API_CONFIG) (Some imageConfig)))
       jobs records) /\
    (name = "generate_image_batch" ->
     is_str "seedream-4.5" (field "model" args) = true ->
     Forall2
       (record_of_job
          (fun prompt saveToFilePath =>
             generateImage E W API_CONFIG prompt saveToFilePath
               (modelSeedream API_CONFIG)
               (if decide (modelSeedream API_CONFIG
                           = modelNanoBanana API_CONFIG)
                then Some imageConfig else None)))
       jobs records) /\
    (name = "generate_image_glm_batch" ->
     Forall2
       (record_of_job
          (fun prompt saveToFilePath =>
             generateImageGlm E W API_CONFIG prompt saveToFilePath
               (value_or (VStr "1280x1280") (field "size" args))))
       jobs records).
Proof.
  intros Hname Hs Hreq Hne Hjobs Hconc.
  destruct (tool_image_config_in_schema args Hs) as [ic Hic].
  pose proof (tool_image_config_spec _ _ _ Hic) as Hspec.
  assert (Hc : exists c, tool_concurrency (field "concurrency" args) = Some c
                         /\ 1 <= c).
  { unfold tool_concurrency. destruct Hconc as [Hf|(n & Hn & Hn1)].
    - rewrite Hf. exists 3. split; [done|lia].
    - rewrite Hn. exists n. split; [|done]. simpl.
      destruct (Z.eqb_spec n 0); [lia|done]. }
  destruct Hc as (c & Hc & Hc1).
  pose proof (nonempty_requests_object _ _ Hreq) as Hargs.
  assert (Hstore : requests_store jobs !! requests_loc = Some jobs)
    by apply lookup_singleton_eq.
  assert (Hall : forall single rest call,
    (forall p s, exists t r, single p s = (t, Ok r) /\ nullish r = false) ->
    call jobs = Some (run_batch E single rest (requests_store jobs)
                        requests_loc c sched) ->
    exists t results records,
      batch_case E args call =
        Some (t, Ok (VObj [("success",
                            VBool (forallb
                                     (fun r => truthy (field "success" r))
                                     results));
                           ("results", VArr results)])) /\
      length results = length jobs /\
      results ≡ₚ records /\
      Forall2 (record_of_job single) jobs records).
  { intros single rest call Hsingle Hcall.
    destruct (run_batch_complete E single rest (requests_store jobs)
                requests_loc jobs c sched Hstore Hne Hjobs Hc1)
      as (res & Hret & Hperm & _).
    exists (events (run_batch E single rest (requests_store jobs)
                      requests_loc c sched)), res,
           (batch_results single rest jobs).
    split_and!.
    - apply (batch_case_answer args jobs call _ res Hargs Hreq Hne Hcall Hret).
      rewrite Hperm. by apply batch_results_objects.
    - by rewrite Hperm, batch_results_length.
    - done.
    - apply batch_results_owed; [|done].
      intros p s. destruct (Hsingle p s) as (t & r & Hr & _). eauto. }
  rewrite !elem_of_cons in Hname.
  destruct Hname as [->|[->|Hx]]; [| |by apply elem_of_nil in Hx].
  - destruct (Hall
               (fun prompt saveToFilePath =>
                  generateImage E W API_CONFIG prompt saveToFilePath
                    (if is_str "seedream-4.5" (field "model" args)
                     then modelSeedream API_CONFIG
                     else modelNanoBanana API_CONFIG)
                    (if decide ((if is_str "seedream-4.5" (field "model" args)
                                 then modelSeedream API_CONFIG
                                 else modelNanoBanana API_CONFIG)
                                = modelNanoBanana API_CONFIG)
                     then Some ic else None)) []
               (fun jobs0 =>
                  imageConfig ←
                    (if decide ((if is_str "seedream-4.5" (field "model" args)
                                 then modelSeedream API_CONFIG
                                 else modelNanoBanana API_CONFIG)
                                = modelNanoBanana API_CONFIG)
                     then Some <$> tool_image_config (field "image_size" args)
                                     (field "aspect_ratio" args)
                     else Some None);
                  concurrency ← tool_concurrency (field "concurrency" args);
                  Some (generateImageBatch E W API_CONFIG
                          (requests_store jobs0) requests_loc concurrency
                          (if is_str "seedream-4.5" (field "model" args)
                           then modelSeedream API_CONFIG
                           else modelNanoBanana API_CONFIG)
                          imageConfig sched)))
      as (t & results & records & Hb & Hlen & Hperm & Howed).
    + intros p s.
      destruct (job_record_generate p s
                  (if is_str "seedream-4.5" (field "model" args)
                   then modelSeedream API_CONFIG
                   else modelNanoBanana API_CONFIG)
                  (if decide ((if is_str "seedream-4.5" (field "model" args)
                               then modelSeedream API_CONFIG
                               else modelNanoBanana API_CONFIG)
                              = modelNanoBanana API_CONFIG)
                   then Some ic else None))
        as (t & r & rest & Hr & Hshape).
      exists t, r. split; [done|by eapply shaped_record_object].
    + rewrite Hic, Hc. unfold generateImageBatch. by case_decide.
    + assert (Hbody : tool_body "generate_image_batch" args sched
                      = Some (t, Ok (VObj [("success",
                            VBool (forallb
                                     (fun r => truthy (field "success" r))
                                     results));
                           ("results", VArr results)])))
        by (unfold tool_body; simpl; exact Hb).
      rewrite (callTool_of_body _ _ _ _ Hbody). simpl.
      exists t, results, records, ic. split_and!; try done.
      * intros _ Hm. rewrite Hm in Howed.
        by rewrite decide_True in Howed by done.
      * intros _ Hm. by rewrite Hm in Howed.
  - destruct (Hall
               (fun prompt saveToFilePath =>
                  generateImageGlm E W API_CONFIG prompt saveToFilePath
                    (value_or (VStr "1280x1280") (field "size" args)))
               [("model", VStr "glm-image")]
               (fun jobs0 =>
                  concurrency ← tool_concurrency (field "concurrency" args);
                  Some (generateImageGlmBatch E W API_CONFIG
                          (requests_store jobs0) requests_loc concurrency
                          (value_or (VStr "1280x1280") (field "size" args))
                          sched)))
      as (t & results & records & Hb & Hlen & Hperm & Howed).
    + intros p s.
      destruct (job_record_glm p s
                  (value_or (VStr "1280x1280") (field "size" args)))
        as (t & r & rest & Hr & Hshape).
      exists t, r. split; [done|by eapply shaped_record_object].
    + rewrite Hc. unfold generateImageGlmBatch. reflexivity.
    + assert (Hbody : tool_body "generate_image_glm_batch" args sched
                      = Some (t, Ok (VObj [("success",
                            VBool (forallb
                                     (fun r => truthy (field "success" r))
                                     results));
                           ("results", VArr results)])))
        by (unfold tool_body; simpl; exact Hb).
      rewrite (callTool_of_body _ _ _ _ Hbody). simpl.
      exists t, results, records, ic. split_and!; done.
Qed.

End ToolProperties.

(** ** The patterns of the resolver *)

Section PatternProperties.
Import JsString Regex.

Lemma append_cons c s t : String c s +:+ t = String c (s +:+ t).
Proof. reflexivity. Qed.

Lemma from_semicolon_cons c r :
  from_semicolon (String c r)
  = if char_is c ";" then Some (String c r) else from_semicolon r.
Proof. reflexivity. Qed.

Lemma from_semicolon_append mime rest :
  from_semicolon mime = None ->
  from_semicolon (mime +:+ String ";" rest) = Some (String ";" rest).
Proof.
  induction mime as [|c mime IH]; intros H; [done|].
  rewrite append_cons, from_semicolon_cons. rewrite from_semicolon_cons in H.
  destruct (char_is c ";"); [discriminate|auto].
Qed.

Lemma from_semicolon_split s : forall u,
  from_semicolon s = Some u ->
  exists mime rest,
    s = mime +:+ u /\ u = String ";" rest /\ from_semicolon mime = None.
Proof.
  induction s as [|c s IH]; intros u H; [discriminate|].
  rewrite from_semicolon_cons in H.
  destruct (char_is c ";") eqn:Hc.
  - inversion H; subst u. exists EmptyString, s. split_and!; [done| |done].
    unfold char_is in Hc. by destruct (decide (c = ";"%char)) as [->|].
  - destruct (IH u H) as (mime & rest & -> & -> & Hm).
    exists (String c mime), rest. split_and!; [done..|].
    by rewrite from_semicolon_cons, Hc.
Qed.

(** The head of a data-URL is recognised, and nothing else is. *)
Lemma dataurl_head_build mime rest :
  mime ≠ EmptyString ->
  from_semicolon mime = None ->
  dataurl_head ("data:image/" +:+ mime +:+ ";base64," +:+ rest) = Some rest.
Proof.
  intros Hne Hm. unfold dataurl_head.
  rewrite startsWith_append.
  change 11%nat with (String.length "data:image/"). rewrite drop_append.
  destruct mime as [|c mime]; [done|].
  rewrite append_cons.
  assert (Hc : char_is c ";" = false).
  { rewrite from_semicolon_cons in Hm. by destruct (char_is c ";"). }
  rewrite Hc. rewrite <- append_cons.
  change (";base64," +:+ rest) with (String ";" ("base64," +:+ rest)).
  rewrite (from_semicolon_append _ _ Hm).
  change (String ";" ("base64," +:+ rest)) with (";base64," +:+ rest).
  rewrite startsWith_append.
  change 8%nat with (String.length ";base64,"). by rewrite drop_append.
Qed.

Lemma dataurl_head_inv s rest :
  dataurl_head s = Some rest ->
  exists mime,
    s = "data:image/" +:+ mime +:+ ";base64," +:+ rest /\
    mime ≠ EmptyString /\ from_semicolon mime = None.
Proof.
  unfold dataurl_head. intros H.
  destruct (startsWith "data:image/" s) eqn:Hs; [|discriminate].
  apply startsWith_spec in Hs as [t ->].
  change 11%nat with (String.length "data:image/") in H.
  rewrite drop_append in H.
  destruct t as [|c t]; [discriminate|].
  destruct (char_is c ";") eqn:Hc; [discriminate|].
  destruct (from_semicolon (String c t)) as [u|] eqn:Hu; [|discriminate].
  destruct (startsWith ";base64," u) eqn:Hb; [|discriminate].
  apply startsWith_spec in Hb as [r ->].
  change 8%nat with (String.length ";base64,") in H.
  rewrite drop_append in H. inversion H; subst r. clear H.
  apply from_semicolon_split in Hu as (mime & rest' & Heq & _ & Hm).
  exists mime. rewrite Heq. split_and!; [done| |done].
  intros ->. simpl in Heq. inversion Heq; subst c. discriminate.
Qed.

Lemma span_split p s :
  exists rest,
    s = span p s +:+ rest /\
    span p (span p s) = span p s /\
    span p rest = EmptyString.
Proof.
  induction s as [|c s (rest & Hs & Hp & Hr)]; [by exists EmptyString|].
  simpl. destruct (p c) eqn:Hc.
  - exists rest. rewrite append_cons, <- Hs. simpl. by rewrite Hc, Hp.
  - exists (String c s). simpl. by rewrite Hc.
Qed.

Lemma dataurl_at_inv s payload :
  dataurl_at s = Some payload ->
  exists mime after,
    s = "data:image/" +:+ mime +:+ ";base64," +:+ payload +:+ after /\
    mime ≠ EmptyString /\ from_semicolon mime = None /\
    payload ≠ EmptyString /\
    span b64char payload = payload /\
    span b64char after = EmptyString.
Proof.
  unfold dataurl_at. intros H.
  destruct (dataurl_head s) as [r|] eqn:Hh; [|discriminate].
  apply dataurl_head_inv in Hh as (mime & -> & Hne & Hm).
  destruct (span_split b64char r) as (after & Hr & Hp & Ha).
  destruct (span b64char r) as [|c p] eqn:Hspan; [discriminate|].
  inversion H; subst payload. clear H.
  exists mime, after. rewrite Hr at 1. by split_and!.
Qed.

(** X17.  A data-URL found in text: when the scan of [fullContent]
    yields a payload, the text holds, somewhere, [data:image/], a media
    type without [;], [;base64,] and then the payload; the payload is not
    empty, consists of characters of the base64 alphabet only, and ends
    where the first other character stands. *)
Theorem scanned_payload_is_base64 text payload :
  match_dataurl text = Some payload ->
  exists before mime after,
    text = before +:+ "data:image/" +:+ mime +:+ ";base64,"
                  +:+ payload +:+ after /\
    mime ≠ EmptyString /\ from_semicolon mime = None /\
    payload ≠ EmptyString /\
    span b64char payload = payload /\
    span b64char after = EmptyString.
Proof.
  induction text as [|c text IH]; simpl.
  - discriminate.
  - destruct (dataurl_at (String c text)) as [p|] eqn:Hat.
    + intros H. inversion H; subst p.
      apply dataurl_at_inv in Hat as (mime & after & Heq & ?).
      exists EmptyString, mime, after. by rewrite Heq.
    + intros H. destruct (IH H) as (before & mime & after & -> & ?).
      exists (String c before), mime, after. by rewrite append_cons.
Qed.

(** X18.  The anchored pattern of [message.images] accepts every
    data-URL made of a media type and a payload, and returns the payload
    whole, whatever characters it has short of a line terminator; on the
    same URL the scan of the text returns only the leading characters of
    the base64 alphabet.  A payload in the URL-safe alphabet is thus kept
    by the first and cut by the second. *)
Theorem data_url_payload_round_trip mime payload :
  mime ≠ EmptyString ->
  from_semicolon mime = None ->
  payload ≠ EmptyString ->
  has_line_terminator payload = false ->
  match_dataurl_whole ("data:image/" +:+ mime +:+ ";base64," +:+ payload)
    = Some payload /\
  (span b64char payload ≠ EmptyString ->
   match_dataurl ("data:image/" +:+ mime +:+ ";base64," +:+ payload)
     = Some (span b64char payload)).
Proof.
  intros Hmime Hm Hp Hlt. split.
  - unfold match_dataurl_whole. rewrite (dataurl_head_build _ _ Hmime Hm).
    rewrite Hlt. by destruct payload.
  - intros Hspan.
    assert (Hat : dataurl_at ("data:image/" +:+ mime +:+ ";base64," +:+ payload)
                  = Some (span b64char payload)).
    { unfold dataurl_at. rewrite (dataurl_head_build _ _ Hmime Hm).
      by destruct (span b64char payload). }
    change ("data:image/" +:+ mime +:+ ";base64," +:+ payload)
      with (String "d" ("ata:image/" +:+ mime +:+ ";base64," +:+ payload))
      in *.
    simpl. by rewrite Hat.
Qed.

(** *** The URL pattern *)

Lemma startsWith_ci_inv p : forall s,
  startsWith_ci p s = true ->
  exists q t,
    s = q +:+ t /\ lowercase q = lowercase p /\
    String.length q = String.length p.
Proof.
  induction p as [|a p IH]; intros s H.
  - by exists EmptyString, s.
  - destruct s as [|b s]; [discriminate|]. simpl in H.
    destruct (decide (lower a = lower b)) as [Hab|]; [|discriminate].
    destruct (IH s H) as (q & t & -> & Hq & Hl).
    exists (String b q), t. simpl. by rewrite Hq, Hl, Hab.
Qed.

Lemma first_ext_inv es s n :
  first_ext es s = Some n ->
  exists e q t,
    e ∈ es /\ s = q +:+ t /\ lowercase q = lowercase e /\
    String.length q = n.
Proof.
  induction es as [|e es IH]; [discriminate|]. simpl.
  destruct (startsWith_ci e s) eqn:He.
  - intros H. inversion H; subst n.
    apply startsWith_ci_inv in He as (q & t & -> & Hq & Hl).
    exists e, q, t. split_and!; [left|done..].
  - intros H. destruct (IH H) as (e' & q & t & Hin & ? & ? & ?).
    exists e', q, t. split_and!; [by right|done..].
Qed.

Lemma ext_at_inv s n :
  ext_at s = Some n ->
  exists e q t,
    e ∈ extensions /\ s = "." +:+ q +:+ t /\ lowercase q = e /\
    n = S (String.length q).
Proof.
  unfold ext_at. destruct s as [|c s]; [discriminate|].
  destruct (char_is c ".") eqn:Hc; [|discriminate].
  destruct (first_ext extensions s) as [m|] eqn:Hm; [|discriminate].
  intros H. inversion H; subst n.
  apply first_ext_inv in Hm as (e & q & t & Hin & -> & Hq & Hl).
  exists e, q, t. split_and!; [done| | |by rewrite Hl].
  - unfold char_is in Hc. by destruct (decide (c = "."%char)) as [->|].
  - rewrite Hq. unfold extensions in Hin.
    rewrite !elem_of_cons in Hin.
    destruct Hin as [->|[->|[->|[->|[->|Hn]]]]];
      [done..|by apply elem_of_nil in Hn].
Qed.

Lemma url_stop_false c s :
  url_stop (String c s) = false ->
  ascii_space c = false /\ c ≠ ")"%char.
Proof.
  unfold url_stop. intros H. apply orb_false_iff in H as [Hw Hp].
  split.
  - destruct (ascii_space c) eqn:Hs; [|done].
    unfold ws_len in Hw. rewrite Hs in Hw. discriminate.
  - intros ->. discriminate.
Qed.

(** The characters of [s] are neither ASCII white space nor [)]. *)
Local Abbreviation unbroken :=
  (fun s : string =>
     span (fun c => negb (ascii_space c) && bool_decide (c ≠ ")"%char))%bool s
     = s).

Lemma run_ext_cons c r :
  run_ext (String c r)
  = if url_stop (String c r) then None
    else match run_ext r with
         | Some n => Some (S n)
         | None => match ext_at r with
                   | Some n => Some (S n)
                   | None => None
                   end
         end.
Proof. reflexivity. Qed.

Lemma run_ext_inv s : forall n,
  run_ext s = Some n ->
  exists body e q t,
    s = body +:+ "." +:+ q +:+ t /\
    body ≠ EmptyString /\ unbroken body /\
    e ∈ extensions /\ lowercase q = e /\
    n = String.length (body +:+ "." +:+ q).
Proof.
  induction s as [|c s IH]; intros n H; [discriminate|].
  rewrite run_ext_cons in H.
  destruct (url_stop (String c s)) eqn:Hstop; [discriminate|].
  apply url_stop_false in Hstop as [Hsp Hpar].
  assert (Hc : (negb (ascii_space c) && bool_decide (c ≠ ")"%char))%bool
               = true).
  { rewrite Hsp. simpl. by apply bool_decide_eq_true_2. }
  destruct (run_ext s) as [m|] eqn:Hrun.
  - inversion H; subst n. clear H.
    destruct (IH m eq_refl) as (body & e & q & t & -> & Hb & Hu & He & Hq & ->).
    exists (String c body), e, q, t.
    split_and!; [done|done| |done|done|done].
    simpl. by rewrite Hc, Hu.
  - destruct (ext_at s) as [m|] eqn:Hext; [|discriminate].
    inversion H; subst n. clear H.
    apply ext_at_inv in Hext as (e & q & t & He & -> & Hq & ->).
    exists (String c EmptyString), e, q, t.
    split_and!; [done|done| |done|done|].
    + simpl. by rewrite Hc.
    + simpl. by rewrite length_append.
Qed.

Lemma take_append s t : take (String.length s) (s +:+ t) = s.
Proof.
  induction s as [|c s IH]; [by destruct t|].
  rewrite append_cons. simpl. by rewrite IH.
Qed.

Lemma url_after_scheme_inv scheme k r u :
  k = String.length scheme ->
  url_after_scheme (scheme +:+ r) k r = Some u ->
  exists body e q t,
    r = "://" +:+ body +:+ "." +:+ q +:+ t /\
    u = scheme +:+ "://" +:+ body +:+ "." +:+ q /\
    body ≠ EmptyString /\ unbroken body /\
    e ∈ extensions /\ lowercase q = e.
Proof.
  intros ->. unfold url_after_scheme.
  destruct (startsWith "://" r) eqn:Hs; [|discriminate].
  apply startsWith_spec in Hs as [r' ->].
  assert (Hd : drop 3 ("://" +:+ r') = r') by reflexivity.
  rewrite Hd.
  destruct (run_ext r') as [n|] eqn:Hrun; [|discriminate].
  intros H. inversion H; subst u. clear H.
  apply run_ext_inv in Hrun as (body & e & q & t & -> & Hb & Hu & He & Hq & ->).
  exists body, e, q, t. split_and!; try done.
  replace (String.length scheme + 3
           + String.length (body +:+ "." +:+ q))%nat
    with (String.length (scheme +:+ "://" +:+ body +:+ "." +:+ q))
    by (rewrite !length_append; simpl; lia).
  replace (scheme +:+ "://" +:+ body +:+ "." +:+ q +:+ t)
    with ((scheme +:+ "://" +:+ body +:+ "." +:+ q) +:+ t)
    by (by rewrite !append_assoc).
  apply take_append.
Qed.

Lemma lowercase_append a b :
  lowercase (a +:+ b) = lowercase a +:+ lowercase b.
Proof.
  induction a as [|c a IH]; [done|].
  rewrite append_cons. simpl. by rewrite IH.
Qed.

Lemma url_at_inv s u :
  url_at s = Some u ->
  exists scheme body e q t,
    s = u +:+ t /\
    u = scheme +:+ "://" +:+ body +:+ "." +:+ q /\
    lowercase scheme ∈ ["http"; "https"] /\
    body ≠ EmptyString /\ unbroken body /\
    e ∈ extensions /\ lowercase q = e.
Proof.
  unfold url_at.
  destruct (startsWith_ci "http" s) eqn:Hh; [|discriminate].
  apply startsWith_ci_inv in Hh as (q4 & r & -> & Hq4 & Hl4).
  assert (Hd4 : drop 4 (q4 +:+ r) = r).
  { change 4%nat with (String.length "http"). rewrite <- Hl4.
    apply drop_append. }
  cbv zeta. rewrite Hd4.
  assert (Hplain :
    url_after_scheme (q4 +:+ r) 4 r = Some u ->
    exists scheme body e q t,
      q4 +:+ r = u +:+ t /\
      u = scheme +:+ "://" +:+ body +:+ "." +:+ q /\
      lowercase scheme ∈ ["http"; "https"] /\
      body ≠ EmptyString /\ unbroken body /\
      e ∈ extensions /\ lowercase q = e).
  { intros H.
    apply url_after_scheme_inv in H
      as (body & e & q & t & -> & -> & Hb & Hu & He & Hq); [|done].
    exists q4, body, e, q, t. split_and!; try done.
    - by rewrite !append_assoc.
    - rewrite Hq4. left. }
  destruct (startsWith_ci "s" r) eqn:Hs; [|exact Hplain].
  apply startsWith_ci_inv in Hs as (q1 & r' & Hr & Hq1 & Hl1).
  assert (Hd1 : drop 1 r = r').
  { rewrite Hr. change 1%nat with (String.length "s"). rewrite <- Hl1.
    apply drop_append. }
  rewrite Hd1.
  destruct (url_after_scheme (q4 +:+ r) 5 r') as [u'|] eqn:Hsec;
    [|exact Hplain].
  intros H. inversion H; subst u'. clear H.
  rewrite Hr, <- append_assoc in Hsec.
  apply url_after_scheme_inv in Hsec
    as (body & e & q & t & -> & -> & Hb & Hu & He & Hq).
  2:{ rewrite length_append, Hl4, Hl1. reflexivity. }
  exists (q4 +:+ q1), body, e, q, t. rewrite Hr. split_and!; try done.
  - by rewrite !append_assoc.
  - rewrite lowercase_append, Hq4, Hq1. right. left.
Qed.

(** X19.  A URL found in text: when the scan of [fullContent] yields a
    URL, the text holds it, and it is made of [http] or [https] in any
    letter case, [://], a non-empty run of characters that has no ASCII
    white space and no closing parenthesis, a dot, and one of the five
    image extensions in any letter case. *)
Theorem scanned_url_is_an_image_url text u :
  match_url text = Some u ->
  exists before after scheme body ext,
    text = before +:+ u +:+ after /\
    u = scheme +:+ "://" +:+ body +:+ "." +:+ ext /\
    lowercase scheme ∈ ["http"; "https"] /\
    body ≠ EmptyString /\
    span (fun c => negb (ascii_space c) && bool_decide (c ≠ ")"%char))%bool
      body = body /\
    lowercase ext ∈ extensions.
Proof.
  induction text as [|c text IH]; simpl.
  - destruct (url_at EmptyString) eqn:H0; [discriminate|done].
  - destruct (url_at (String c text)) as [m|] eqn:Hat.
    + intros H. inversion H; subst m.
      apply url_at_inv in Hat
        as (scheme & body & e & q & t & Heq & Hu & Hs & Hb & Hun & He & Hq).
      exists EmptyString, t, scheme, body, q.
      rewrite Heq. split_and!; try done. by rewrite Hq.
    + intros H.
      destruct (IH H)
        as (before & after & scheme & body & ext & -> & ? & ? & ? & ? & ?).
      exists (String c before), after, scheme, body, ext.
      by rewrite append_cons.
Qed.

End PatternProperties.

(** ** Content given as an array of parts *)

Section ContentProperties.

Variable E : Engine.

Lemma content_part_inline_image_any lg d st :
  content_part E lg (inline_image_part d) st =
    (set_imageBase64 (VStr d) st, Some tt).
Proof. by destruct lg. Qed.

(** The loop over a content array of text parts and one inline image. *)
Lemma content_parts_loop lg before d after st :
  for_of (content_part E lg)
    ((text_part <$> before) ++ inline_image_part d :: (text_part <$> after)) st
  = ({| imageUrl := imageUrl st;
        fullContent := fullContent st +:+ concat_text (before ++ after);
        imageBase64 := VStr d |}, Some tt).
Proof.
  erewrite for_of_app by apply text_parts_loop.
  change (for_of ?f (?x :: ?l)) with (mbind (fun _ : unit => for_of f l) (f x)).
  erewrite T_bind_some by apply content_part_inline_image_any.
  rewrite text_parts_loop, concat_text_app, <- append_assoc.
  reflexivity.
Qed.

Lemma structured_content_array lg jsonData message before d after :
  message_of jsonData = Some message ->
  get message "images" = Some VUndef ->
  get message "content"
    = Some (VArr ((text_part <$> before) ++
                  inline_image_part d :: (text_part <$> after))) ->
  structured E lg jsonData rstate0 =
    ({| imageUrl := None;
        fullContent := concat_text (before ++ after);
        imageBase64 := VStr d |}, Some tt).
Proof.
  intros Hmsg Himgs Hcontent. unfold message_of in Hmsg.
  unfold structured.
  destruct (get jsonData "choices") as [choices|]; [|discriminate].
  rewrite T_bind_of_option. simpl in Hmsg.
  destruct (truthy choices); [|discriminate]. simpl in *.
  destruct (get0 choices) as [choice0|]; [|discriminate].
  rewrite T_bind_of_option. simpl in Hmsg.
  destruct (truthy choice0); [|discriminate]. simpl in *.
  destruct (get choice0 "message") as [m|]; [|discriminate].
  rewrite T_bind_of_option. simpl in Hmsg.
  destruct (truthy m) eqn:Hm; [|discriminate]. inversion Hmsg; subst m.
  simpl. rewrite Hcontent, T_bind_of_option, Himgs, T_bind_of_option.
  change (mbind ?f skip rstate0) with (f tt rstate0). cbv beta.
  change (mbind ?f read rstate0) with (f rstate0 rstate0). cbv beta.
  change (negb (truthy (imageBase64 rstate0))) with true. cbv iota.
  apply content_parts_loop.
Qed.

(** X20.  A JSON response without [message.images] whose content is an
    array of text parts and one inline image resolves to that image, in
    [generateImage] and in [editImage] alike: the payload of the part is
    what will be decoded, the text parts before and after it are
    accumulated in order, and the text is not searched. *)
Theorem content_array_resolves_inline_image
    responseText jsonData message before data after :
  JSON_parse E responseText = Some jsonData ->
  message_of jsonData = Some message ->
  get message "images" = Some VUndef ->
  get message "content"
    = Some (VArr ((text_part <$> before) ++
                  inline_image_part data :: (text_part <$> after))) ->
  data ≠ EmptyString ->
  extract_generate E responseText
    = {| imageUrl := None;
         fullContent := concat_text (before ++ after);
         imageBase64 := VStr data |} /\
  extract_edit E responseText = extract_generate E responseText.
Proof.
  intros Hparse Hmsg Himgs Hcontent Hne.
  assert (Hg : parse_generate E responseText
               = {| imageUrl := None;
                    fullContent := concat_text (before ++ after);
                    imageBase64 := VStr data |}).
  { unfold parse_generate. rewrite Hparse, T_bind_of_option.
    by rewrite (structured_content_array _ _ _ _ _ _ Hmsg Himgs Hcontent). }
  assert (He : parse_edit E responseText
               = {| imageUrl := None;
                    fullContent := concat_text (before ++ after);
                    imageBase64 := VStr data |}).
  { unfold parse_edit. rewrite Hparse, T_bind_of_option.
    by rewrite (structured_content_array _ _ _ _ _ _ Hmsg Himgs Hcontent). }
  unfold extract_generate, extract_edit, text_scan_generate, text_scan_edit,
    no_image_yet.
  rewrite Hg, He. cbn [imageUrl imageBase64].
  by rewrite (truthy_VStr _ Hne).
Qed.

End ContentProperties.

(** * The further properties on concrete inputs *)

Section FurtherExamples.
Import Sample Fixture.

(** X2: the file to edit does not exist. *)
Lemma editImage_unreadable_image_witness :
  fs_readFile (unreadable_world (reply (stringify refusal))) (VStr "in/cat.png")
    = Throw ENOENT /\
  exists r,
    editImage refusing_engine (unreadable_world (reply (stringify refusal)))
      config (VStr "in/cat.png") (VStr "add a hat") VNull
      (modelNanoBanana config) None =
      ([EvReadFile (VStr "in/cat.png")], Ok r) /\
    keys r = ["success"; "error"; "originalPath"; "editPrompt"] /\
    field "success" r = VBool false /\
    field "error" r = VStr (emessage ENOENT) /\
    field "originalPath" r = VStr "in/cat.png" /\
    field "editPrompt" r = VStr "add a hat".
Proof.
  split; [reflexivity|].
  apply (editImage_unreadable_image refusing_engine
           (unreadable_world (reply (stringify refusal))) config
           (VStr "in/cat.png") (VStr "add a hat") VNull
           (modelNanoBanana config) None ENOENT).
  reflexivity.
Defined.

(** X3: the event stream that [generateImage] resolves to an image is of
    no use to [editImage]. *)
Lemma editImage_needs_json_witness :
  fs_readFile (world (reply event_stream) unreachable) (VStr "in/cat.png")
    = Ok [] /\
  fetch_post (world (reply event_stream) unreachable)
    (chatApiUrl config) (bearer (apiKey config))
    (ChatBody (edit_request (VStr "add a hat")
                 (Buffer_to_base64 stream_engine []) (modelNanoBanana config)
                 None)) = Ok (reply event_stream) /\
  ok (reply event_stream) = true /\
  JSON_parse stream_engine (text (reply event_stream)) = None /\
  imageBase64 (extract_generate stream_engine event_stream) = VStr "QUJD" /\
  exists r,
    editImage stream_engine (world (reply event_stream) unreachable) config
      (VStr "in/cat.png") (VStr "add a hat") VNull (modelNanoBanana config)
      None
    = ([EvReadFile (VStr "in/cat.png");
        EvPost (chatApiUrl config) (bearer (apiKey config))
          (ChatBody (edit_request (VStr "add a hat")
                       (Buffer_to_base64 stream_engine [])
                       (modelNanoBanana config) None))],
       Ok r) /\
    keys r = ["success"; "error"; "originalPath"; "editPrompt"] /\
    field "success" r = VBool false /\
    field "error" r
      = VStr "未在编辑响应中找到图像URL或base64数据，可能需要调整编辑提示词" /\
    field "originalPath" r = VStr "in/cat.png" /\
    field "editPrompt" r = VStr "add a hat".
Proof.
  split; [reflexivity|]. split; [reflexivity|]. split; [reflexivity|].
  split; [vm_compute; reflexivity|]. split; [vm_compute; reflexivity|].
  apply (editImage_needs_json stream_engine
           (world (reply event_stream) unreachable) config
           (VStr "in/cat.png") (VStr "add a hat") VNull
           (modelNanoBanana config) None [] (reply event_stream));
    [reflexivity | reflexivity | reflexivity | vm_compute; reflexivity].
Defined.

(** X4: the provider refuses the key. *)
Lemma generateImage_reports_http_error_witness :
  fetch_post (world unauthorized unreachable)
    (chatApiUrl config) (bearer (apiKey config))
    (ChatBody (generate_request (VStr "a cat") (modelNanoBanana config) None))
    = Ok unauthorized /\
  ok unauthorized = false /\
  (exists r,
     generateImage refusing_engine (world unauthorized unreachable) config
       (VStr "a cat") VNull (modelNanoBanana config) None =
       ([EvPost (chatApiUrl config) (bearer (apiKey config))
           (ChatBody (generate_request (VStr "a cat") (modelNanoBanana config)
                        None))],
        Ok r) /\
     keys r = ["success"; "error"; "prompt"] /\
     field "success" r = VBool false /\
     field "error" r
       = VStr ("API 请求失败: " +:+ pretty (status unauthorized) +:+ " - "
               +:+ text unauthorized) /\
     field "prompt" r = VStr "a cat") /\
  "API 请求失败: " +:+ pretty (status unauthorized) +:+ " - "
    +:+ text unauthorized
  = "API 请求失败: 401 - invalid api key".
Proof.
  split; [reflexivity|]. split; [reflexivity|]. split; [|vm_compute; reflexivity].
  apply (generateImage_reports_http_error refusing_engine
           (world unauthorized unreachable) config
           (VStr "a cat") VNull (modelNanoBanana config) None unauthorized);
    reflexivity.
Defined.

(** X5: a generation that succeeds ends with the write of the file. *)
Lemma success_means_file_written_witness :
  field "success"
    (VObj [("success", VBool true);
           ("message", VStr "图像生成成功并保存到: out/cat.png");
           ("filePath", VStr "out/cat.png");
           ("prompt", VStr "a cat")]) = VBool true /\
  generateImage two_images_engine two_images_world config
    (VStr "a cat") (VStr "out/cat.png") (modelNanoBanana config) None
  = ([EvPost (chatApiUrl config) (bearer (apiKey config))
        (ChatBody (generate_request (VStr "a cat") (modelNanoBanana config)
                     None));
      EvWriteFile (VStr "out/cat.png") bytes_BBB],
     Ok (VObj [("success", VBool true);
               ("message", VStr "图像生成成功并保存到: out/cat.png");
               ("filePath", VStr "out/cat.png");
               ("prompt", VStr "a cat")])) /\
  saved_as two_images_world (VStr "out/cat.png")
    [EvPost (chatApiUrl config) (bearer (apiKey config))
       (ChatBody (generate_request (VStr "a cat") (modelNanoBanana config)
                    None));
     EvWriteFile (VStr "out/cat.png") bytes_BBB]
    (VObj [("success", VBool true);
           ("message", VStr "图像生成成功并保存到: out/cat.png");
           ("filePath", VStr "out/cat.png");
           ("prompt", VStr "a cat")]).
Proof.
  split; [reflexivity|]. split; [vm_compute; reflexivity|].
  apply (success_means_file_written two_images_engine two_images_world config
           (VStr "a cat") VUndef (VStr "out/cat.png") (modelNanoBanana config)
           None VUndef); [reflexivity|].
  left. vm_compute. reflexivity.
Defined.

(** X6: a generation into [out/cat.png]. *)
Lemma caller_path_creates_no_directory_witness :
  truthy (VStr "out/cat.png") = true /\
  Forall (fun e => is_directory_event e = false)
    (generateImage two_images_engine two_images_world config
       (VStr "a cat") (VStr "out/cat.png") (modelNanoBanana config) None).1 /\
  Forall (fun e => is_directory_event e = false)
    (editImage two_images_engine two_images_world config
       (VStr "in/cat.png") (VStr "a cat") (VStr "out/cat.png")
       (modelNanoBanana config) None).1 /\
  Forall (fun e => is_directory_event e = false)
    (generateImageGlm two_images_engine two_images_world config
       (VStr "a cat") (VStr "out/cat.png") (VStr "1280x1280")).1.
Proof.
  split; [reflexivity|].
  apply (caller_path_creates_no_directory two_images_engine two_images_world
           config (VStr "a cat") (VStr "in/cat.png") (VStr "out/cat.png")
           (modelNanoBanana config) None (VStr "1280x1280")).
  reflexivity.
Defined.

(** X7: seven jobs, one worker. *)
Lemma single_worker_keeps_order_witness :
  store_with seven_jobs !! 1%positive = Some seven_jobs /\
  seven_jobs ≠ [] /\
  Forall (fun j => nullish j = false) seven_jobs /\
  exists res,
    returned (generateImageBatch refusing_engine refusing_world config
                (store_with seven_jobs) 1%positive 1 (modelNanoBanana config)
                None []) = Ok res /\
    Forall2
      (record_of_job
         (fun prompt saveToFilePath =>
            generateImage refusing_engine refusing_world config
              prompt saveToFilePath (modelNanoBanana config) None))
      seven_jobs res /\
    events (generateImageBatch refusing_engine refusing_world config
              (store_with seven_jobs) 1%positive 1 (modelNanoBanana config)
              None [])
    = seven_jobs ≫= events_of_job
                      (fun prompt saveToFilePath =>
                         generateImage refusing_engine refusing_world config
                           prompt saveToFilePath (modelNanoBanana config)
                           None).
Proof.
  split; [reflexivity|]. split; [discriminate|].
  split; [repeat constructor|].
  destruct (single_worker_keeps_order refusing_engine refusing_world config
              (store_with seven_jobs) 1%positive seven_jobs
              (modelNanoBanana config) None (VStr "1280x1280") [])
    as [Hchat _];
    [reflexivity | discriminate | repeat constructor |].
  exact Hchat.
Defined.

(** X8: a [null] between two jobs, two workers. *)
Lemma null_entry_rejects_batch_witness :
  store_with jobs_with_null !! 1%positive = Some jobs_with_null /\
  Exists is_nullish jobs_with_null /\
  1 <= 2 /\
  returned (generateImageBatch refusing_engine refusing_world config
              (store_with jobs_with_null) 1%positive 2
              (modelNanoBanana config) None [1; 0]%nat)
  = Throw (TypeError_read refusing_engine "prompt") /\
  returned (generateImageGlmBatch refusing_engine refusing_world config
              (store_with jobs_with_null) 1%positive 2 (VStr "1280x1280")
              [1; 0]%nat)
  = Throw (TypeError_read refusing_engine "prompt").
Proof.
  split; [reflexivity|].
  split; [apply Exists_cons_tl, Exists_cons_hd; reflexivity|].
  split; [lia|].
  apply (null_entry_rejects_batch refusing_engine refusing_world config
           (store_with jobs_with_null) 1%positive jobs_with_null 2
           (modelNanoBanana config) None (VStr "1280x1280") [1; 0]%nat);
    [reflexivity | apply Exists_cons_tl, Exists_cons_hd; reflexivity | lia].
Defined.

(** X9: seven jobs, three workers. *)
Lemma batch_settles_every_job_witness :
  store_with seven_jobs !! 1%positive = Some seven_jobs /\
  seven_jobs ≠ [] /\
  Forall (fun j => nullish j = false) seven_jobs /\
  1 <= 3 /\
  exists res records,
    returned (generateImageBatch refusing_engine refusing_world config
                (store_with seven_jobs) 1%positive 3 (modelNanoBanana config)
                None [2; 0; 1]%nat) = Ok res /\
    res ≡ₚ records /\
    Forall2
      (record_of_job
         (fun prompt saveToFilePath =>
            generateImage refusing_engine refusing_world config
              prompt saveToFilePath (modelNanoBanana config) None))
      seven_jobs records /\
    length res = length seven_jobs /\
    events (generateImageBatch refusing_engine refusing_world config
              (store_with seven_jobs) 1%positive 3 (modelNanoBanana config)
              None [2; 0; 1]%nat)
    ≡ₚ seven_jobs ≫= events_of_job
                       (fun prompt saveToFilePath =>
                          generateImage refusing_engine refusing_world config
                            prompt saveToFilePath (modelNanoBanana config)
                            None).
Proof.
  split; [reflexivity|]. split; [discriminate|].
  split; [repeat constructor|]. split; [lia|].
  destruct (batch_settles_every_job refusing_engine refusing_world config
              (store_with seven_jobs) 1%positive seven_jobs 3
              (modelNanoBanana config) None (VStr "1280x1280")
              [2; 0; 1]%nat)
    as [Hchat _];
    [reflexivity | discriminate | repeat constructor | lia |].
  exact Hchat.
Defined.

(** X11: a generation that the provider refuses is answered, and not as
    a tool error. *)
Lemma callTool_always_answers_witness :
  args_in_schema cat_arguments = true /\
  exists t r,
    callTool refusing_engine refusing_world config no_converter no_converter
      "generate_image_nano" cat_arguments [] = Some (t, Ok r) /\
    (isError r = true ->
     keys (payload r) = ["success"; "error"; "tool"] /\
     field "success" (payload r) = VBool false /\
     field "tool" (payload r) = VStr "generate_image_nano").
Proof.
  split; [reflexivity|].
  apply (callTool_always_answers refusing_engine refusing_world config
           no_converter no_converter "generate_image_nano" cat_arguments []).
  reflexivity.
Defined.

(** X12: a tool that does not exist. *)
Lemma unknown_tool_is_reported_witness :
  ("generate_video" ∉ listed_tools.*1) /\
  callTool refusing_engine refusing_world config no_converter no_converter
    "generate_video" cat_arguments [] =
    Some ([], Ok {| payload :=
                      VObj [("success", VBool false);
                            ("error", VStr "未知的工具: generate_video");
                            ("tool", VStr "generate_video")];
                    isError := true |}).
Proof.
  assert (Hname : "generate_video" ∉ listed_tools.*1).
  { intros H. unfold listed_tools in H. simpl in H.
    repeat (apply elem_of_cons in H as [H|H]; [discriminate|]).
    by apply elem_of_nil in H. }
  split; [exact Hname|].
  apply (unknown_tool_is_reported refusing_engine refusing_world config
           no_converter no_converter "generate_video" cat_arguments []).
  exact Hname.
Defined.

(** X13: a conversion to PDF without [outputPath], and a generation
    without arguments; nothing is called. *)
Lemma required_arguments_are_enforced_witness :
  (("images_to_pdf", ["imagePaths"; "outputPath"]) ∈ listed_tools /\
   "outputPath" ∈ ["imagePaths"; "outputPath"] /\
   truthy (field "outputPath" (VObj [("imagePaths", VArr [VStr "in/1.png"])]))
     = false /\
   exists r,
     callTool refusing_engine refusing_world config no_converter no_converter
       "images_to_pdf" (VObj [("imagePaths", VArr [VStr "in/1.png"])]) []
     = Some ([], Ok r) /\
     isError r = true /\
     field "success" (payload r) = VBool false /\
     field "tool" (payload r) = VStr "images_to_pdf" /\
     exists what,
       field "error" (payload r) = VStr ("缺少必需的参数: " +:+ what)) /\
  (("generate_image_nano", ["prompt"]) ∈ listed_tools /\
   "prompt" ∈ ["prompt"] /\
   truthy (field "prompt" VUndef) = false /\
   exists r,
     callTool refusing_engine refusing_world config no_converter no_converter
       "generate_image_nano" VUndef [] = Some ([], Ok r) /\
     isError r = true /\
     field "tool" (payload r) = VStr "generate_image_nano" /\
     exists first,
       first ∈ ["prompt"] /\
       field "error" (payload r)
       = VStr (emessage (TypeError_read refusing_engine first))).
Proof.
  assert (Hname : ("images_to_pdf", ["imagePaths"; "outputPath"])
                  ∈ listed_tools).
  { unfold listed_tools. do 7 apply list_elem_of_further.
    apply list_elem_of_here. }
  assert (Hk : "outputPath" ∈ ["imagePaths"; "outputPath"]).
  { apply list_elem_of_further, list_elem_of_here. }
  assert (Hnano : ("generate_image_nano", ["prompt"]) ∈ listed_tools).
  { unfold listed_tools. apply list_elem_of_here. }
  assert (Hp : "prompt" ∈ ["prompt"]) by apply list_elem_of_here.
  split.
  - split; [exact Hname|]. split; [exact Hk|]. split; [reflexivity|].
    destruct (required_arguments_are_enforced refusing_engine refusing_world
                config no_converter no_converter "images_to_pdf"
                ["imagePaths"; "outputPath"] "outputPath"
                (VObj [("imagePaths", VArr [VStr "in/1.png"])]) [])
      as (r & Hr & Herr & _ & Hsucc & Htool & Hobject & _);
      [exact Hname | exact Hk | reflexivity |].
    exists r. split; [exact Hr|]. split; [exact Herr|].
    split; [exact Hsucc|]. split; [exact Htool|].
    apply Hobject. reflexivity.
  - split; [exact Hnano|]. split; [exact Hp|]. split; [reflexivity|].
    destruct (required_arguments_are_enforced refusing_engine refusing_world
                config no_converter no_converter "generate_image_nano"
                ["prompt"] "prompt" VUndef [])
      as (r & Hr & Herr & _ & _ & Htool & _ & Hnone);
      [exact Hnano | exact Hp | reflexivity |].
    exists r. split; [exact Hr|]. split; [exact Herr|].
    split; [exact Htool|].
    apply Hnone. reflexivity.
Defined.

(** X14: the provider refuses; the tool answers with the failure record
    of [generateImage] and without [isError]. *)
Lemma job_failure_is_not_a_tool_error_witness :
  args_in_schema cat_arguments = true /\
  truthy (field "prompt" cat_arguments) = true /\
  callTool refusing_engine refusing_world config no_converter no_converter
    "generate_image_seedream" cat_arguments []
  = Some ([EvPost (chatApiUrl config) (bearer (apiKey config))
             (ChatBody (generate_request (VStr "a cat") (modelSeedream config)
                          None))],
          Ok {| payload := failure_result msg_no_image
                             [("prompt", VStr "a cat")];
                isError := false |}) /\
  exists t r,
    callTool refusing_engine refusing_world config no_converter no_converter
      "generate_image_seedream" cat_arguments []
      = Some (t, Ok {| payload := r; isError := false |}) /\
    generateImage refusing_engine refusing_world config
      (field "prompt" cat_arguments)
      (or_null (field "saveToFilePath" cat_arguments))
      (modelSeedream config) None = (t, Ok r).
Proof.
  split; [reflexivity|]. split; [reflexivity|].
  split; [vm_compute; reflexivity|].
  destruct (job_failure_is_not_a_tool_error refusing_engine refusing_world
              config no_converter no_converter "generate_image_seedream"
              cat_arguments [])
    as (t & r & rest & ic & Hcall & _ & _ & _ & Hseedream & _);
    [reflexivity | |].
  - left. split; [|reflexivity].
    apply list_elem_of_further, list_elem_of_here.
  - exists t, r. split; [exact Hcall|]. apply Hseedream. reflexivity.
Defined.

(** X15: two jobs and a concurrency of -2. *)
Lemma batch_tool_negative_concurrency_witness :
  "generate_image_batch"
    ∈ ["generate_image_batch"; "generate_image_glm_batch"] /\
  args_in_schema (batch_arguments (VNum (-2))) = true /\
  field "requests" (batch_arguments (VNum (-2))) = VArr two_requests /\
  two_requests ≠ [] /\
  field "concurrency" (batch_arguments (VNum (-2))) = VNum (-2) /\
  -2 < 0 /\
  callTool refusing_engine refusing_world config no_converter no_converter
    "generate_image_batch" (batch_arguments (VNum (-2))) [] =
    Some ([], Ok {| payload := VObj [("success", VBool true);
                                     ("results", VArr [])];
                    isError := false |}).
Proof.
  split; [apply list_elem_of_here|]. split; [reflexivity|].
  split; [reflexivity|]. split; [discriminate|]. split; [reflexivity|].
  split; [lia|].
  apply (batch_tool_negative_concurrency refusing_engine refusing_world config
           no_converter no_converter "generate_image_batch"
           (batch_arguments (VNum (-2))) [] two_requests (-2));
    [apply list_elem_of_here | reflexivity | reflexivity | discriminate
    | reflexivity | lia].
Defined.

(** X16: two jobs, [concurrency: 0]: three workers are asked for, and
    both jobs are answered. *)
Lemma batch_tool_answers_every_job_witness :
  "generate_image_glm_batch"
    ∈ ["generate_image_batch"; "generate_image_glm_batch"] /\
  args_in_schema (batch_arguments (VNum 0)) = true /\
  field "requests" (batch_arguments (VNum 0)) = VArr two_requests /\
  two_requests ≠ [] /\
  Forall (fun j => nullish j = false) two_requests /\
  truthy (field "concurrency" (batch_arguments (VNum 0))) = false /\
  exists t results records,
    callTool refusing_engine refusing_world config no_converter no_converter
      "generate_image_glm_batch" (batch_arguments (VNum 0)) [1]%nat =
      Some (t, Ok {| payload :=
                       VObj [("success",
                              VBool (forallb
                                       (fun r => truthy (field "success" r))
                                       results));
                             ("results", VArr results)];
                     isError := false |}) /\
    length results = length two_requests /\
    results ≡ₚ records /\
    Forall2
      (record_of_job
         (fun prompt saveToFilePath =>
            generateImageGlm refusing_engine refusing_world config
              prompt saveToFilePath
              (value_or (VStr "1280x1280")
                 (field "size" (batch_arguments (VNum 0))))))
      two_requests records.
Proof.
  split; [apply list_elem_of_further, list_elem_of_here|].
  split; [reflexivity|]. split; [reflexivity|]. split; [discriminate|].
  split; [repeat constructor|]. split; [reflexivity|].
  destruct (batch_tool_answers_every_job refusing_engine refusing_world
              config no_converter no_converter "generate_image_glm_batch"
              (batch_arguments (VNum 0)) [1]%nat two_requests)
    as (t & results & records & ic & Hcall & Hlen & Hperm & _ & _ & _ & Hglm);
    [apply list_elem_of_further, list_elem_of_here | reflexivity | reflexivity
    | discriminate | repeat constructor | left; reflexivity |].
  exists t, results, records. split; [exact Hcall|]. split; [exact Hlen|].
  split; [exact Hperm|]. apply Hglm. reflexivity.
Defined.

(** X17: the payload found in a text that also holds a URL. *)
Lemma scanned_payload_is_base64_witness :
  Regex.match_dataurl mixed_text = Some "QUJD" /\
  exists before mime after,
    mixed_text = before +:+ "data:image/" +:+ mime +:+ ";base64,"
                        +:+ "QUJD" +:+ after /\
    mime ≠ EmptyString /\ Regex.from_semicolon mime = None /\
    "QUJD" ≠ EmptyString /\
    Regex.span Regex.b64char "QUJD" = "QUJD" /\
    Regex.span Regex.b64char after = EmptyString.
Proof.
  split; [vm_compute; reflexivity|].
  apply (scanned_payload_is_base64 mixed_text "QUJD").
  vm_compute. reflexivity.
Defined.

(** X18: a payload in the URL-safe alphabet. *)
Lemma data_url_payload_round_trip_witness :
  "png" ≠ EmptyString /\
  Regex.from_semicolon "png" = None /\
  "ab-cd" ≠ EmptyString /\
  Regex.has_line_terminator "ab-cd" = false /\
  Regex.match_dataurl_whole ("data:image/" +:+ "png" +:+ ";base64," +:+ "ab-cd")
    = Some "ab-cd" /\
  Regex.match_dataurl ("data:image/" +:+ "png" +:+ ";base64," +:+ "ab-cd")
    = Some "ab".
Proof.
  split; [discriminate|]. split; [reflexivity|]. split; [discriminate|].
  split; [reflexivity|].
  destruct (data_url_payload_round_trip "png" "ab-cd") as [Hwhole Hscan];
    [discriminate | reflexivity | discriminate | reflexivity |].
  split; [exact Hwhole|]. apply Hscan. discriminate.
Defined.

(** X19: the URL found in the same text. *)
Lemma scanned_url_is_an_image_url_witness :
  Regex.match_url mixed_text = Some "https://cdn.example.com/cat.png" /\
  exists before after scheme body ext,
    mixed_text = before +:+ "https://cdn.example.com/cat.png" +:+ after /\
    "https://cdn.example.com/cat.png"
      = scheme +:+ "://" +:+ body +:+ "." +:+ ext /\
    lowercase scheme ∈ ["http"; "https"] /\
    body ≠ EmptyString /\
    Regex.span
      (fun c => negb (JsString.ascii_space c)
                && bool_decide (c ≠ ")"%char))%bool body = body /\
    lowercase ext ∈ Regex.extensions.
Proof.
  split; [vm_compute; reflexivity|].
  apply (scanned_url_is_an_image_url mixed_text
           "https://cdn.example.com/cat.png").
  vm_compute. reflexivity.
Defined.

(** X20: an answer in the native format. *)
Lemma content_array_resolves_inline_image_witness :
  JSON_parse inline_engine (stringify inline_answer) = Some inline_answer /\
  message_of inline_answer = Some inline_message /\
  get inline_message "images" = Some VUndef /\
  get inline_message "content"
    = Some (VArr ((text_part <$> ["here "]) ++
                  inline_image_part "QUJD" :: (text_part <$> ["you are"]))) /\
  "QUJD" ≠ EmptyString /\
  extract_generate inline_engine (stringify inline_answer)
    = {| imageUrl := None;
         fullContent := concat_text (["here "] ++ ["you are"]);
         imageBase64 := VStr "QUJD" |} /\
  extract_edit inline_engine (stringify inline_answer)
    = extract_generate inline_engine (stringify inline_answer).
Proof.
  split; [vm_compute; reflexivity|]. split; [reflexivity|].
  split; [reflexivity|]. split; [reflexivity|]. split; [discriminate|].
  apply (content_array_resolves_inline_image inline_engine
           (stringify inline_answer) inline_answer inline_message
           ["here "] "QUJD" ["you are"]);
    [vm_compute; reflexivity | reflexivity | reflexivity | reflexivity
    | discriminate].
Defined.



(** X24: the answer points to a JPEG; no path is given. *)
Lemma generateImage_names_download_png_witness :
  imageBase64 (extract_generate url_engine (stringify url_answer)) = VNull /\
  imageUrl (extract_generate url_engine (stringify url_answer))
    = Some "https://cdn.example.com/cat.jpg" /\
  ensure_dir url_world (targetDir config)
    = ([EvAccess "/srv/project"], Ok tt) /\
  default_path url_world (targetDir config) "generated" (VStr "a cat") "png"
    = Ok "/srv/project/generated.png" /\
  generateImage url_engine url_world config
    (VStr "a cat") VNull (modelNanoBanana config) None =
    ([EvPost (chatApiUrl config) (bearer (apiKey config))
        (ChatBody (generate_request (VStr "a cat") (modelNanoBanana config)
                     None));
      EvGet (VStr "https://cdn.example.com/cat.jpg")]
     ++ [EvAccess "/srv/project"]
     ++ [EvWriteFile (VStr "/srv/project/generated.png") (buffer cat_image)],
     Ok (success_result
           ("图像生成成功并保存到: " +:+ "/srv/project/generated.png")
           (VStr "/srv/project/generated.png") [("prompt", VStr "a cat")])).
Proof.
  split; [vm_compute; reflexivity|]. split; [vm_compute; reflexivity|].
  split; [reflexivity|]. split; [reflexivity|].
  apply (generateImage_names_download_png url_engine url_world config
           (VStr "a cat") VNull (modelNanoBanana config) None
           (reply (stringify url_answer)) "https://cdn.example.com/cat.jpg"
           cat_image [EvAccess "/srv/project"] "/srv/project/generated.png");
    first [ reflexivity | vm_compute; reflexivity ].
Defined.

(** X25: [OUTPUT_DIR] set on one side, [PROJECT_DIR] on the other. *)
Lemma directory_settings_do_not_mix_witness :
  "/srv/project" ≠ EmptyString /\
  generateImage url_engine url_world
    (API_CONFIG_from {[ "OUTPUT_DIR" := "/srv/out" ]} "/opt/server/images"
       "/srv/project")
    (VStr "a cat") VNull "google/gemini-3-pro-image-preview" None
  = generateImage url_engine url_world
      (API_CONFIG_from ∅ "generated-images" "/srv/project")
      (VStr "a cat") VNull "google/gemini-3-pro-image-preview" None /\
  editImage url_engine url_world
    (API_CONFIG_from {[ "PROJECT_DIR" := "/srv/other" ]} "generated-images"
       "/home/user")
    (VStr "in/cat.png") (VStr "a cat") VNull
    "google/gemini-3-pro-image-preview" None
  = editImage url_engine url_world
      (API_CONFIG_from ∅ "generated-images" "/srv/project")
      (VStr "in/cat.png") (VStr "a cat") VNull
      "google/gemini-3-pro-image-preview" None.
Proof.
  split; [discriminate|].
  destruct (directory_settings_do_not_mix url_engine url_world
              ∅ {[ "OUTPUT_DIR" := "/srv/out" ]}
              {[ "PROJECT_DIR" := "/srv/other" ]}
              "generated-images" "/opt/server/images" "/srv/project"
              "/home/user" (VStr "a cat") (VStr "in/cat.png") VNull
              "google/gemini-3-pro-image-preview" None (VStr "1280x1280"))
    as (Hgen & _ & Hedit).
  - discriminate.
  - intros x Hx. by rewrite lookup_singleton_ne.
  - intros x Hx. by rewrite lookup_singleton_ne.
  - split; [exact Hgen|exact Hedit].
Defined.

End FurtherExamples.
